(** * OpenList driver plugins: the driver registry (package [op]), the plugin
    driver adapter and the plugin manager (package [plugin]).

    Sources: src/internal/op/driver.go ("driver.go"),
    src/internal/plugin/adapter.go ("adapter.go") and the file of package
    [plugin] that defines [Manager], src/unnamed/part_000 ("manager").

    The Go code is embedded as state-passing functions over one record of
    program state.  A call either returns, parks its goroutine on a mutex for
    good, or panics; the three outcomes are kept apart so that "the call
    returns" is a statement about the code and not an assumption. *)

From stdpp Require Import gmap strings list fin_maps.

Set Default Proof Using "Type".
Open Scope string_scope.
Open Scope list_scope.

(** ** sync.RWMutex

    Go's reader/writer mutex is not reentrant: [Lock] on a mutex that is
    held parks the caller until the holder unlocks, whoever the holder is.
    A writer that calls [Lock] while readers are inside announces itself
    and waits for them to leave, and from that moment [RLock] parks new
    readers behind it.

    [writer] says that a writer has announced itself: it holds the mutex
    when [readers] is 0 and waits for the readers to leave otherwise.
    [readers] counts the readers that are inside. *)
Module sync.

Record RWMutex := { writer : bool; readers : nat }.

(** The zero value: an unlocked mutex. *)
Definition unlocked : RWMutex := {| writer := false; readers := 0 |}.

Inductive attempt :=
| Acquired (m : RWMutex)   (* the operation went through *)
| Parked                   (* the caller waits for somebody else *)
| Queued (m : RWMutex)     (* the caller waits, and has announced itself *)
| Fatal.                   (* "fatal error: sync: Unlock of unlocked RWMutex" *)

Definition Lock (m : RWMutex) : attempt :=
  if writer m then Parked
  else match readers m with
       | O => Acquired {| writer := true; readers := 0 |}
       | S n => Queued {| writer := true; readers := S n |}
       end.

Definition Unlock (m : RWMutex) : attempt :=
  if writer m then Acquired {| writer := false; readers := readers m |}
  else Fatal.

Definition RLock (m : RWMutex) : attempt :=
  if writer m then Parked
  else Acquired {| writer := false; readers := S (readers m) |}.

Definition RUnlock (m : RWMutex) : attempt :=
  match readers m with
  | O => Fatal
  | S n => Acquired {| writer := writer m; readers := n |}
  end.

End sync.

(** ** Package [driver]: the records the registry stores.

    The package is imported by the sources; the fields are the ones the
    sources read and write. *)
Module driver.

Module Config.
Record t := mk {
  Name : string;
  LocalSort : bool;
  OnlyLinkMFile : bool;
  OnlyProxy : bool;
  NoCache : bool;
  NoUpload : bool;
  NeedMs : bool;
  DefaultRoot : string;
  CheckStatus : bool;
  Alert : string;
  NoOverwriteUpload : bool;
  ProxyRangeOption : bool;
  NoLinkURL : bool
}.
End Config.

Module Item.
Record t := mk {
  Name : string;
  Type_ : string;
  Default : string;
  Options : string;
  Required : bool;
  Help : string
}.
End Item.

Module Info.
Record t := mk {
  Common : list Item.t;
  Additional : list Item.t;
  Config : Config.t
}.
End Info.

End driver.

(** ** Package [reflect], as far as [registerDriverItems] looks into a type. *)
Module reflect.

Inductive Kind :=
| Invalid | Bool | Int | Int8 | Int16 | Int32 | Int64
| Uint | Uint8 | Uint16 | Uint32 | Uint64 | Uintptr
| Float32 | Float64 | Complex64 | Complex128
| Array | Chan | Func | Interface | Map | Pointer | Slice | String
| Struct | UnsafePointer.

#[global] Instance Kind_eq_dec : EqDecision Kind.
Proof. solve_decision. Defined.

(** A struct tag in parsed form: the key/value pairs in the order they are
    written, which is the order [StructTag.Lookup] scans them in. *)
Definition StructTag := list (string * string).

(** A type descriptor.  [Plain k name] stands for every type that is neither
    a struct nor a pointer: the code only asks such a type for its [Kind] and
    its [Name]. *)
#[warnings="-register-all"]
Inductive Type_ :=
| StructOf (name : string) (fields : list (string * Type_ * StructTag))
| PointerTo (elem : Type_)
| Plain (k : Kind) (name : string).

Definition Kind_of (t : Type_) : Kind :=
  match t with
  | StructOf _ _ => Struct
  | PointerTo _ => Pointer
  | Plain k _ => k
  end.

Definition Name (t : Type_) : string :=
  match t with
  | StructOf name _ => name
  | PointerTo _ => ""
  | Plain _ name => name
  end.

Fixpoint Lookup (tag : StructTag) (key : string) : option string :=
  match tag with
  | [] => None
  | (k, v) :: rest => if decide (k = key) then Some v else Lookup rest key
  end.

Definition Get (tag : StructTag) (key : string) : string :=
  default "" (Lookup tag key).

End reflect.

(** A value of the interface type [driver.Additional]: all the registry does
    with it is ask for its dynamic type.  A [map[string]interface{}] is kept
    with its keys; any other value is known by its type alone. *)
Inductive Additional :=
| GenericMap (keys : gset string)
| ValueOf (t : reflect.Type_).

Definition TypeOf (a : Additional) : reflect.Type_ :=
  match a with
  | GenericMap _ => reflect.Plain reflect.Map ""
  | ValueOf t => t
  end.

(** ** What the sources import from outside the repository

    Constants of package [conf], the method [Config.MustProxy] of package
    [driver] and the library functions [strings.ToLower], [filepath.Ext] and
    [filepath.Join] are not defined in the sources: they are parameters. *)
Record Deps := {
  conf_TypeString : string;
  conf_TypeSelect : string;
  conf_TypeBool : string;
  conf_TypeText : string;
  conf_TypeNumber : string;
  MustProxy : driver.Config.t -> bool;
  strings_ToLower : string -> string;
  filepath_Ext : string -> string;
  filepath_Join : string -> string -> string
}.

Import driver.

Section Items.
Context (deps : Deps).

Definition item (name type : string) : Item.t :=
  Item.mk name type "" "" false "".

(** [getMainItems], driver.go lines 110-204. *)
Definition getMainItems (config : Config.t) : list Item.t :=
  let items :=
    [ Item.mk "mount_path" (conf_TypeString deps) "" "" true
        "The path you want to mount to, it is unique and cannot be repeated";
      Item.mk "order" (conf_TypeNumber deps) "" "" false "use to sort";
      item "remark" (conf_TypeText deps) ] in
  let items :=
    if negb (Config.NoCache config)
    then items ++ [ Item.mk "cache_expiration" (conf_TypeNumber deps) "30" "" true
                      "The cache expiration time for this storage" ]
    else items in
  let items :=
    if MustProxy deps config
    then items ++ [ Item.mk "webdav_policy" (conf_TypeSelect deps) "native_proxy"
                      "use_proxy_url,native_proxy" true "" ]
    else
      let items :=
        items ++ [ item "web_proxy" (conf_TypeBool deps);
                   Item.mk "webdav_policy" (conf_TypeSelect deps) "302_redirect"
                     "302_redirect,use_proxy_url,native_proxy" true "" ] in
      if Config.ProxyRangeOption config
      then
        let it := Item.mk "proxy_range" (conf_TypeBool deps) "" "" false
                    "Need to enable proxy" in
        let it :=
          if decide (Config.Name config = "139Yun")
          then Item.mk (Item.Name it) (Item.Type_ it) "true" (Item.Options it)
                 (Item.Required it) (Item.Help it)
          else it in
        items ++ [ it ]
      else items in
  let items := items ++ [ item "down_proxy_url" (conf_TypeText deps) ] in
  let items :=
    items ++ [ Item.mk "disable_proxy_sign" (conf_TypeBool deps) "false" "" false
                 "Disable sign for Download proxy URL" ] in
  let items :=
    if Config.LocalSort config
    then items ++ [ Item.mk "order_by" (conf_TypeSelect deps) "" "name,size,modified" false "";
                    Item.mk "order_direction" (conf_TypeSelect deps) "" "asc,desc" false "" ]
    else items in
  let items :=
    items ++ [ Item.mk "extract_folder" (conf_TypeSelect deps) "" "front,back" false "" ] in
  let items :=
    items ++ [ Item.mk "disable_index" (conf_TypeBool deps) "false" "" true "" ] in
  items ++ [ Item.mk "enable_sign" (conf_TypeBool deps) "false" "" true "" ].

(** The item one tagged field contributes: the body of the loop of
    [getAdditionalItems] after the [continue]s, driver.go lines 219-240. *)
Definition fieldItem (name : string) (ftype : reflect.Type_)
    (tag : reflect.StructTag) (defaultRoot : string) : Item.t :=
  let type0 := strings_ToLower deps (reflect.Name ftype) in
  let default0 := reflect.Get tag "default" in
  let required0 := bool_decide (reflect.Get tag "required" = "true") in
  let type1 :=
    if decide (reflect.Get tag "type" = "") then type0 else reflect.Get tag "type" in
  let '(default1, required1) :=
    if decide (name = "root_folder_id" \/ name = "root_folder_path")
    then
      let d := if decide (default0 = "") then defaultRoot else default0 in
      (d, negb (bool_decide (d = "")))
    else (default0, required0) in
  let type2 := if decide (type1 = "") then "string" else type1 in
  Item.mk name type2 default1 (reflect.Get tag "options") required1
    (reflect.Get tag "help").

(** [getAdditionalItems], driver.go lines 205-243.  [None] is the panic of
    [NumField] on a type that is not a struct. *)
Fixpoint getAdditionalItems (t : reflect.Type_) (defaultRoot : string)
    : option (list Item.t) :=
  match t with
  | reflect.StructOf _ fields =>
      (fix fields_loop (fs : list (string * reflect.Type_ * reflect.StructTag))
         : option (list Item.t) :=
         match fs with
         | [] => Some []
         | (_, ftype, tag) :: rest =>
             if decide (reflect.Kind_of ftype = reflect.Struct)
             then
               match getAdditionalItems ftype defaultRoot with
               | Some nested => (nested ++.) <$> fields_loop rest
               | None => None
               end
             else
               match reflect.Lookup tag "ignore", reflect.Lookup tag "json" with
               | Some ignore, Some name =>
                   if decide (ignore = "true") then fields_loop rest
                   else (fieldItem name ftype tag defaultRoot ::.) <$> fields_loop rest
               | None, Some name =>
                   (fieldItem name ftype tag defaultRoot ::.) <$> fields_loop rest
               | _, None => fields_loop rest
               end
         end) fields
  | _ => None
  end.

End Items.

(** ** Package [plugin]: data *)

(** Heap addresses, and handles of plugin client processes. *)
Definition loc := nat.
Definition pid := nat.

Module PluginInfo.
Record t := mk {
  Name : string;
  Version : string;
  Description : string;
  Author : string
}.
End PluginInfo.

(** [PluginDriverAdapter], adapter.go lines 13-17.  [pluginClient] is the RPC
    stub of one plugin process, known by the handle of that process;
    [storage] is a pointer, nil until [SetStorage]. *)
Module PluginDriverAdapter.
Record t := mk {
  pluginClient : pid;
  driverName : string;
  storage : option loc
}.
End PluginDriverAdapter.

(** [NewPluginDriverAdapter], adapter.go lines 20-25. *)
Definition NewPluginDriverAdapter (pluginClient : pid) (driverName : string)
    : PluginDriverAdapter.t :=
  PluginDriverAdapter.mk pluginClient driverName None.

(** [PluginDriverAdapter.Config], adapter.go lines 28-46. *)
Definition Config (a : PluginDriverAdapter.t) : Config.t :=
  {| Config.Name := PluginDriverAdapter.driverName a;
     Config.LocalSort := false;
     Config.OnlyLinkMFile := false;
     Config.OnlyProxy := false;
     Config.NoCache := false;
     Config.NoUpload := false;
     Config.NeedMs := false;
     Config.DefaultRoot := "/";
     Config.CheckStatus := false;
     Config.Alert := "";
     Config.NoOverwriteUpload := false;
     Config.ProxyRangeOption := false;
     Config.NoLinkURL := false |}.

(** [PluginDriverAdapter.GetAddition], adapter.go lines 59-63:
    [make(map[string]interface{})]. *)
Definition GetAddition (a : PluginDriverAdapter.t) : Additional :=
  GenericMap ∅.

(** The interface [driver.Driver], as the registry uses it: a built-in driver
    is whatever its [Config] and [GetAddition] methods answer, a plugin driver
    is an adapter. *)
Inductive Driver :=
| Native (config : Config.t) (addition : Additional)
| Remote (a : PluginDriverAdapter.t).

Definition Driver_Config (d : Driver) : Config.t :=
  match d with
  | Native config _ => config
  | Remote a => Config a
  end.

Definition Driver_GetAddition (d : Driver) : Additional :=
  match d with
  | Native _ addition => addition
  | Remote a => GetAddition a
  end.

(** [type DriverConstructor func() driver.Driver], driver.go line 14. *)
Definition DriverConstructor := unit -> Driver.

(** [PluginInstance], manager lines 120-126.  [Client] is the handle of the
    plugin's process, [Drivers] a slice (the address of its backing array)
    and [Config] a map nothing reads or writes. *)
Module PluginInstance.
Record t := mk {
  Name : string;
  Path : string;
  Client : pid;
  Drivers : loc;
  Config : gset string
}.
End PluginInstance.

(** ** Program state *)

(** Package-level variables of [op], driver.go lines 16-18. *)
Record Registry := {
  driverMap : gmap string DriverConstructor;
  driverInfoMap : gmap string Info.t;
  driverMutex : sync.RWMutex
}.

(** [Manager], manager lines 114-117: [plugins] is a Go map, that is a
    reference into the heap. *)
Record Manager := {
  plugins : loc;
  mu : sync.RWMutex
}.

(** The part of the Go heap the manager shares with its callers: maps of
    type [map[string]*PluginInstance], the instances they point to and the
    backing arrays of [[]string] slices.  [next] is the next free address. *)
Record Heap := {
  next : loc;
  maps : gmap loc (gmap string loc);
  instances : gmap loc PluginInstance.t;
  arrays : gmap loc (list string)
}.

Inductive ProcState := Running | Exited.

#[global] Instance ProcState_eq_dec : EqDecision ProcState.
Proof. solve_decision. Defined.

(** Plugin processes: [started] counts the client handles created so far. *)
Record OS := {
  procs : gmap pid ProcState;
  started : nat
}.

(** ** Errors and log records *)

(** The error values of the manager, one constructor for each [fmt.Errorf]
    of the sources; [cause] is the wrapped error ([%w]). *)
Inductive error :=
| ErrPluginFile (cause : string)        (* "plugin file not found: %w" *)
| ErrConnect (cause : string)           (* "failed to connect to plugin: %w" *)
| ErrInterface (cause : string)         (* "failed to get plugin interface: %w" *)
| ErrPluginInfo (cause : string)        (* "failed to get plugin info: %w" *)
| ErrPluginDrivers (cause : string)     (* "failed to get plugin drivers: %w" *)
| ErrNotFound (pluginName : string)     (* "plugin %s not found" *)
| ErrUnload (pluginName : string) (cause : error)  (* "failed to unload plugin %s: %w" *)
| ErrReload (pluginName : string) (cause : error)  (* "failed to reload plugin %s: %w" *)
| ErrReadDir (cause : string)           (* "failed to read plugin directory: %w" *)
| ErrNoDriver (name : string).          (* "no driver named: %s" *)

(** The result of a Go function that returns [(value, error)]. *)
Inductive result (A E : Type) :=
| Ok (a : A)
| Err (e : E).
Arguments Ok {A E} a.
Arguments Err {A E} e.

Inductive Level := DebugLevel | InfoLevel | WarnLevel | ErrorLevel.

#[global] Instance Level_eq_dec : EqDecision Level.
Proof. solve_decision. Defined.

Inductive LogArg :=
| Str (s : string)
| Num (n : nat)
| Strs (l : list string)
| Failure (e : error)
| Meta (i : PluginInfo.t).

(** One call of logrus: level, format string and arguments. *)
Record LogEntry := { level : Level; format : string; args : list LogArg }.

(** ** The world outside the host process *)

Inductive StatResult :=
| StatOk
| StatErr (notExist : bool) (msg : string).

Module DirEntry.
Record t := mk { Name : string; IsDir : bool }.
End DirEntry.

(** What one spawned plugin process does when the manager talks to it:
    [connect] is [client.Client()] (start, handshake, RPC connection),
    [dispense] is [rpcClient.Dispense], [info] and [drivers] are the remote
    calls [GetInfo] and [GetDrivers]. *)
Record PluginBehaviour := {
  connect : option string;
  dispense : option string;
  info : result PluginInfo.t string;
  drivers : result (list string) string
}.

(** The file system, and for each executable path and client handle the
    behaviour of the process that handle starts. *)
Record World := {
  os_Stat : string -> StatResult;
  os_ReadDir : string -> result (list DirEntry.t) string;
  exec : string -> pid -> PluginBehaviour
}.

(** The whole program state; [logs] has the newest record first. *)
Record State := {
  reg : Registry;
  mgr : Manager;
  heap : Heap;
  os : OS;
  logs : list LogEntry
}.

Definition with_reg (f : Registry -> Registry) (st : State) : State :=
  {| reg := f (reg st); mgr := mgr st; heap := heap st; os := os st; logs := logs st |}.
Definition with_mgr (f : Manager -> Manager) (st : State) : State :=
  {| reg := reg st; mgr := f (mgr st); heap := heap st; os := os st; logs := logs st |}.
Definition with_heap (f : Heap -> Heap) (st : State) : State :=
  {| reg := reg st; mgr := mgr st; heap := f (heap st); os := os st; logs := logs st |}.
Definition with_os (f : OS -> OS) (st : State) : State :=
  {| reg := reg st; mgr := mgr st; heap := heap st; os := f (os st); logs := logs st |}.
Definition with_logs (f : list LogEntry -> list LogEntry) (st : State) : State :=
  {| reg := reg st; mgr := mgr st; heap := heap st; os := os st; logs := f (logs st) |}.

(** ** Calls and their outcomes *)

Inductive Fault :=
| UnlockOfUnlocked        (* fatal error of package sync *)
| NilMapAssignment        (* "assignment to entry in nil map" *)
| NilDereference          (* nil pointer dereference *)
| IndexOutOfRange         (* "index out of range" *)
| NotAStruct.             (* reflect: NumField of non-struct type *)

Inductive outcome (A : Type) :=
| Returns (a : A) (st : State)   (* the call returned [a] *)
| Blocks (st : State)            (* the goroutine is parked on a mutex *)
| Panics (f : Fault) (st : State).
Arguments Returns {A} a st.
Arguments Blocks {A} st.
Arguments Panics {A} f st.

Definition go (A : Type) : Type := State -> outcome A.

Definition ret {A} (a : A) : go A := fun st => Returns a st.

Definition bind {A B} (m : go A) (k : A -> go B) : go B := fun st =>
  match m st with
  | Returns a st1 => k a st1
  | Blocks st1 => Blocks st1
  | Panics f st1 => Panics f st1
  end.

Notation "'let*' x := m 'in' k" := (bind m (fun x => k))
  (at level 10, x name, m at level 100, k at level 200).
Notation "m ;; k" := (bind m (fun _ => k))
  (at level 100, k at level 200, right associativity).

Definition panic {A} (f : Fault) : go A := fun st => Panics f st.

(** A fatal error of the runtime stops the process at once; a panic runs the
    deferred calls while it unwinds. *)
Definition fatal (f : Fault) : bool :=
  match f with UnlockOfUnlocked => true | _ => false end.

(** [defer d; body]: [d] runs when [body] returns or panics, not while it is
    parked. *)
Definition defer {A} (d : go unit) (body : go A) : go A := fun st =>
  match body st with
  | Returns a st1 =>
      match d st1 with
      | Returns _ st2 => Returns a st2
      | Blocks st2 => Blocks st2
      | Panics f st2 => Panics f st2
      end
  | Blocks st1 => Blocks st1
  | Panics f st1 =>
      if fatal f then Panics f st1
      else match d st1 with
           | Returns _ st2 => Panics f st2
           | Blocks st2 => Blocks st2
           | Panics f' st2 => Panics f' st2
           end
  end.

Definition modify (f : State -> State) : go unit := fun st => Returns tt (f st).

(** A loop [for _, x := range xs { body x }]. *)
Fixpoint for_range {A} (xs : list A) (body : A -> go unit) : go unit :=
  match xs with
  | [] => ret tt
  | x :: rest => body x ;; for_range rest body
  end.

(** One operation on a mutex held in the state. *)
Definition on_mutex (get : State -> sync.RWMutex)
    (set : sync.RWMutex -> State -> State)
    (op : sync.RWMutex -> sync.attempt) : go unit := fun st =>
  match op (get st) with
  | sync.Acquired m => Returns tt (set m st)
  | sync.Parked => Blocks st
  | sync.Queued m => Blocks (set m st)
  | sync.Fatal => Panics UnlockOfUnlocked st
  end.

Definition logf (lvl : Level) (fmt : string) (a : list LogArg) : go unit :=
  modify (with_logs (cons {| level := lvl; format := fmt; args := a |})).

(** ** Package [op]: the driver registry, driver.go *)

Definition set_driverMutex (m : sync.RWMutex) : State -> State :=
  with_reg (fun r =>
    {| driverMap := driverMap r; driverInfoMap := driverInfoMap r; driverMutex := m |}).

Definition driverMutex_Lock : go unit :=
  on_mutex (fun st => driverMutex (reg st)) set_driverMutex sync.Lock.
Definition driverMutex_Unlock : go unit :=
  on_mutex (fun st => driverMutex (reg st)) set_driverMutex sync.Unlock.
Definition driverMutex_RLock : go unit :=
  on_mutex (fun st => driverMutex (reg st)) set_driverMutex sync.RLock.
Definition driverMutex_RUnlock : go unit :=
  on_mutex (fun st => driverMutex (reg st)) set_driverMutex sync.RUnlock.

Definition set_driverMap (f : gmap string DriverConstructor -> gmap string DriverConstructor)
    : State -> State :=
  with_reg (fun r =>
    {| driverMap := f (driverMap r); driverInfoMap := driverInfoMap r;
       driverMutex := driverMutex r |}).

Definition set_driverInfoMap (f : gmap string Info.t -> gmap string Info.t)
    : State -> State :=
  with_reg (fun r =>
    {| driverMap := driverMap r; driverInfoMap := f (driverInfoMap r);
       driverMutex := driverMutex r |}).

(** The loop [for tAddition.Kind() == reflect.Pointer { tAddition = tAddition.Elem() }]. *)
Fixpoint indirect (t : reflect.Type_) : reflect.Type_ :=
  match t with
  | reflect.PointerTo elem => indirect elem
  | _ => t
  end.

Section Op.
Context (deps : Deps).

(** [registerDriverItems], driver.go lines 83-108. *)
Definition registerDriverItems (config : Config.t) (addition : Additional) : go unit :=
  defer driverMutex_Unlock (
    driverMutex_Lock ;;
    let tAddition := indirect (TypeOf addition) in
    let mainItems := getMainItems deps config in
    let* additionalItems :=
      if decide (reflect.Kind_of tAddition = reflect.Map)
      then ret []
      else match getAdditionalItems deps tAddition (Config.DefaultRoot config) with
           | Some items => ret items
           | None => panic NotAStruct
           end in
    modify (set_driverInfoMap
      <[Config.Name config := Info.mk mainItems additionalItems config]>)).

(** [RegisterDriver], driver.go lines 20-29. *)
Definition RegisterDriver (driver : DriverConstructor) : go unit :=
  driverMutex_Lock ;;
  defer driverMutex_Unlock (
    let tempDriver := driver tt in
    let tempConfig := Driver_Config tempDriver in
    registerDriverItems tempConfig (Driver_GetAddition tempDriver) ;;
    modify (set_driverMap <[Config.Name tempConfig := driver]>)).

End Op.

(** [UnregisterDriver], driver.go lines 32-38. *)
Definition UnregisterDriver (name : string) : go unit :=
  driverMutex_Lock ;;
  defer driverMutex_Unlock (
    modify (set_driverMap (delete name)) ;;
    modify (set_driverInfoMap (delete name))).

(** [IsDriverRegistered], driver.go lines 41-47. *)
Definition IsDriverRegistered (name : string) : go bool :=
  driverMutex_RLock ;;
  defer driverMutex_RUnlock (fun st =>
    Returns (bool_decide (is_Some (driverMap (reg st) !! name))) st).

(** [GetDriver], driver.go lines 49-58. *)
Definition GetDriver (name : string) : go (result DriverConstructor error) :=
  driverMutex_RLock ;;
  defer driverMutex_RUnlock (fun st =>
    match driverMap (reg st) !! name with
    | Some n => Returns (Ok n) st
    | None => Returns (Err (ErrNoDriver name)) st
    end).

(** [GetDriverInfoMap], driver.go lines 71-81: a copy of the map. *)
Definition GetDriverInfoMap : go (gmap string Info.t) :=
  driverMutex_RLock ;;
  defer driverMutex_RUnlock (fun st => Returns (driverInfoMap (reg st)) st).

(** [GetDriverNames], driver.go lines 60-69.  The names come in the order
    in which Go ranges over [driverInfoMap], which the language does not
    fix; the statements about the result do not depend on it. *)
Definition GetDriverNames : go (list string) :=
  driverMutex_RLock ;;
  defer driverMutex_RUnlock (fun st =>
    Returns (map_to_list (driverInfoMap (reg st))).*1 st).

(** ** The Go heap: maps, instances, slices *)

(** The entries of the map at [m]; a nil map reads as empty. *)
Definition map_entries (m : loc) (st : State) : gmap string loc :=
  default ∅ (maps (heap st) !! m).

(** The elements of the slice whose backing array is at [s]; nil reads as empty. *)
Definition slice_elems (s : loc) (st : State) : list string :=
  default [] (arrays (heap st) !! s).

Definition set_maps (f : gmap loc (gmap string loc) -> gmap loc (gmap string loc))
    : State -> State :=
  with_heap (fun h =>
    {| next := next h; maps := f (maps h); instances := instances h; arrays := arrays h |}).

Definition set_arrays (f : gmap loc (list string) -> gmap loc (list string))
    : State -> State :=
  with_heap (fun h =>
    {| next := next h; maps := maps h; instances := instances h; arrays := f (arrays h) |}).

(** [make(map[string]*PluginInstance)] *)
Definition make_map : go loc := fun st =>
  Returns (next (heap st))
    (with_heap (fun h =>
       {| next := S (next h); maps := <[next h := ∅]> (maps h);
          instances := instances h; arrays := arrays h |}) st).

(** A fresh slice holding [xs], as the RPC decoder allocates it. *)
Definition make_slice (xs : list string) : go loc := fun st =>
  Returns (next (heap st))
    (with_heap (fun h =>
       {| next := S (next h); maps := maps h; instances := instances h;
          arrays := <[next h := xs]> (arrays h) |}) st).

(** [&PluginInstance{...}] *)
Definition new_instance (i : PluginInstance.t) : go loc := fun st =>
  Returns (next (heap st))
    (with_heap (fun h =>
       {| next := S (next h); maps := maps h;
          instances := <[next h := i]> (instances h); arrays := arrays h |}) st).

(** [v, exists := m[k]] *)
Definition map_load (m : loc) (k : string) : go (option loc) := fun st =>
  Returns (map_entries m st !! k) st.

(** [m[k] = v] *)
Definition map_store (m : loc) (k : string) (v : loc) : go unit := fun st =>
  match maps (heap st) !! m with
  | Some entries => Returns tt (set_maps <[m := <[k := v]> entries]> st)
  | None => Panics NilMapAssignment st
  end.

(** [delete(m, k)] *)
Definition map_delete (m : loc) (k : string) : go unit := fun st =>
  match maps (heap st) !! m with
  | Some entries => Returns tt (set_maps <[m := delete k entries]> st)
  | None => Returns tt st
  end.

(** [*p] for a [*PluginInstance] *)
Definition deref (p : loc) : go PluginInstance.t := fun st =>
  match instances (heap st) !! p with
  | Some i => Returns i st
  | None => Panics NilDereference st
  end.

(** [s[i] = v] *)
Definition slice_store (s : loc) (i : nat) (v : string) : go unit := fun st =>
  if decide (i < length (slice_elems s st))
  then Returns tt (set_arrays <[s := <[i := v]> (slice_elems s st)]> st)
  else Panics IndexOutOfRange st.

(** ** Plugin processes (package go-plugin) *)

Definition set_procs (f : gmap pid ProcState -> gmap pid ProcState) : State -> State :=
  with_os (fun o => {| procs := f (procs o); started := started o |}).

(** [plugin.NewClient]: a new handle; no process runs yet. *)
Definition plugin_NewClient : go pid := fun st =>
  Returns (started (os st))
    (with_os (fun o => {| procs := procs o; started := S (started o) |}) st).

(** [client.Kill()]: ends the process of the handle if one was started. *)
Definition Kill (client : pid) : go unit :=
  modify (set_procs (alter (fun _ => Exited) client)).

(** ** The plugin manager *)

Definition set_mu (m : sync.RWMutex) : State -> State :=
  with_mgr (fun g => {| plugins := plugins g; mu := m |}).

Definition mu_Lock : go unit := on_mutex (fun st => mu (mgr st)) set_mu sync.Lock.
Definition mu_Unlock : go unit := on_mutex (fun st => mu (mgr st)) set_mu sync.Unlock.
Definition mu_RLock : go unit := on_mutex (fun st => mu (mgr st)) set_mu sync.RLock.
Definition mu_RUnlock : go unit := on_mutex (fun st => mu (mgr st)) set_mu sync.RUnlock.

(** [m.plugins], read when the call reaches it. *)
Definition m_plugins : go loc := fun st => Returns (plugins (mgr st)) st.

Section Plugin.
Context (deps : Deps) (world : World).

(** [client.Client()]: starts the process of the handle and connects. *)
Definition Client (pluginPath : string) (client : pid) : go (option string) := fun st =>
  Returns (connect (exec world pluginPath client))
    (set_procs <[client := Running]> st).

(** [registerPluginDriver], manager lines 261-276. *)
Definition registerPluginDriver (driverName pluginName : string)
    (pluginClient : pid) : go unit :=
  let* registered := IsDriverRegistered driverName in
  if (registered : bool)
  then logf WarnLevel "Driver %s already registered, skipping plugin %s"
         [Str driverName; Str pluginName]
  else
    let constructor : DriverConstructor :=
      fun _ => Remote (NewPluginDriverAdapter pluginClient driverName) in
    RegisterDriver deps constructor ;;
    logf InfoLevel "Registered plugin driver: %s from plugin: %s"
      [Str driverName; Str pluginName].

(** [LoadPlugin], manager lines 171-258. *)
Definition LoadPlugin (pluginPath : string) : go (option error) :=
  mu_Lock ;;
  defer mu_Unlock (
    match os_Stat world pluginPath with
    | StatErr _ msg => ret (Some (ErrPluginFile msg))
    | StatOk =>
    let* client := plugin_NewClient in
    logf DebugLevel "Connecting to plugin RPC client..." [] ;;
    let* rpcClient := Client pluginPath client in
    match rpcClient with
    | Some msg => Kill client ;; ret (Some (ErrConnect msg))
    | None =>
    logf DebugLevel "RPC client connected successfully" [] ;;
    logf DebugLevel "Dispensing plugin interface..." [] ;;
    match dispense (exec world pluginPath client) with
    | Some msg => Kill client ;; ret (Some (ErrInterface msg))
    | None =>
    logf DebugLevel "Plugin interface dispensed successfully" [] ;;
    let driverPlugin := client in
    logf DebugLevel "Getting plugin info..." [] ;;
    match info (exec world pluginPath driverPlugin) with
    | Err msg => Kill client ;; ret (Some (ErrPluginInfo msg))
    | Ok info =>
    logf DebugLevel "Plugin info received: %+v" [Meta info] ;;
    let* table := m_plugins in
    let* existing := map_load table (PluginInfo.Name info) in
    match existing with
    | Some _ =>
        Kill client ;;
        logf DebugLevel "Plugin %s already loaded, skipping" [Str (PluginInfo.Name info)] ;;
        ret None
    | None =>
    logf DebugLevel "Getting drivers from plugin %s..." [Str (PluginInfo.Name info)] ;;
    match drivers (exec world pluginPath driverPlugin) with
    | Err msg => Kill client ;; ret (Some (ErrPluginDrivers msg))
    | Ok names =>
    let* drivers := make_slice names in
    logf DebugLevel "Plugin %s provides %d drivers: %v"
      [Str (PluginInfo.Name info); Num (length names); Strs names] ;;
    for_range names (fun driverName =>
      logf DebugLevel "Registering driver %s from plugin %s"
        [Str driverName; Str (PluginInfo.Name info)] ;;
      registerPluginDriver driverName (PluginInfo.Name info) driverPlugin) ;;
    let* pluginInstance :=
      new_instance (PluginInstance.mk (PluginInfo.Name info) pluginPath client drivers ∅) in
    let* table := m_plugins in
    map_store table (PluginInfo.Name info) pluginInstance ;;
    logf InfoLevel "Loaded plugin %s with drivers: %v"
      [Str (PluginInfo.Name info); Strs names] ;;
    ret None
    end end end end end end).

(** [UnloadPlugin], manager lines 279-302. *)
Definition UnloadPlugin (pluginName : string) : go (option error) :=
  mu_Lock ;;
  defer mu_Unlock (
    let* table := m_plugins in
    let* found := map_load table pluginName in
    match found with
    | None => ret (Some (ErrNotFound pluginName))
    | Some p =>
        let* instance := deref p in
        let* names := (fun st => Returns (slice_elems (PluginInstance.Drivers instance) st) st) in
        for_range names (fun driverName =>
          UnregisterDriver driverName ;;
          logf InfoLevel "Unregistered driver: %s from plugin: %s"
            [Str driverName; Str pluginName]) ;;
        Kill (PluginInstance.Client instance) ;;
        let* table := m_plugins in
        map_delete table pluginName ;;
        logf InfoLevel "Unloaded plugin: %s" [Str pluginName] ;;
        ret None
    end).

(** [ReloadPlugin], manager lines 305-324.  The lookup is made without the
    manager's lock. *)
Definition ReloadPlugin (pluginName : string) : go (option error) :=
  let* table := m_plugins in
  let* found := map_load table pluginName in
  match found with
  | None => ret (Some (ErrNotFound pluginName))
  | Some p =>
      let* instance := deref p in
      let pluginPath := PluginInstance.Path instance in
      let* err := UnloadPlugin pluginName in
      match err with
      | Some e => ret (Some (ErrUnload pluginName e))
      | None =>
          let* err := LoadPlugin pluginPath in
          match err with
          | Some e => ret (Some (ErrReload pluginName e))
          | None => ret None
          end
      end
  end.

(** [GetLoadedPlugins], manager lines 352-362.  Go ranges over a map in
    no fixed order; the copy it builds does not depend on the order. *)
Definition GetLoadedPlugins : go loc :=
  mu_RLock ;;
  defer mu_RUnlock (
    let* result := make_map in
    let* table := m_plugins in
    let* entries := (fun st => Returns (map_to_list (map_entries table st)) st) in
    for_range entries (fun kv => map_store result kv.1 kv.2) ;;
    ret result).

(** [GetPluginDrivers], manager lines 365-375. *)
Definition GetPluginDrivers (pluginName : string) : go (result loc error) :=
  mu_RLock ;;
  defer mu_RUnlock (
    let* table := m_plugins in
    let* found := map_load table pluginName in
    match found with
    | None => ret (Err (ErrNotFound pluginName))
    | Some p =>
        let* instance := deref p in
        ret (Ok (PluginInstance.Drivers instance))
    end).

(** The body of the loop of [LoadPluginsFromDir], manager lines 153-165. *)
Definition scan_entry (dir : string) (entry : DirEntry.t) : go unit :=
  if DirEntry.IsDir entry then ret tt
  else
    let name := DirEntry.Name entry in
    if decide (filepath_Ext deps name = ".exe" \/ filepath_Ext deps name = "")
    then
      let pluginPath := filepath_Join deps dir name in
      let* err := LoadPlugin pluginPath in
      match err with
      | Some e => logf ErrorLevel "Failed to load plugin %s: %v" [Str pluginPath; Failure e]
      | None => ret tt
      end
    else ret tt.

(** [LoadPluginsFromDir], manager lines 142-168. *)
Definition LoadPluginsFromDir (dir : string) : go (option error) :=
  match os_Stat world dir with
  | StatErr true _ =>
      logf DebugLevel "Plugin directory %s does not exist, skipping" [Str dir] ;;
      ret None
  | _ =>
      match os_ReadDir world dir with
      | Err msg => ret (Some (ErrReadDir msg))
      | Ok entries =>
          for_range entries (scan_entry dir) ;;
          ret None
      end
  end.

(** [RescanPlugins], manager lines 378-393. *)
Definition RescanPlugins : go (option error) :=
  let pluginDirs :=
    [ "plugins"; "./data/plugins"; "/usr/local/share/openlist/plugins";
      "/opt/openlist/plugins" ] in
  for_range pluginDirs (fun dir =>
    let* err := LoadPluginsFromDir dir in
    match err with
    | Some e => logf DebugLevel "Failed to rescan plugins from %s: %v" [Str dir; Failure e]
    | None => ret tt
    end) ;;
  ret None.

(** [Shutdown], manager lines 396-406. *)
Definition Shutdown : go unit :=
  mu_Lock ;;
  defer mu_Unlock (
    let* table := m_plugins in
    let* entries := (fun st => Returns (map_to_list (map_entries table st)) st) in
    for_range entries (fun kv =>
      logf InfoLevel "Shutting down plugin: %s" [Str kv.1] ;;
      let* instance := deref kv.2 in
      Kill (PluginInstance.Client instance)) ;;
    let* fresh := make_map in
    modify (with_mgr (fun g => {| plugins := fresh; mu := mu g |}))).

(** [loadPlugins] of package [cmd], lines 436-452 of the same file: the
    start-up scan.  [plugin.GetManager()] is the manager of the state. *)
Definition loadPlugins : go unit :=
  let pluginDirs :=
    [ "plugins"; "./data/plugins"; "/usr/local/share/openlist/plugins";
      "/opt/openlist/plugins" ] in
  for_range pluginDirs (fun dir =>
    let* err := LoadPluginsFromDir dir in
    match err with
    | Some e => logf DebugLevel "Failed to load plugins from %s: %v" [Str dir; Failure e]
    | None => ret tt
    end).

End Plugin.

(** ** Envelopes

    [structToMap], adapter.go lines 129-138, is [json.Marshal] followed by
    [json.Unmarshal] into a [map[string]interface{}].  Both functions belong
    to Go's standard library; they are parameters here, with the types of
    host values, of encoded bytes and of envelopes. *)
Section Envelopes.
Context {Value Bytes Envelope : Type}.
Context (json_Marshal : Value -> result Bytes string).
Context (json_Unmarshal : Bytes -> Envelope * option string).
Context (nil_map : Envelope).

Definition structToMap (v : Value) : Envelope * option string :=
  match json_Marshal v with
  | Err e => (nil_map, Some e)
  | Ok data => json_Unmarshal data
  end.

End Envelopes.

(** ** Remote calls: the RPC stub and the remote methods of the adapter

    [DriverPluginRPC], lines 41-98 of the first part of src/unnamed/part_000,
    and the methods of [PluginDriverAdapter] that talk to the plugin,
    adapter.go lines 49-56 and 66-126. *)

(** The argument of one [rpc.Client.Call]: [new(interface{})], a string, or
    a map literal whose values are strings and envelopes. *)
Inductive Field (E : Type) :=
| FString (s : string)
| FMap (e : E).
Arguments FString {E} s.
Arguments FMap {E} e.

Inductive Arg (E : Type) :=
| ArgEmpty
| ArgString (s : string)
| ArgMap (m : gmap string (Field E)).
Arguments ArgEmpty {E}.
Arguments ArgString {E} s.
Arguments ArgMap {E} m.

(** One call on the wire: the process called, the service method and the
    argument. *)
Record Call (E : Type) := {
  callee : pid;
  serviceMethod : string;
  arg : Arg E
}.
Arguments callee {E} c.
Arguments serviceMethod {E} c.
Arguments arg {E} c.

(** What the sources take from outside for these methods: the types of
    host values ([interface{}], [model.Storage], [model.Obj], ...), of
    encoded bytes, of envelopes ([map[string]interface{}]), of
    [[]model.Obj] and of [model.Link]; [encoding/json] at the three types
    it is used at; and the plugin at the other end of the connection, which
    answers a call, knowing the calls made before, with an error or with
    bytes. *)
Class Connection := {
  Value : Type;
  Bytes : Type;
  Envelope : Type;
  model_Objs : Type;
  model_Link : Type;
  json_Marshal : Value -> result Bytes string;
  json_Unmarshal : Bytes -> Envelope * option string;
  nil_map : Envelope;
  json_Unmarshal_objs : Bytes -> model_Objs * option string;
  nil_objs : model_Objs;
  json_Unmarshal_link : Bytes -> model_Link * option string;
  reply : list (Call Envelope) -> Call Envelope -> Bytes * option string
}.

(** The errors of the adapter: [fmt.Errorf("failed to convert %s to map: %w")],
    and the errors of the RPC call and of [json.Unmarshal], which it returns
    as they are. *)
Inductive AdapterError :=
| ErrConvert (what : string) (cause : string)
| ErrUnwrapped (msg : string).

Section RemoteMethods.
Context `{R : Connection}.

(** The state these methods work on: the calls made so far, newest first,
    and the [model.Storage] values the adapters point to. *)
Record Host := {
  wire : list (Call Envelope);
  storages : gmap loc Value;
  next_storage : loc
}.

(** A method that may panic. *)
Inductive ran (A : Type) :=
| Done (a : A) (h : Host)
| Crashed (f : Fault) (h : Host).
Arguments Done {A} a h.
Arguments Crashed {A} f h.

(** [g.client.Call(serviceMethod, args, &reply)] *)
Definition client_Call (c : pid) (method : string) (a : Arg Envelope) (h : Host)
    : (Bytes * option string) * Host :=
  let call := {| callee := c; serviceMethod := method; arg := a |} in
  (reply (wire h) call,
   {| wire := call :: wire h; storages := storages h; next_storage := next_storage h |}).

(** [DriverPluginRPC.InitDriver], lines 64-70. *)
Definition DriverPluginRPC_InitDriver (g : pid) (driverName : string)
    (storageData : Envelope) (h : Host) : option string * Host :=
  let args : gmap string (Field Envelope) :=
    <["driver_name" := FString driverName]> (<["storage_data" := FMap storageData]> ∅) in
  let '(r, h') := client_Call g "Plugin.InitDriver" (ArgMap args) h in
  (r.2, h').

(** [DriverPluginRPC.DropDriver], lines 72-74. *)
Definition DriverPluginRPC_DropDriver (g : pid) (driverName : string) (h : Host)
    : option string * Host :=
  let '(r, h') := client_Call g "Plugin.DropDriver" (ArgString driverName) h in
  (r.2, h').

(** [DriverPluginRPC.List], lines 76-86. *)
Definition DriverPluginRPC_List (g : pid) (driverName : string)
    (dirData argsData : Envelope) (h : Host) : (Bytes * option string) * Host :=
  let callArgs : gmap string (Field Envelope) :=
    <["driver_name" := FString driverName]>
      (<["dir_data" := FMap dirData]> (<["args_data" := FMap argsData]> ∅)) in
  client_Call g "Plugin.List" (ArgMap callArgs) h.

(** [DriverPluginRPC.Link], lines 88-98. *)
Definition DriverPluginRPC_Link (g : pid) (driverName : string)
    (fileData argsData : Envelope) (h : Host) : (Bytes * option string) * Host :=
  let callArgs : gmap string (Field Envelope) :=
    <["driver_name" := FString driverName]>
      (<["file_data" := FMap fileData]> (<["args_data" := FMap argsData]> ∅)) in
  client_Call g "Plugin.Link" (ArgMap callArgs) h.

(** [PluginDriverAdapter.GetStorage], adapter.go lines 49-51. *)
Definition GetStorage (a : PluginDriverAdapter.t) : option loc :=
  PluginDriverAdapter.storage a.

(** [PluginDriverAdapter.SetStorage], adapter.go lines 54-56: the parameter
    is a copy of the caller's value, and the adapter keeps its address.
    The receiver is a pointer; the updated adapter is returned. *)
Definition SetStorage (a : PluginDriverAdapter.t) (storage : Value) (h : Host)
    : PluginDriverAdapter.t * Host :=
  (PluginDriverAdapter.mk (PluginDriverAdapter.pluginClient a)
     (PluginDriverAdapter.driverName a) (Some (next_storage h)),
   {| wire := wire h;
      storages := <[next_storage h := storage]> (storages h);
      next_storage := S (next_storage h) |}).

(** [PluginDriverAdapter.Init], adapter.go lines 66-73. *)
Definition Init (a : PluginDriverAdapter.t) (h : Host) : ran (option AdapterError) :=
  match PluginDriverAdapter.storage a with
  | None => Crashed NilDereference h
  | Some p =>
      match storages h !! p with
      | None => Crashed NilDereference h
      | Some storage =>
          match structToMap json_Marshal json_Unmarshal nil_map storage with
          | (_, Some err) => Done (Some (ErrConvert "storage" err)) h
          | (storageData, None) =>
              let '(err, h') :=
                DriverPluginRPC_InitDriver (PluginDriverAdapter.pluginClient a)
                  (PluginDriverAdapter.driverName a) storageData h in
              Done (ErrUnwrapped <$> err) h'
          end
      end
  end.

(** [PluginDriverAdapter.Drop], adapter.go lines 76-78. *)
Definition Drop (a : PluginDriverAdapter.t) (h : Host) : option AdapterError * Host :=
  let '(err, h') :=
    DriverPluginRPC_DropDriver (PluginDriverAdapter.pluginClient a)
      (PluginDriverAdapter.driverName a) h in
  (ErrUnwrapped <$> err, h').

(** [PluginDriverAdapter.List], adapter.go lines 81-102. *)
Definition List (a : PluginDriverAdapter.t) (dir args : Value) (h : Host)
    : (model_Objs * option AdapterError) * Host :=
  match structToMap json_Marshal json_Unmarshal nil_map dir with
  | (_, Some err) => ((nil_objs, Some (ErrConvert "dir" err)), h)
  | (dirData, None) =>
      match structToMap json_Marshal json_Unmarshal nil_map args with
      | (_, Some err) => ((nil_objs, Some (ErrConvert "args" err)), h)
      | (argsData, None) =>
          let '((respData, err), h') :=
            DriverPluginRPC_List (PluginDriverAdapter.pluginClient a)
              (PluginDriverAdapter.driverName a) dirData argsData h in
          match err with
          | Some e => ((nil_objs, Some (ErrUnwrapped e)), h')
          | None =>
              let '(result, err) := json_Unmarshal_objs respData in
              ((result, ErrUnwrapped <$> err), h')
          end
      end
  end.

(** [PluginDriverAdapter.Link], adapter.go lines 105-126.  The result is a
    pointer: nil on the early returns, the address of [result] at the end. *)
Definition Link (a : PluginDriverAdapter.t) (file args : Value) (h : Host)
    : (option model_Link * option AdapterError) * Host :=
  match structToMap json_Marshal json_Unmarshal nil_map file with
  | (_, Some err) => ((None, Some (ErrConvert "file" err)), h)
  | (fileData, None) =>
      match structToMap json_Marshal json_Unmarshal nil_map args with
      | (_, Some err) => ((None, Some (ErrConvert "args" err)), h)
      | (argsData, None) =>
          let '((respData, err), h') :=
            DriverPluginRPC_Link (PluginDriverAdapter.pluginClient a)
              (PluginDriverAdapter.driverName a) fileData argsData h in
          match err with
          | Some e => ((None, Some (ErrUnwrapped e)), h')
          | None =>
              let '(result, err) := json_Unmarshal_link respData in
              ((Some result, ErrUnwrapped <$> err), h')
          end
      end
  end.

(** The call an adapter makes for its driver: to its own process, with its
    own driver name in the argument. *)
Definition own_call (a : PluginDriverAdapter.t) (method : string)
    (c : Call Envelope) : Prop :=
  callee c = PluginDriverAdapter.pluginClient a
  /\ serviceMethod c = method
  /\ (arg c = ArgString (PluginDriverAdapter.driverName a)
      \/ exists m, arg c = ArgMap m
                   /\ m !! "driver_name"
                      = Some (FString (PluginDriverAdapter.driverName a))).

End RemoteMethods.

Arguments Done {R A} a h.
Arguments Crashed {R A} f h.

(** ** Derived notions of the manager *)

(** The plugin table: the entries of the map [m.plugins]. *)
Definition table (st : State) : gmap string loc :=
  map_entries (plugins (mgr st)) st.


(** The loop of [UnloadPlugin] over the recorded driver names. *)
Definition unregister_all (pluginName : string) (names : list string) : go unit :=
  for_range names (fun driverName =>
    UnregisterDriver driverName ;;
    logf InfoLevel "Unregistered driver: %s from plugin: %s"
      [Str driverName; Str pluginName]).

(** The loop of [LoadPlugin] over the reported driver names. *)
Definition register_all (deps : Deps) (pluginName : string) (driverPlugin : pid)
    (names : list string) : go unit :=
  for_range names (fun driverName =>
    logf DebugLevel "Registering driver %s from plugin %s"
      [Str driverName; Str pluginName] ;;
    registerPluginDriver deps driverName pluginName driverPlugin).

(** The loop of [Shutdown] over the entries of the table. *)
Definition shutdown_all (entries : list (string * loc)) : go unit :=
  for_range entries (fun kv =>
    logf InfoLevel "Shutting down plugin: %s" [Str kv.1] ;;
    let* instance := deref kv.2 in
    Kill (PluginInstance.Client instance)).

(** Reference for the refinement, after the specification: "unload followed
    by load of the same path; fails if either step fails". *)
Definition unload_then_load (deps : Deps) (world : World)
    (pluginName pluginPath : string) : go (option error) :=
  let* err := UnloadPlugin pluginName in
  match err with
  | Some e => ret (Some e)
  | None => LoadPlugin deps world pluginPath
  end.

(** What a caller can do to a map it was handed. *)
Inductive MapWrite :=
| Assign (k : string) (v : loc)    (* [m[k] = v] *)
| Remove (k : string).             (* [delete(m, k)] *)

Definition write_map (m : loc) (w : MapWrite) : go unit :=
  match w with
  | Assign k v => map_store m k v
  | Remove k => map_delete m k
  end.

(** ** Vocabulary of the statements *)

(** The state a call ends in, whatever its outcome. *)
Definition final {A} (o : outcome A) : State :=
  match o with
  | Returns _ st => st
  | Blocks st => st
  | Panics _ st => st
  end.

(** A call keeps a component of the state when it ends with the component
    as it found it, whether it returns, parks or panics. *)
Definition keeps {A X} (f : State -> X) (m : go A) : Prop :=
  forall st, f (final (m st)) = f st.

(** The ways a load fails after its process was started: the handshake or
    the RPC connection ([client.Client()]), the dispensed interface, the
    plugin info, or the driver list of a plugin that is not loaded yet. *)
Definition load_fails (b : PluginBehaviour) (loaded : gmap string loc) : Prop :=
  is_Some (connect b)
  \/ is_Some (dispense b)
  \/ (exists msg, info b = Err msg)
  \/ (exists i msg, info b = Ok i /\ loaded !! PluginInfo.Name i = None
                    /\ drivers b = Err msg).

(** The record [LoadPluginsFromDir] writes when a candidate fails to load. *)
Definition load_failed (pluginPath : string) (e : error) : LogEntry :=
  {| level := ErrorLevel; format := "Failed to load plugin %s: %v";
     args := [Str pluginPath; Failure e] |}.

(** The record it writes for a directory that does not exist. *)
Definition directory_skipped (dir : string) : LogEntry :=
  {| level := DebugLevel; format := "Plugin directory %s does not exist, skipping";
     args := [Str dir] |}.

(** What a caller observes of a call: whether it returned, parked or
    panicked, whether it returned an error, and the state it left. *)
Definition same_observation (o1 o2 : outcome (option error)) : Prop :=
  match o1, o2 with
  | Returns r1 s1, Returns r2 s2 => (r1 = None <-> r2 = None) /\ s1 = s2
  | Blocks s1, Blocks s2 => s1 = s2
  | Panics f1 s1, Panics f2 s2 => f1 = f2 /\ s1 = s2
  | _, _ => False
  end.

(** The entries of [l] assigned one after the other to the map [acc]. *)
Definition insert_all (acc : gmap string loc) (l : list (string * loc))
    : gmap string loc :=
  foldl (fun a kv => <[kv.1 := kv.2]> a) acc l.

(** Every entry of the table points to an allocated instance that carries
    the entry's key as its identity name. *)
Definition keyed_by_identity (st : State) : Prop :=
  forall (k : string) (l : loc), table st !! k = Some l ->
    l < next (heap st)
    /\ exists inst, instances (heap st) !! l = Some inst
                    /\ PluginInstance.Name inst = k.

(** A property of the state that a call preserves whatever its outcome:
    also when it parks or panics half way. *)
Definition preserves {A} (P : State -> Prop) (m : go A) : Prop :=
  forall st, P st -> P (final (m st)).

(** The two maps of the registry hold the same names. *)
Definition same_names (st : State) : Prop :=
  forall n, is_Some (driverMap (reg st) !! n) <-> is_Some (driverInfoMap (reg st) !! n).

(** The two mutexes of the program: the manager's and the registry's. *)
Definition locks (st : State) : sync.RWMutex * sync.RWMutex :=
  (mu (mgr st), driverMutex (reg st)).

(** A call is balanced when it never unlocks a mutex that is not locked
    (the fatal error of package sync) and, if it returns or panics, leaves
    both mutexes as it found them.  A parked call holds what it holds. *)
Definition balanced {A} (m : go A) : Prop :=
  forall st,
    match m st with
    | Returns _ st' => locks st' = locks st
    | Panics f st' => fatal f = false /\ locks st' = locks st
    | Blocks _ => True
    end.

(** The type descriptors package [reflect] hands out: the types of kind
    struct and pointer are the ones built by [StructOf] and [PointerTo]. *)
Fixpoint well_formed (t : reflect.Type_) : bool :=
  match t with
  | reflect.StructOf _ fields => forallb (fun f => well_formed f.1.2) fields
  | reflect.PointerTo elem => well_formed elem
  | reflect.Plain k _ =>
      negb (bool_decide (k = reflect.Struct)) && negb (bool_decide (k = reflect.Pointer))
  end.

(** Induction on type descriptors that reaches the types of the fields. *)
Section Type_induction.
Context (P : reflect.Type_ -> Prop).
Hypothesis Hstruct : forall name fields,
  Forall (fun f => P f.1.2) fields -> P (reflect.StructOf name fields).
Hypothesis Hpointer : forall elem, P elem -> P (reflect.PointerTo elem).
Hypothesis Hplain : forall k name, P (reflect.Plain k name).

Fixpoint Type_nested_ind (t : reflect.Type_) : P t :=
  match t with
  | reflect.StructOf name fields =>
      Hstruct name fields
        ((fix loop (fs : list (string * reflect.Type_ * reflect.StructTag))
            : Forall (fun f => P f.1.2) fs :=
            match fs return Forall (fun f => P f.1.2) fs with
            | [] => @List.Forall_nil _ (fun f => P f.1.2)
            | f :: rest =>
                @List.Forall_cons _ (fun f => P f.1.2) f rest
                  (Type_nested_ind f.1.2) (loop rest)
            end) fields)
  | reflect.PointerTo elem => Hpointer elem (Type_nested_ind elem)
  | reflect.Plain k name => Hplain k name
  end.

End Type_induction.

(** The two item names [getAdditionalItems] treats specially. *)
Definition root_folder (name : string) : Prop :=
  name = "root_folder_id" \/ name = "root_folder_path".

(** What holds of every item [getAdditionalItems] builds: the type is never
    empty, and a root folder item is required exactly when it has a default,
    which it has whenever the driver has a default root. *)
Definition item_ok (defaultRoot : string) (it : Item.t) : Prop :=
  Item.Type_ it <> ""
  /\ (root_folder (Item.Name it) ->
      (Item.Required it = true <-> Item.Default it <> "")
      /\ (defaultRoot <> "" -> Item.Default it <> "")).

(** The names of a list of items, in order. *)
Definition item_names (items : list Item.t) : list string :=
  Item.Name <$> items.

(** A manager in working order: its table is an allocated map, as
    [GetManager] makes it, and the entries of the table are keyed by
    identity. *)
Definition manager_ok (st : State) : Prop :=
  is_Some (maps (heap st) !! plugins (mgr st))
  /\ plugins (mgr st) < next (heap st)
  /\ keyed_by_identity st.

(** A call is sound when, started with the manager in working order, it
    does not panic and, if it returns, leaves the manager in working order. *)
Definition sound {A} (m : go A) : Prop :=
  forall st, manager_ok st ->
    match m st with
    | Returns _ st' => manager_ok st'
    | Blocks _ => True
    | Panics _ _ => False
    end.

(** Nothing lives at or beyond the allocation counters: every address in
    use is below [next], every process handle in use below [started]. *)
Definition allocation_ok (st : State) : Prop :=
  (forall l, is_Some (maps (heap st) !! l) \/ is_Some (instances (heap st) !! l)
             \/ is_Some (arrays (heap st) !! l) -> l < next (heap st))
  /\ (forall q, is_Some (procs (os st) !! q) -> q < started (os st)).

(** [st'] extends [st]: the instances and the driver lists of [st] are in
    [st'] as they were, the processes of [st] are still known in [st'], and
    those that had exited have not come back. *)
Definition extends (st st' : State) : Prop :=
  next (heap st) <= next (heap st')
  /\ started (os st) <= started (os st')
  /\ (forall l inst, instances (heap st) !! l = Some inst ->
        instances (heap st') !! l = Some inst)
  /\ (forall l xs, arrays (heap st) !! l = Some xs -> arrays (heap st') !! l = Some xs)
  /\ (forall q, is_Some (procs (os st) !! q) -> is_Some (procs (os st') !! q))
  /\ (forall q, procs (os st) !! q = Some Exited -> procs (os st') !! q = Some Exited).

(** A call that only adds to the heap and to the processes: when it returns
    from a state in working order, the state it leaves extends the one it
    started in. *)
Definition append_only {A} (m : go A) : Prop :=
  forall st a st',
    manager_ok st -> allocation_ok st -> m st = Returns a st' ->
    manager_ok st' /\ allocation_ok st' /\ extends st st'.

(** A call that does not panic, whatever state it starts in. *)
Definition never_panics {A} (m : go A) : Prop :=
  forall st f st', m st <> Panics f st'.

(** The entries of a directory that [LoadPluginsFromDir] tries to load:
    files whose extension is ".exe" or empty. *)
Definition candidate (deps : Deps) (entry : DirEntry.t) : Prop :=
  DirEntry.IsDir entry = false
  /\ (filepath_Ext deps (DirEntry.Name entry) = ".exe"
      \/ filepath_Ext deps (DirEntry.Name entry) = "").

#[global] Instance candidate_dec (deps : Deps) (entry : DirEntry.t) :
  Decision (candidate deps entry).
Proof. unfold candidate. apply _. Defined.

(** Two states that differ at most in what was logged. *)
Definition same_but_logs (s1 s2 : State) : Prop :=
  reg s1 = reg s2 /\ mgr s1 = mgr s2 /\ heap s1 = heap s2 /\ os s1 = os s2.

(** Two outcomes of the same kind, with the same result, in states that
    differ at most in what was logged. *)
Definition agree {A} (o1 o2 : outcome A) : Prop :=
  match o1, o2 with
  | Returns a1 s1, Returns a2 s2 => a1 = a2 /\ same_but_logs s1 s2
  | Blocks s1, Blocks s2 => same_but_logs s1 s2
  | Panics f1 s1, Panics f2 s2 => f1 = f2 /\ same_but_logs s1 s2
  | _, _ => False
  end.

(** Two calls that do the same thing except for what they log, and that
    do not look at the log. *)
Definition log_equivalent {A} (m1 m2 : go A) : Prop :=
  forall s1 s2, same_but_logs s1 s2 -> agree (m1 s1) (m2 s2).

(** ** A concrete world, for running the code *)

(** The character ['.'] (code 46). *)
Definition dot : Ascii.ascii := Ascii.Ascii false true true true false true false false.

(** [filepath.Ext] on a name without separators: the suffix from the last
    dot on, if there is a dot. *)
Fixpoint from_last_dot (s : string) : option string :=
  match s with
  | EmptyString => None
  | String c rest =>
      match from_last_dot rest with
      | Some e => Some e
      | None => if decide (c = dot) then Some s else None
      end
  end.

(** [strings.ToLower] on ASCII text: the letters A to Z are mapped to a to
    z, every other character is kept. *)
Definition lower (c : Ascii.ascii) : Ascii.ascii :=
  let n := Ascii.nat_of_ascii c in
  if decide (65 <= n <= 90) then Ascii.ascii_of_nat (n + 32) else c.

Fixpoint to_lower (s : string) : string :=
  match s with
  | EmptyString => EmptyString
  | String c rest => String (lower c) (to_lower rest)
  end.

(** Values for the imported names: the constants as package [conf] spells
    them, [MustProxy] as package [driver] defines it, and the library
    functions on the arguments used below: ASCII text for [strings.ToLower],
    a file name without separators for [filepath.Ext], and for
    [filepath.Join] a directory that is a clean relative path (["plugins"])
    with a name that is not empty and has no separator and no dot segment,
    where the result is the two joined by one separator. *)
Definition demo_deps : Deps :=
  {| conf_TypeString := "string";
     conf_TypeSelect := "select";
     conf_TypeBool := "bool";
     conf_TypeText := "text";
     conf_TypeNumber := "number";
     MustProxy := fun c => Config.OnlyProxy c || Config.OnlyLinkMFile c;
     strings_ToLower := to_lower;
     filepath_Ext := fun s => default "" (from_last_dot s);
     filepath_Join := fun dir name => dir +:+ "/" +:+ name |}.

(** The state [GetManager] starts from: an empty registry, a manager whose
    [plugins] map was made and is empty, no process. *)
Definition initial : State :=
  {| reg := {| driverMap := ∅; driverInfoMap := ∅; driverMutex := sync.unlocked |};
     mgr := {| plugins := 0; mu := sync.unlocked |};
     heap := {| next := 1; maps := {[ 0 := ∅ ]}; instances := ∅; arrays := ∅ |};
     os := {| procs := ∅; started := 0 |};
     logs := [] |}.

(** A built-in driver ["Local"]. *)
Definition local_config : Config.t :=
  Config.mk "Local" true false false true false false "/" true "" false false false.

Definition local_addition : reflect.Type_ :=
  reflect.StructOf "Addition"
    [ ("RootPath", reflect.StructOf "RootPath"
         [ ("RootFolderPath", reflect.Plain reflect.String "string",
            [ ("json", "root_folder_path") ]) ], []);
      ("Thumbnail", reflect.Plain reflect.Bool "bool",
         [ ("json", "thumbnail"); ("required", "true"); ("help", "enable thumbnail") ]);
      ("hidden", reflect.Plain reflect.String "string",
         [ ("json", "hidden"); ("ignore", "true") ]) ].

Definition local : DriverConstructor :=
  fun _ => Native local_config (ValueOf (reflect.PointerTo local_addition)).

(** The registry with ["Local"] in it, nothing else changed. *)
Definition with_local (st : State) : State :=
  set_driverMap <["Local" := local]>
    (set_driverInfoMap
       <["Local" := Info.mk (getMainItems demo_deps local_config)
                      [ Item.mk "root_folder_path" "string" "/" "" true "";
                        Item.mk "thumbnail" "bool" "" "" true "enable thumbnail" ]
                      local_config]> st).

(** A plugin executable that reports identity [name] and drivers [ds]. *)
Definition plugin_exe (name : string) (ds : list string) : PluginBehaviour :=
  {| connect := None; dispense := None;
     info := Ok (PluginInfo.mk name "1.0" "" "");
     drivers := Ok ds |}.

Definition broken_exe : PluginBehaviour :=
  {| connect := Some "handshake failed"; dispense := None;
     info := Err "closed"; drivers := Err "closed" |}.

(** A directory ["plugins"] with a plugin [demo] that provides ["Local"],
    a plugin [empty] that provides nothing, a plugin [fs] that provides
    ["DemoFS"], a plugin [flaky] that only works the first time it is
    started, a file that is no plugin and a subdirectory. *)
Definition demo_world : World :=
  {| os_Stat := fun path =>
       if decide (path ∈ ["plugins"; "plugins/demo"; "plugins/empty";
                           "plugins/fs"; "plugins/flaky"; "plugins/broken.exe"])
       then StatOk else StatErr true "no such file or directory";
     os_ReadDir := fun path =>
       if decide (path = "plugins")
       then Ok [ DirEntry.mk "broken.exe" false; DirEntry.mk "cache" true;
                 DirEntry.mk "notes.txt" false; DirEntry.mk "empty" false ]
       else Err "no such file or directory";
     exec := fun path handle =>
       if decide (path = "plugins/demo") then plugin_exe "demo" ["Local"]
       else if decide (path = "plugins/empty") then plugin_exe "empty" []
       else if decide (path = "plugins/fs") then plugin_exe "fs" ["DemoFS"]
       else if decide (path = "plugins/flaky" /\ handle = 0)
            then plugin_exe "flaky" []
       else broken_exe |}.


(** States of the concrete world that the statements below name. *)

(** The state after the plugin [demo], whose only driver ["Local"] is
    built in, was loaded next to the built-in driver (scenario B). *)
Definition demo_loaded : State :=
  final (LoadPlugin demo_deps demo_world "plugins/demo" (with_local initial)).

Definition demo_loaded_again : State :=
  final (LoadPlugin demo_deps demo_world "plugins/demo" demo_loaded).

(** The states after the plugin [empty], and after the plugin [flaky], was
    loaded into the starting state. *)
Definition empty_loaded : State :=
  final (LoadPlugin demo_deps demo_world "plugins/empty" initial).

Definition flaky_loaded : State :=
  final (LoadPlugin demo_deps demo_world "plugins/flaky" initial).

Definition empty_reloaded : State :=
  final (ReloadPlugin demo_deps demo_world "empty" empty_loaded).

Definition flaky_reloaded : State :=
  final (ReloadPlugin demo_deps demo_world "flaky" flaky_loaded).

(** The caller of [GetPluginDrivers "demo"] in [demo_loaded] writes to the
    slice it got. *)
Definition caller_overwrites : State :=
  final (slice_store 1 0 "DemoFS" demo_loaded).

(** A goroutine is inside a reader of the registry, and one inside a reader
    of the manager. *)
Definition local_being_read : State :=
  set_driverMutex {| sync.writer := false; sync.readers := 1 |} (with_local initial).

Definition demo_being_listed : State :=
  set_mu {| sync.writer := false; sync.readers := 1 |} demo_loaded.

(** * Properties *)

Ltac destruct_state st :=
  let dm := fresh "dm" in let dim := fresh "dim" in
  let dw := fresh "dw" in let dr := fresh "dr" in
  let pl := fresh "pl" in let mw := fresh "mw" in let mr := fresh "mr" in
  let h := fresh "h" in let o := fresh "o" in let lg := fresh "lg" in
  destruct st as [[dm dim [dw dr]] [pl [mw mr]] h o lg]; simpl in *.

Ltac unfold_go :=
  unfold bind, ret, defer, modify, logf, panic, on_mutex, m_plugins, map_load,
    map_store, map_delete, deref, make_map, make_slice, new_instance,
    plugin_NewClient, Kill, Client, map_entries, slice_elems in *.

Ltac unfold_mutex :=
  unfold driverMutex_Lock, driverMutex_Unlock, driverMutex_RLock,
    driverMutex_RUnlock, mu_Lock, mu_Unlock, mu_RLock, mu_RUnlock,
    sync.Lock, sync.Unlock, sync.RLock, sync.RUnlock, sync.unlocked in *.

(** ** The registry *)

(** With the mutex free, the call stops at the second [Lock] holding it. *)
Lemma RegisterDriver_holds_mutex (deps : Deps) (driver : DriverConstructor) (st : State) :
  driverMutex (reg st) = sync.unlocked ->
  RegisterDriver deps driver st
  = Blocks (set_driverMutex {| sync.writer := true; sync.readers := 0 |} st).
Proof.
  unfold RegisterDriver, registerDriverItems.
  unfold_mutex. unfold_go.
  destruct_state st. intros [= -> ->]. reflexivity.
Qed.

(** Once the mutex is write-held, every entry point of the package parks
    without touching the state.  Each of them takes the mutex before it does
    anything else and gives it back last, so a goroutine that is not the
    holder is either about to call (and parks) or has finished: nobody is
    left to unlock. *)
Lemma registry_stays_locked (deps : Deps) (st : State) :
  sync.writer (driverMutex (reg st)) = true ->
  (forall d, RegisterDriver deps d st = Blocks st)
  /\ (forall c a, registerDriverItems deps c a st = Blocks st)
  /\ (forall n, UnregisterDriver n st = Blocks st)
  /\ (forall n, IsDriverRegistered n st = Blocks st)
  /\ (forall n, GetDriver n st = Blocks st)
  /\ GetDriverInfoMap st = Blocks st.
Proof.
  unfold RegisterDriver, registerDriverItems, UnregisterDriver,
    IsDriverRegistered, GetDriver, GetDriverInfoMap.
  unfold_mutex. unfold_go.
  destruct_state st. intros ->. simpl. repeat split.
Qed.


(** The four readers park as soon as a writer holds the mutex or waits
    for it. *)
Lemma registry_readers_park (st : State) :
  sync.writer (driverMutex (reg st)) = true ->
  (forall n, IsDriverRegistered n st = Blocks st)
  /\ (forall n, GetDriver n st = Blocks st)
  /\ GetDriverNames st = Blocks st
  /\ GetDriverInfoMap st = Blocks st.
Proof.
  intros Hw.
  unfold IsDriverRegistered, GetDriver, GetDriverNames, GetDriverInfoMap.
  unfold_mutex. unfold bind, on_mutex.
  destruct_state st. subst dw. repeat split.
Qed.

(** A writer that calls [Lock] while readers are inside announces itself
    and parks; from then on no new reader gets in. *)
Lemma UnregisterDriver_queues (n : string) (st : State) (k : nat) :
  sync.writer (driverMutex (reg st)) = false ->
  sync.readers (driverMutex (reg st)) = S k ->
  UnregisterDriver n st
  = Blocks (set_driverMutex {| sync.writer := true; sync.readers := S k |} st).
Proof.
  intros Hw Hr. unfold UnregisterDriver. unfold_mutex. unfold bind, on_mutex.
  destruct_state st. subst dw dr. reflexivity.
Qed.

(** C1 fails on the code: [RegisterDriver] takes [driverMutex] and then calls
    [registerDriverItems], which takes it again; the mutex is not reentrant,
    so the call parks for every constructor and every state and neither map
    of the registry is written.  Called with the mutex free, it parks at the
    second [Lock] holding the mutex itself, and in the state it leaves every
    entry point of the package parks in turn. *)
Theorem RegisterDriver_parks (deps : Deps) (driver : DriverConstructor) (st : State) :
  (exists st', RegisterDriver deps driver st = Blocks st'
     /\ driverMap (reg st') = driverMap (reg st)
     /\ driverInfoMap (reg st') = driverInfoMap (reg st))
  /\ (driverMutex (reg st) = sync.unlocked ->
      exists st',
        st' = set_driverMutex {| sync.writer := true; sync.readers := 0 |} st
        /\ RegisterDriver deps driver st = Blocks st'
        /\ (forall d, RegisterDriver deps d st' = Blocks st')
        /\ (forall n, UnregisterDriver n st' = Blocks st')
        /\ (forall n, IsDriverRegistered n st' = Blocks st')
        /\ (forall n, GetDriver n st' = Blocks st')
        /\ GetDriverInfoMap st' = Blocks st').
Proof.
  split.
  - unfold RegisterDriver, registerDriverItems.
    unfold_mutex. unfold_go.
    destruct_state st.
    destruct dw, dr; simpl; eauto.
  - intros Hfree. eexists. split; [reflexivity |].
    split; [apply RegisterDriver_holds_mutex, Hfree |].
    destruct (registry_stays_locked deps
                (set_driverMutex {| sync.writer := true; sync.readers := 0 |} st))
      as (Hreg & _ & Hunreg & Hisreg & Hget & Hinfo); [reflexivity |].
    auto.
Qed.

Lemma RegisterDriver_parks_witness :
  (exists st', RegisterDriver demo_deps local initial = Blocks st'
     /\ driverMap (reg st') = driverMap (reg initial)
     /\ driverInfoMap (reg st') = driverInfoMap (reg initial))
  /\ (exists st',
        st' = set_driverMutex {| sync.writer := true; sync.readers := 0 |} initial
        /\ RegisterDriver demo_deps local initial = Blocks st'
        /\ (forall d, RegisterDriver demo_deps d st' = Blocks st')
        /\ (forall n, UnregisterDriver n st' = Blocks st')
        /\ (forall n, IsDriverRegistered n st' = Blocks st')
        /\ (forall n, GetDriver n st' = Blocks st')
        /\ GetDriverInfoMap st' = Blocks st').
Proof.
  destruct (RegisterDriver_parks demo_deps local initial) as (Hparks & Hfree).
  split; [exact Hparks | apply Hfree; reflexivity].
Defined.

(** Scenario A of the specification on the code: loading a plugin that
    reports a driver nobody registered parks in [RegisterDriver], with both
    mutexes held, the new process running and no entry in the table. *)
Example LoadPlugin_scenario_A_parks :
  exists st',
    LoadPlugin demo_deps demo_world "plugins/fs" initial = Blocks st'
    /\ sync.writer (mu (mgr st')) = true
    /\ sync.writer (driverMutex (reg st')) = true
    /\ procs (os st') !! 0 = Some Running
    /\ map_to_list (table st') = []
    /\ map_to_list (driverMap (reg st')) = [].
Proof. eexists. split; [vm_compute; reflexivity |]. vm_compute. auto. Qed.

Lemma RegisterDriver_never_returns (deps : Deps) (driver : DriverConstructor)
    (st st' : State) (a : unit) :
  RegisterDriver deps driver st <> Returns a st'.
Proof.
  unfold RegisterDriver, registerDriverItems.
  unfold_mutex. unfold_go.
  destruct_state st.
  destruct dw, dr; simpl; discriminate.
Qed.

Lemma IsDriverRegistered_returns (name : string) (st : State) :
  sync.writer (driverMutex (reg st)) = false ->
  IsDriverRegistered name st
  = Returns (bool_decide (is_Some (driverMap (reg st) !! name))) st.
Proof.
  unfold IsDriverRegistered. unfold_mutex. unfold_go.
  destruct_state st. intros ->. reflexivity.
Qed.

Lemma GetDriver_returns (name : string) (st : State) :
  sync.writer (driverMutex (reg st)) = false ->
  GetDriver name st
  = Returns (match driverMap (reg st) !! name with
             | Some n => Ok n
             | None => Err (ErrNoDriver name)
             end) st.
Proof.
  unfold GetDriver. unfold_mutex. unfold_go.
  destruct_state st. intros ->. simpl. destruct (dm !! name); reflexivity.
Qed.

Lemma UnregisterDriver_returns (name : string) (st : State) :
  driverMutex (reg st) = sync.unlocked ->
  UnregisterDriver name st
  = Returns tt (set_driverInfoMap (delete name) (set_driverMap (delete name) st)).
Proof.
  unfold UnregisterDriver. unfold_mutex. unfold_go.
  destruct_state st. intros [= -> ->]. reflexivity.
Qed.

(** ** The adapter *)

Lemma indirect_TypeOf_GetAddition (a : PluginDriverAdapter.t) :
  reflect.Kind_of (indirect (TypeOf (GetAddition a))) = reflect.Map.
Proof. reflexivity. Qed.

(** What [registerDriverItems] stores for an addition whose type, pointers
    followed, is a map. *)
Lemma registerDriverItems_map (deps : Deps) (config : Config.t)
    (addition : Additional) (st : State) :
  driverMutex (reg st) = sync.unlocked ->
  reflect.Kind_of (indirect (TypeOf addition)) = reflect.Map ->
  registerDriverItems deps config addition st
  = Returns tt
      (set_driverInfoMap
         <[Config.Name config := Info.mk (getMainItems deps config) [] config]> st).
Proof.
  unfold registerDriverItems. unfold_mutex. unfold_go.
  destruct_state st. intros [= -> ->] Hmap. simpl.
  destruct (decide _) as [_|Hne]; [reflexivity | contradiction].
Qed.

(** What it stores for a struct: the items read off the fields. *)
Lemma registerDriverItems_struct (deps : Deps) (config : Config.t)
    (addition : Additional) (items : list Item.t) (st : State) :
  driverMutex (reg st) = sync.unlocked ->
  reflect.Kind_of (indirect (TypeOf addition)) <> reflect.Map ->
  getAdditionalItems deps (indirect (TypeOf addition)) (Config.DefaultRoot config)
  = Some items ->
  registerDriverItems deps config addition st
  = Returns tt
      (set_driverInfoMap
         <[Config.Name config := Info.mk (getMainItems deps config) items config]> st).
Proof.
  unfold registerDriverItems. unfold_mutex. unfold_go.
  destruct_state st. intros [= -> ->] Hmap Hitems. simpl.
  destruct (decide _) as [?|_]; [contradiction |].
  rewrite Hitems. reflexivity.
Qed.

(** The built-in driver of the concrete world gets its items from its fields. *)
Example registerDriverItems_local :
  getAdditionalItems demo_deps local_addition "/"
  = Some [ Item.mk "root_folder_path" "string" "/" "" true "";
           Item.mk "thumbnail" "bool" "" "" true "enable thumbnail" ].
Proof. reflexivity. Qed.

(** ** Frames: what a call leaves alone, whatever its outcome *)

Lemma keeps_ret {A X} (f : State -> X) (a : A) : keeps f (ret a).
Proof. intros st. reflexivity. Qed.

Lemma keeps_bind {A B X} (f : State -> X) (m : go A) (k : A -> go B) :
  keeps f m -> (forall a, keeps f (k a)) -> keeps f (bind m k).
Proof.
  intros Hm Hk st. unfold bind. specialize (Hm st).
  destruct (m st) as [a st1|st1|flt st1]; simpl in *; [| exact Hm | exact Hm].
  rewrite Hk. exact Hm.
Qed.

Lemma keeps_defer {A X} (f : State -> X) (d : go unit) (body : go A) :
  keeps f d -> keeps f body -> keeps f (defer d body).
Proof.
  intros Hd Hb st. unfold defer. specialize (Hb st).
  destruct (body st) as [a st1|st1|flt st1]; simpl in *.
  - specialize (Hd st1). destruct (d st1); simpl in *; congruence.
  - exact Hb.
  - destruct (fatal flt); [exact Hb |].
    specialize (Hd st1). destruct (d st1); simpl in *; congruence.
Qed.

Lemma keeps_for_range {A X} (f : State -> X) (xs : list A) (body : A -> go unit) :
  (forall x, keeps f (body x)) -> keeps f (for_range xs body).
Proof.
  intros Hbody. induction xs as [|x xs IH]; simpl.
  - apply keeps_ret.
  - apply keeps_bind; [apply Hbody | intros _; exact IH].
Qed.

Lemma keeps_modify {X} (f : State -> X) (g : State -> State) :
  (forall st, f (g st) = f st) -> keeps f (modify g).
Proof. intros Hg st. apply Hg. Qed.

Lemma keeps_on_mutex {X} (f : State -> X) get set op :
  (forall m st, f (set m st) = f st) -> keeps f (on_mutex get set op).
Proof.
  intros Hset st. unfold on_mutex. destruct (op (get st)); simpl; auto.
Qed.

Lemma keeps_RegisterDriver {X} (f : State -> X) (deps : Deps) (d : DriverConstructor) :
  (forall m st, f (set_driverMutex m st) = f st) -> keeps f (RegisterDriver deps d).
Proof.
  intros Hset st. unfold RegisterDriver, registerDriverItems.
  unfold_mutex. unfold_go.
  destruct (sync.writer (driverMutex (reg st))); [reflexivity |].
  destruct (sync.readers (driverMutex (reg st))); [| simpl; apply Hset].
  simpl. apply Hset.
Qed.

(** A primitive that returns or panics in a state it wrote with [with_]
    functions is settled by computing. *)
Ltac keeps_prim :=
  let st := fresh "st" in
  intros st; unfold_mutex; unfold_go; simpl;
  repeat case_match; simpl; try reflexivity.

Ltac keeps_step :=
  first
    [ apply keeps_RegisterDriver; intros; reflexivity
    | apply keeps_ret
    | apply keeps_bind; [| intros ?]
    | apply keeps_defer
    | apply keeps_for_range; intros ?
    | progress case_match ].

Ltac keeps_tac := repeat keeps_step; try (keeps_prim; fail).

Section Frames.
Context (deps : Deps) (world : World).

Lemma IsDriverRegistered_keeps_driverMap n :
  keeps (fun st => driverMap (reg st)) (IsDriverRegistered n).
Proof. unfold IsDriverRegistered. keeps_tac. Qed.

Lemma registerPluginDriver_keeps_driverMap d p c :
  keeps (fun st => driverMap (reg st)) (registerPluginDriver deps d p c).
Proof. unfold registerPluginDriver, IsDriverRegistered. keeps_tac. Qed.

Lemma registerPluginDriver_keeps_driverInfoMap d p c :
  keeps (fun st => driverInfoMap (reg st)) (registerPluginDriver deps d p c).
Proof. unfold registerPluginDriver, IsDriverRegistered. keeps_tac. Qed.

Lemma registerPluginDriver_keeps_heap d p c :
  keeps heap (registerPluginDriver deps d p c).
Proof. unfold registerPluginDriver, IsDriverRegistered. keeps_tac. Qed.

Lemma registerPluginDriver_keeps_mgr d p c :
  keeps mgr (registerPluginDriver deps d p c).
Proof. unfold registerPluginDriver, IsDriverRegistered. keeps_tac. Qed.

Lemma registerPluginDriver_keeps_os d p c :
  keeps os (registerPluginDriver deps d p c).
Proof. unfold registerPluginDriver, IsDriverRegistered. keeps_tac. Qed.

(** No call of [LoadPlugin] writes [driverMap]: the only write is the one of
    [RegisterDriver], which is never reached. *)
Lemma LoadPlugin_keeps_driverMap path :
  keeps (fun st => driverMap (reg st)) (LoadPlugin deps world path).
Proof.
  unfold LoadPlugin.
  repeat first
    [ apply registerPluginDriver_keeps_driverMap | keeps_step ];
  keeps_prim.
Qed.

Lemma LoadPlugin_keeps_driverInfoMap path :
  keeps (fun st => driverInfoMap (reg st)) (LoadPlugin deps world path).
Proof.
  unfold LoadPlugin.
  repeat first
    [ apply registerPluginDriver_keeps_driverInfoMap | keeps_step ];
  keeps_prim.
Qed.

End Frames.

(** ** Loading *)

Section Loading.
Context (deps : Deps) (world : World).

(** C5: when the executable exists, the manager's lock is free and the
    handshake or connection, the interface, the plugin info or the driver
    enumeration fails, [LoadPlugin] returns an error; the registry, the
    manager and the heap (plugin table and instances) are exactly as before;
    the process it started has exited and no other process is touched. *)
Theorem LoadPlugin_failure_leaves_no_trace (pluginPath : string) (st : State) :
  mu (mgr st) = sync.unlocked ->
  os_Stat world pluginPath = StatOk ->
  load_fails (exec world pluginPath (started (os st))) (table st) ->
  exists e st',
    LoadPlugin deps world pluginPath st = Returns (Some e) st'
    /\ reg st' = reg st
    /\ mgr st' = mgr st
    /\ heap st' = heap st
    /\ procs (os st') !! started (os st) = Some Exited
    /\ (forall q, q <> started (os st) -> procs (os st') !! q = procs (os st) !! q).
Proof.
  intros Hmu Hstat Hfail. unfold LoadPlugin. unfold_mutex. unfold_go.
  unfold load_fails, table, map_entries in Hfail.
  destruct_state st. injection Hmu as -> ->. rewrite Hstat. simpl.
  destruct (exec world pluginPath (started o)) as [cn dp inf drv]; simpl in *.
  destruct cn as [msg|]; simpl.
  { do 2 eexists. split; [reflexivity |]. simpl. repeat split.
    - rewrite lookup_alter_eq, lookup_insert_eq. reflexivity.
    - intros q Hq. rewrite lookup_alter_ne, lookup_insert_ne by congruence. reflexivity. }
  destruct dp as [msg|]; simpl.
  { do 2 eexists. split; [reflexivity |]. simpl. repeat split.
    - rewrite lookup_alter_eq, lookup_insert_eq. reflexivity.
    - intros q Hq. rewrite lookup_alter_ne, lookup_insert_ne by congruence. reflexivity. }
  destruct inf as [i|msg]; simpl.
  2:{ do 2 eexists. split; [reflexivity |]. simpl. repeat split.
    - rewrite lookup_alter_eq, lookup_insert_eq. reflexivity.
    - intros q Hq. rewrite lookup_alter_ne, lookup_insert_ne by congruence. reflexivity. }
  destruct Hfail as [[? [=]] | [[? [=]] | [[? [=]] | (i' & msg & [= <-] & Hnew & ->)]]].
  rewrite Hnew. simpl.
  do 2 eexists. split; [reflexivity |]. simpl. repeat split.
  - rewrite lookup_alter_eq, lookup_insert_eq. reflexivity.
  - intros q Hq. rewrite lookup_alter_ne, lookup_insert_ne by congruence. reflexivity.
Qed.

(** A second load: the executable starts, connects and reports an identity
    name that is in the table already. *)
Lemma LoadPlugin_second_load (pluginPath : string) (st : State)
    (i : PluginInfo.t) (p : loc) :
  mu (mgr st) = sync.unlocked ->
  os_Stat world pluginPath = StatOk ->
  connect (exec world pluginPath (started (os st))) = None ->
  dispense (exec world pluginPath (started (os st))) = None ->
  info (exec world pluginPath (started (os st))) = Ok i ->
  table st !! PluginInfo.Name i = Some p ->
  exists st',
    LoadPlugin deps world pluginPath st = Returns None st'
    /\ reg st' = reg st
    /\ mgr st' = mgr st
    /\ heap st' = heap st
    /\ table st' = table st
    /\ procs (os st') !! started (os st) = Some Exited
    /\ (forall q, q <> started (os st) -> procs (os st') !! q = procs (os st) !! q).
Proof.
  intros Hmu Hstat Hconnect Hdispense Hinfo Hloaded.
  unfold LoadPlugin. unfold_mutex. unfold table in *. unfold_go.
  destruct_state st. injection Hmu as -> ->.
  rewrite Hstat. simpl. rewrite Hconnect. simpl. rewrite Hdispense. simpl.
  rewrite Hinfo. simpl. rewrite Hloaded. simpl.
  eexists. split; [reflexivity |]. simpl. repeat split.
  - rewrite lookup_alter_eq, lookup_insert_eq. reflexivity.
  - intros q Hq. rewrite lookup_alter_ne, lookup_insert_ne by congruence. reflexivity.
Qed.

End Loading.

Lemma LoadPlugin_failure_leaves_no_trace_witness :
  exists e st',
    LoadPlugin demo_deps demo_world "plugins/broken.exe" initial = Returns (Some e) st'
    /\ reg st' = reg initial
    /\ mgr st' = mgr initial
    /\ heap st' = heap initial
    /\ procs (os st') !! started (os initial) = Some Exited
    /\ (forall q, q <> started (os initial) ->
          procs (os st') !! q = procs (os initial) !! q).
Proof.
  apply (LoadPlugin_failure_leaves_no_trace demo_deps demo_world
           "plugins/broken.exe" initial).
  - reflexivity.
  - vm_compute. reflexivity.
  - left. vm_compute. eauto.
Defined.

Example demo_loaded_returns :
  exists st', LoadPlugin demo_deps demo_world "plugins/demo" (with_local initial)
              = Returns None st'
    /\ is_Some (table st' !! "demo")
    /\ driverMap (reg st') !! "Local" = Some local
    /\ mu (mgr st') = sync.unlocked
    /\ driverMutex (reg st') = sync.unlocked.
Proof. eexists. split; [vm_compute; reflexivity |]. vm_compute. eauto. Qed.


(** ** Scanning a directory *)

Lemma for_range_app {A} (xs ys : list A) (body : A -> go unit) (st : State) :
  for_range (xs ++ ys) body st
  = bind (for_range xs body) (fun _ => for_range ys body) st.
Proof.
  revert st. induction xs as [|x xs IH]; intros st; simpl.
  - reflexivity.
  - unfold bind in *. destruct (body x st); [apply IH | reflexivity | reflexivity].
Qed.

Section Scanning.
Context (deps : Deps) (world : World).

Lemma scan_entry_directory (dir : string) (d : DirEntry.t) (st : State) :
  DirEntry.IsDir d = true -> scan_entry deps world dir d st = Returns tt st.
Proof. unfold scan_entry. intros ->. reflexivity. Qed.

Lemma scan_entry_failure (dir : string) (e : DirEntry.t) (err : error)
    (st st' : State) :
  DirEntry.IsDir e = false ->
  filepath_Ext deps (DirEntry.Name e) = ".exe" \/ filepath_Ext deps (DirEntry.Name e) = "" ->
  LoadPlugin deps world (filepath_Join deps dir (DirEntry.Name e)) st
  = Returns (Some err) st' ->
  scan_entry deps world dir e st
  = Returns tt
      (with_logs (cons (load_failed (filepath_Join deps dir (DirEntry.Name e)) err)) st').
Proof.
  unfold scan_entry. intros -> Hext Hload.
  destruct (decide _) as [_|Hno]; [| contradiction].
  unfold bind. rewrite Hload. reflexivity.
Qed.

(** C9: for a directory that does not exist, [LoadPluginsFromDir] returns nil
    and only writes a debug record (nothing is loaded, no process started).
    For a directory that is listed: a subdirectory in the listing is passed
    over, the scan being the scan of the listing without it; when the scan
    has reached a candidate file and [LoadPlugin] returns an error for it,
    the error is logged and the scan goes on with the entries after it; and
    the only error the call returns is the one of [os.ReadDir]. *)
Theorem LoadPluginsFromDir_best_effort (dir : string) :
  (forall msg st,
     os_Stat world dir = StatErr true msg ->
     LoadPluginsFromDir deps world dir st
     = Returns None (with_logs (cons (directory_skipped dir)) st))
  /\ (forall pre d post st,
        (forall msg, os_Stat world dir <> StatErr true msg) ->
        os_ReadDir world dir = Ok (pre ++ d :: post) ->
        DirEntry.IsDir d = true ->
        LoadPluginsFromDir deps world dir st
        = bind (for_range (pre ++ post) (scan_entry deps world dir))
            (fun _ => ret None) st)
  /\ (forall pre e post err st st1 st2,
        (forall msg, os_Stat world dir <> StatErr true msg) ->
        os_ReadDir world dir = Ok (pre ++ e :: post) ->
        for_range pre (scan_entry deps world dir) st = Returns tt st1 ->
        DirEntry.IsDir e = false ->
        filepath_Ext deps (DirEntry.Name e) = ".exe"
          \/ filepath_Ext deps (DirEntry.Name e) = "" ->
        LoadPlugin deps world (filepath_Join deps dir (DirEntry.Name e)) st1
        = Returns (Some err) st2 ->
        LoadPluginsFromDir deps world dir st
        = bind (for_range post (scan_entry deps world dir)) (fun _ => ret None)
            (with_logs
               (cons (load_failed (filepath_Join deps dir (DirEntry.Name e)) err)) st2))
  /\ (forall st r st',
        LoadPluginsFromDir deps world dir st = Returns r st' ->
        r = None
        \/ exists msg, r = Some (ErrReadDir msg) /\ os_ReadDir world dir = Err msg
                       /\ st' = st).
Proof.
  repeat split.
  - intros msg st Hstat. unfold LoadPluginsFromDir. rewrite Hstat. reflexivity.
  - intros pre d post st Hexists Hlist Hdir.
    assert (LoadPluginsFromDir deps world dir st
            = bind (for_range (pre ++ d :: post) (scan_entry deps world dir))
                (fun _ => ret None) st) as ->.
    { unfold LoadPluginsFromDir. rewrite Hlist.
      destruct (os_Stat world dir) as [|[] msg]; try reflexivity.
      exfalso. exact (Hexists msg eq_refl). }
    unfold bind. rewrite !for_range_app. unfold bind.
    destruct (for_range pre _ st) as [[] st1| |]; try reflexivity.
    simpl. unfold bind. rewrite scan_entry_directory by exact Hdir. reflexivity.
  - intros pre e post err st st1 st2 Hexists Hlist Hpre Hfile Hext Hload.
    assert (LoadPluginsFromDir deps world dir st
            = bind (for_range (pre ++ e :: post) (scan_entry deps world dir))
                (fun _ => ret None) st) as ->.
    { unfold LoadPluginsFromDir. rewrite Hlist.
      destruct (os_Stat world dir) as [|[] msg]; try reflexivity.
      exfalso. exact (Hexists msg eq_refl). }
    unfold bind. rewrite for_range_app. unfold bind. rewrite Hpre. simpl.
    unfold bind. rewrite (scan_entry_failure dir e err st1 st2 Hfile Hext Hload).
    reflexivity.
  - intros st r st'. unfold LoadPluginsFromDir, bind, ret.
    destruct (os_Stat world dir) as [|[] msg]; simpl.
    + destruct (os_ReadDir world dir) as [entries|msg].
      * destruct (for_range entries _ st); intros [= <- <-] || discriminate. auto.
      * intros [= <- <-]. right. eauto.
    + intros [= <- <-]. auto.
    + destruct (os_ReadDir world dir) as [entries|msg'].
      * destruct (for_range entries _ st); intros [= <- <-] || discriminate. auto.
      * intros [= <- <-]. right. eauto.
Qed.

End Scanning.

Lemma LoadPluginsFromDir_best_effort_witness :
  LoadPluginsFromDir demo_deps demo_world "./data/plugins" initial
  = Returns None (with_logs (cons (directory_skipped "./data/plugins")) initial)
  /\ LoadPluginsFromDir demo_deps demo_world "plugins" initial
     = bind (for_range ([DirEntry.mk "broken.exe" false]
                        ++ [DirEntry.mk "notes.txt" false; DirEntry.mk "empty" false])
               (scan_entry demo_deps demo_world "plugins"))
         (fun _ => ret None) initial
  /\ LoadPluginsFromDir demo_deps demo_world "plugins" initial
     = bind (for_range [DirEntry.mk "cache" true; DirEntry.mk "notes.txt" false;
                        DirEntry.mk "empty" false]
               (scan_entry demo_deps demo_world "plugins"))
         (fun _ => ret None)
         (with_logs
            (cons (load_failed
                     (filepath_Join demo_deps "plugins"
                        (DirEntry.Name (DirEntry.mk "broken.exe" false)))
                     (ErrConnect "handshake failed")))
            (final (LoadPlugin demo_deps demo_world "plugins/broken.exe" initial))).
Proof.
  destruct (LoadPluginsFromDir_best_effort demo_deps demo_world "./data/plugins")
    as (Hmissing & _).
  destruct (LoadPluginsFromDir_best_effort demo_deps demo_world "plugins")
    as (_ & Hdir & Hfail & _).
  split; [| split].
  - apply (Hmissing "no such file or directory"). vm_compute. reflexivity.
  - apply (Hdir [DirEntry.mk "broken.exe" false] (DirEntry.mk "cache" true)).
    + intros msg. vm_compute. discriminate.
    + vm_compute. reflexivity.
    + reflexivity.
  - apply (Hfail [] (DirEntry.mk "broken.exe" false) _ _ initial initial).
    + intros msg. vm_compute. discriminate.
    + vm_compute. reflexivity.
    + reflexivity.
    + reflexivity.
    + left. vm_compute. reflexivity.
    + vm_compute. reflexivity.
Defined.

(** The whole scan of the concrete directory: the broken file is logged,
    the subdirectory and the text file are passed over, and the plugin after
    them is loaded. *)
Example LoadPluginsFromDir_demo :
  exists st', LoadPluginsFromDir demo_deps demo_world "plugins" initial = Returns None st'
    /\ map_to_list (table st') = [("empty", 2)]
    /\ started (os st') = 2
    /\ filter (fun e => level e = ErrorLevel) (logs st')
       = [ load_failed "plugins/broken.exe" (ErrConnect "handshake failed") ].
Proof.
  eexists. split; [vm_compute; reflexivity |].
  split; [| split]; vm_compute; reflexivity.
Qed.

(** ** Unloading *)

Lemma unregister_all_keeps_heap p names : keeps heap (unregister_all p names).
Proof. unfold unregister_all, UnregisterDriver. keeps_tac. Qed.

Lemma unregister_all_keeps_mgr p names : keeps mgr (unregister_all p names).
Proof. unfold unregister_all, UnregisterDriver. keeps_tac. Qed.

Lemma unregister_all_keeps_os p names : keeps os (unregister_all p names).
Proof. unfold unregister_all, UnregisterDriver. keeps_tac. Qed.

(** When the loop returns, the recorded names are gone from both maps of the
    registry, every other name is as before, and the mutex is free again. *)
Lemma unregister_all_returns (p : string) (names : list string) (st st' : State) :
  unregister_all p names st = Returns tt st' ->
  (forall n, driverMap (reg st') !! n
             = if decide (n ∈ names) then None else driverMap (reg st) !! n)
  /\ (forall n, driverInfoMap (reg st') !! n
                = if decide (n ∈ names) then None else driverInfoMap (reg st) !! n)
  /\ (names <> [] -> driverMutex (reg st) = sync.unlocked)
  /\ driverMutex (reg st') = driverMutex (reg st).
Proof.
  unfold unregister_all. revert st.
  induction names as [|x names IH]; intros st; simpl.
  - intros [= <-]. repeat split; try done.
  - unfold bind at 1 2. unfold UnregisterDriver. unfold_mutex. unfold_go.
    destruct st as [[dm dim [[] dr]] m h o lg]; simpl; [discriminate |].
    destruct dr; simpl; [| discriminate].
    intros Hrest. apply IH in Hrest as (Hdm & Hdim & _ & Hmu). simpl in *.
    repeat split.
    + intros n. rewrite Hdm.
      destruct (decide (n = x)) as [->|Hne].
      * destruct (decide (x ∈ x :: names)) as [_|Hn]; [| exfalso; apply Hn; left].
        case_decide; [done | apply lookup_delete_eq].
      * rewrite lookup_delete_ne by congruence.
        destruct (decide (n ∈ names)) as [Hin|Hin], (decide (n ∈ x :: names)) as [Hin'|Hin'];
          try done.
        -- exfalso. apply Hin'. right. exact Hin.
        -- exfalso. apply elem_of_cons in Hin' as [?|?]; done.
    + intros n. rewrite Hdim.
      destruct (decide (n = x)) as [->|Hne].
      * destruct (decide (x ∈ x :: names)) as [_|Hn]; [| exfalso; apply Hn; left].
        case_decide; [done | apply lookup_delete_eq].
      * rewrite lookup_delete_ne by congruence.
        destruct (decide (n ∈ names)) as [Hin|Hin], (decide (n ∈ x :: names)) as [Hin'|Hin'];
          try done.
        -- exfalso. apply Hin'. right. exact Hin.
        -- exfalso. apply elem_of_cons in Hin' as [?|?]; done.
    + exact Hmu.
Qed.

(** What a returning [UnloadPlugin] did for a plugin that is in the table. *)
Lemma UnloadPlugin_returns (p : string) (st st' : State) (r : option error)
    (l : loc) (inst : PluginInstance.t) :
  table st !! p = Some l ->
  instances (heap st) !! l = Some inst ->
  UnloadPlugin p st = Returns r st' ->
  r = None
  /\ mu (mgr st) = sync.unlocked
  /\ mgr st' = mgr st
  /\ procs (os st') = alter (fun _ => Exited) (PluginInstance.Client inst) (procs (os st))
  /\ started (os st') = started (os st)
  /\ heap st'
     = {| next := next (heap st);
          maps := <[plugins (mgr st) := delete p (table st)]> (maps (heap st));
          instances := instances (heap st);
          arrays := arrays (heap st) |}
  /\ (forall n, driverMap (reg st') !! n
                = if decide (n ∈ slice_elems (PluginInstance.Drivers inst) st)
                  then None else driverMap (reg st) !! n)
  /\ (forall n, driverInfoMap (reg st') !! n
                = if decide (n ∈ slice_elems (PluginInstance.Drivers inst) st)
                  then None else driverInfoMap (reg st) !! n)
  /\ driverMutex (reg st') = driverMutex (reg st).
Proof.
  intros Htable Hinst. unfold UnloadPlugin. unfold table in *.
  unfold_mutex. unfold_go.
  destruct_state st.
  destruct mw; simpl; [discriminate |]. destruct mr; simpl; [| discriminate].
  rewrite Htable. simpl. rewrite Hinst. simpl.
  match goal with
  | |- context [for_range ?xs ?body ?s] =>
      pose proof (unregister_all_keeps_heap p xs s) as Hheap;
      pose proof (unregister_all_keeps_mgr p xs s) as Hmgr;
      pose proof (unregister_all_keeps_os p xs s) as Hos;
      pose proof (unregister_all_returns p xs s) as Hreg;
      change (unregister_all p xs s) with (for_range xs body s)
        in Hheap, Hmgr, Hos, Hreg;
      destruct (for_range xs body s) as [[] st1|st1|flt st1]
  end; simpl in *; [| discriminate |].
  2:{ destruct (fatal flt); [discriminate |].
      rewrite Hmgr. simpl. discriminate. }
  specialize (Hreg st1 eq_refl) as (Hdm & Hdim & _ & Hdmu).
  destruct (maps h !! pl) as [entries|] eqn:Hmap; simpl in *;
    [| rewrite lookup_empty in Htable; discriminate].
  destruct st1 as [r1 m1 h1 o1 lg1]; simpl in *. subst m1 h1 o1. simpl.
  rewrite Hmap. simpl.
  intros [= <- <-]. simpl. repeat split; assumption.
Qed.

(** Unloading a name that is not in the table: the not-found error, and the
    state as before. *)
Lemma UnloadPlugin_unknown (p : string) (st : State) :
  mu (mgr st) = sync.unlocked ->
  table st !! p = None ->
  UnloadPlugin p st = Returns (Some (ErrNotFound p)) st.
Proof.
  intros Hmu Htable. unfold UnloadPlugin. unfold table in *.
  unfold_mutex. unfold_go. destruct_state st. injection Hmu as -> ->.
  simpl. rewrite Htable. reflexivity.
Qed.

(** With both mutexes free, unloading a plugin of the table returns. *)
Lemma UnloadPlugin_known (p : string) (st : State) (l : loc) (inst : PluginInstance.t) :
  mu (mgr st) = sync.unlocked ->
  driverMutex (reg st) = sync.unlocked ->
  table st !! p = Some l ->
  instances (heap st) !! l = Some inst ->
  exists st', UnloadPlugin p st = Returns None st'.
Proof.
  intros Hmu Hdmu Htable Hinst.
  assert (forall names s, driverMutex (reg s) = sync.unlocked ->
            exists s', unregister_all p names s = Returns tt s'
                       /\ mgr s' = mgr s /\ heap s' = heap s) as Hloop.
  { induction names as [|x names IH]; intros s Hs.
    - exists s. repeat split.
    - unfold unregister_all in *. simpl. unfold bind at 1 2.
      rewrite UnregisterDriver_returns by exact Hs. unfold logf, modify.
      match goal with
      | |- context [for_range names _ ?s0] =>
          destruct (IH s0) as (s' & Hs' & Hm & Hh); [destruct_state s; exact Hs |]
      end.
      exists s'. split; [exact Hs' |]. rewrite Hm, Hh. split; reflexivity. }
  unfold UnloadPlugin. unfold table in *. unfold_mutex. unfold_go.
  destruct_state st. injection Hmu as -> ->. simpl.
  rewrite Htable. simpl. rewrite Hinst. simpl.
  match goal with
  | |- context [for_range ?xs ?body ?s] =>
      destruct (Hloop xs s) as (s' & Hs' & Hm & Hh); [exact Hdmu |];
      change (unregister_all p xs s) with (for_range xs body s) in Hs'; rewrite Hs'
  end.
  destruct s' as [r1 m1 h1 o1 lg1]; simpl in *. subst m1 h1. simpl.
  destruct (maps h !! pl); simpl; eauto.
Qed.

(** C2 fails on the code.  In [demo_loaded] the built-in driver ["Local"] is
    registered and the plugin [demo], which reports a driver of that name,
    is loaded with the registration skipped (the warning is in the log);
    [UnloadPlugin "demo"] returns nil and ["Local"] is gone from the
    registry: the loop unregisters every name the plugin reported, skipped
    or not. *)
Theorem UnloadPlugin_unregisters_skipped_driver :
  is_Some (table demo_loaded !! "demo")
  /\ driverMap (reg demo_loaded) !! "Local" = Some local
  /\ {| level := WarnLevel;
        format := "Driver %s already registered, skipping plugin %s";
        args := [Str "Local"; Str "demo"] |} ∈ logs demo_loaded
  /\ exists st',
       UnloadPlugin "demo" demo_loaded = Returns None st'
       /\ table st' !! "demo" = None
       /\ driverMap (reg st') !! "Local" = None
       /\ driverInfoMap (reg st') !! "Local" = None
       /\ GetDriver "Local" st' = Returns (Err (ErrNoDriver "Local")) st'.
Proof.
  split; [vm_compute; eauto | split; [vm_compute; reflexivity | split]].
  - vm_compute. right. left.
  - eexists. split; [vm_compute; reflexivity |]. repeat split; vm_compute; reflexivity.
Qed.

(** ** Loading: what a returning call did *)

Lemma register_all_keeps_heap deps p c names : keeps heap (register_all deps p c names).
Proof.
  unfold register_all.
  repeat first [ apply registerPluginDriver_keeps_heap | keeps_step ]; keeps_prim.
Qed.

Lemma register_all_keeps_mgr deps p c names : keeps mgr (register_all deps p c names).
Proof.
  unfold register_all.
  repeat first [ apply registerPluginDriver_keeps_mgr | keeps_step ]; keeps_prim.
Qed.

Lemma register_all_keeps_os deps p c names : keeps os (register_all deps p c names).
Proof.
  unfold register_all.
  repeat first [ apply registerPluginDriver_keeps_os | keeps_step ]; keeps_prim.
Qed.

Section LoadReturns.
Context (deps : Deps) (world : World).

(** What a returning [LoadPlugin] did: it held the manager's lock and gave
    it back, and either it returned an error and left the heap alone, or the
    identity name was in the table and it left the heap alone, or it made a
    slice for the reported names and an instance bound to the process it
    started, and stored the instance under the identity name. *)
Lemma LoadPlugin_returns (pluginPath : string) (st st' : State) (r : option error) :
  LoadPlugin deps world pluginPath st = Returns r st' ->
  mu (mgr st) = sync.unlocked
  /\ mgr st' = mgr st
  /\ (forall q, q <> started (os st) -> procs (os st') !! q = procs (os st) !! q)
  /\ ((exists e, r = Some e /\ heap st' = heap st)
      \/ (r = None /\ heap st' = heap st
          /\ exists i, info (exec world pluginPath (started (os st))) = Ok i
                       /\ is_Some (table st !! PluginInfo.Name i))
      \/ (r = None
          /\ exists i names entries,
               info (exec world pluginPath (started (os st))) = Ok i
               /\ drivers (exec world pluginPath (started (os st))) = Ok names
               /\ maps (heap st) !! plugins (mgr st) = Some entries
               /\ entries !! PluginInfo.Name i = None
               /\ os st'
                  = {| procs := <[started (os st) := Running]> (procs (os st));
                       started := S (started (os st)) |}
               /\ heap st'
                  = {| next := S (S (next (heap st)));
                       maps := <[plugins (mgr st)
                                 := <[PluginInfo.Name i := S (next (heap st))]> entries]>
                                 (maps (heap st));
                       instances :=
                         <[S (next (heap st))
                           := PluginInstance.mk (PluginInfo.Name i) pluginPath
                                (started (os st)) (next (heap st)) ∅]>
                           (instances (heap st));
                       arrays := <[next (heap st) := names]> (arrays (heap st)) |})).
Proof.
  assert (forall (ps : gmap pid ProcState) h0 q,
            q <> h0 -> alter (fun _ => Exited) h0 (<[h0 := Running]> ps) !! q = ps !! q)
    as Hkilled.
  { intros ps h0 q Hq. rewrite lookup_alter_ne, lookup_insert_ne by congruence.
    reflexivity. }
  unfold LoadPlugin, table. unfold_mutex. unfold_go.
  destruct_state st.
  destruct mw; simpl; [discriminate |]. destruct mr; simpl; [| discriminate].
  destruct (os_Stat world pluginPath) as [|ne msg]; simpl.
  2:{ intros [= <- <-]. simpl. repeat split. left. eauto. }
  destruct (exec world pluginPath (started o)) as [cn dp inf drv]; simpl.
  destruct cn as [msg|]; simpl.
  { intros [= <- <-]. simpl. repeat split; [apply Hkilled |]. left. eauto. }
  destruct dp as [msg|]; simpl.
  { intros [= <- <-]. simpl. repeat split; [apply Hkilled |]. left. eauto. }
  destruct inf as [i|msg]; simpl.
  2:{ intros [= <- <-]. simpl. repeat split; [apply Hkilled |]. left. eauto. }
  destruct (default ∅ (maps h !! pl) !! PluginInfo.Name i) as [old|] eqn:Hold; simpl.
  { intros [= <- <-]. simpl. repeat split; [apply Hkilled |]. right. left. eauto 6. }
  destruct drv as [names|msg]; simpl.
  2:{ intros [= <- <-]. simpl. repeat split; [apply Hkilled |]. left. eauto. }
  match goal with
  | |- context [for_range ?xs ?body ?s] =>
      pose proof (register_all_keeps_heap deps (PluginInfo.Name i) (started o) xs s) as Hheap;
      pose proof (register_all_keeps_mgr deps (PluginInfo.Name i) (started o) xs s) as Hmgr;
      pose proof (register_all_keeps_os deps (PluginInfo.Name i) (started o) xs s) as Hos;
      change (register_all deps (PluginInfo.Name i) (started o) xs s)
        with (for_range xs body s) in Hheap, Hmgr, Hos;
      destruct (for_range xs body s) as [[] st1|st1|flt st1]
  end; simpl in *; [| discriminate |].
  2:{ destruct (fatal flt); [discriminate |]. rewrite Hmgr. simpl. discriminate. }
  destruct st1 as [r1 m1 h1 o1 lg1]; simpl in *. subst m1 h1 o1. simpl.
  destruct (maps h !! pl) as [entries|] eqn:Hmap; simpl.
  - intros [= <- <-]. simpl.
    repeat split.
    + intros q Hq. apply lookup_insert_ne. congruence.
    + right. right. split; [reflexivity |].
      exists i, names, entries. repeat split. exact Hold.
  - intros [= <- <-].
Qed.

(** An error from [LoadPlugin] leaves the heap, and so the table, as it was. *)
Lemma LoadPlugin_error_keeps_heap (pluginPath : string) (st st' : State) (e : error) :
  LoadPlugin deps world pluginPath st = Returns (Some e) st' ->
  mgr st' = mgr st /\ heap st' = heap st.
Proof.
  intros Hload. apply LoadPlugin_returns in Hload as (_ & Hmgr & _ & Hcases).
  split; [exact Hmgr |].
  destruct Hcases as [(e' & _ & Hheap) | [([=] & _) | ([=] & _)]]. exact Hheap.
Qed.

End LoadReturns.

(** ** Reloading *)

Lemma UnloadPlugin_table (p : string) (st st' : State) (r : option error)
    (l : loc) (inst : PluginInstance.t) :
  table st !! p = Some l ->
  instances (heap st) !! l = Some inst ->
  UnloadPlugin p st = Returns r st' ->
  table st' = delete p (table st).
Proof.
  intros Htable Hinst Hun.
  destruct (UnloadPlugin_returns p st st' r l inst Htable Hinst Hun)
    as (_ & _ & Hmgr & _ & _ & Hheap & _).
  unfold table, map_entries. rewrite Hmgr, Hheap. simpl.
  rewrite lookup_insert_eq. reflexivity.
Qed.

Section Reloading.
Context (deps : Deps) (world : World).

Lemma ReloadPlugin_unknown (p : string) (st : State) :
  table st !! p = None ->
  ReloadPlugin deps world p st = Returns (Some (ErrNotFound p)) st.
Proof.
  intros Htable. unfold ReloadPlugin, table in *. unfold_go.
  rewrite Htable. reflexivity.
Qed.

Lemma ReloadPlugin_known (p : string) (st : State) (l : loc) (inst : PluginInstance.t) :
  table st !! p = Some l ->
  instances (heap st) !! l = Some inst ->
  ReloadPlugin deps world p st
  = match UnloadPlugin p st with
    | Returns (Some e) st1 => Returns (Some (ErrUnload p e)) st1
    | Returns None st1 =>
        match LoadPlugin deps world (PluginInstance.Path inst) st1 with
        | Returns (Some e) st2 => Returns (Some (ErrReload p e)) st2
        | other => other
        end
    | other => other
    end.
Proof.
  intros Htable Hinst. unfold ReloadPlugin, table in *. unfold_go.
  rewrite Htable. simpl. rewrite Hinst. simpl.
  destruct (UnloadPlugin p st) as [[e|] st1|st1|flt st1]; try reflexivity.
  destruct (LoadPlugin _ _ _ st1) as [[e|] st2|st2|flt st2]; reflexivity.
Qed.

End Reloading.

(** ** The read accessors and their callers *)

Lemma insert_all_lookup (l : list (string * loc)) (acc : gmap string loc) (k : string) :
  NoDup l.*1 ->
  insert_all acc l !! k
  = match (list_to_map l : gmap string loc) !! k with
    | Some v => Some v
    | None => acc !! k
    end.
Proof.
  revert acc. induction l as [|[k0 v0] l IH]; intros acc Hnodup.
  - simpl. rewrite lookup_empty. reflexivity.
  - rewrite fmap_cons in Hnodup. apply NoDup_cons in Hnodup as [Hfresh Hnodup].
    change (insert_all acc ((k0, v0) :: l)) with (insert_all (<[k0 := v0]> acc) l).
    rewrite IH by exact Hnodup. rewrite list_to_map_cons.
    destruct (decide (k = k0)) as [->|Hne].
    + rewrite (not_elem_of_list_to_map_1 _ _ Hfresh).
      rewrite !lookup_insert_eq. reflexivity.
    + rewrite !lookup_insert_ne by congruence. reflexivity.
Qed.

Lemma insert_all_map_to_list (m : gmap string loc) :
  insert_all ∅ (map_to_list m) = m.
Proof.
  apply map_eq. intros k.
  rewrite insert_all_lookup by apply NoDup_fst_map_to_list.
  rewrite list_to_map_to_list, lookup_empty.
  destruct (m !! k); reflexivity.
Qed.

(** The copying loop of [GetLoadedPlugins]. *)
Lemma copy_loop_returns (result : loc) (l : list (string * loc))
    (acc : gmap string loc) (st : State) :
  maps (heap st) !! result = Some acc ->
  for_range l (fun kv => map_store result kv.1 kv.2) st
  = Returns tt (set_maps <[result := insert_all acc l]> st).
Proof.
  revert acc st. induction l as [|[k v] l IH]; intros acc st Hacc; simpl.
  - unfold ret, set_maps, with_heap. destruct st as [r m [n mp ins arr] o lg].
    simpl in *. rewrite insert_id by exact Hacc. reflexivity.
  - unfold bind, map_store. rewrite Hacc.
    rewrite (IH (<[k := v]> acc)).
    + destruct st as [r m [n mp ins arr] o lg]. unfold set_maps, with_heap. simpl.
      rewrite insert_insert_eq. reflexivity.
    + destruct st as [r m [n mp ins arr] o lg]. simpl. apply lookup_insert_eq.
Qed.

(** [GetLoadedPlugins] hands out a map at a fresh address holding the
    entries of the table; the manager and its table are as before. *)
Lemma GetLoadedPlugins_returns (st : State) :
  sync.writer (mu (mgr st)) = false ->
  plugins (mgr st) < next (heap st) ->
  exists st',
    GetLoadedPlugins st = Returns (next (heap st)) st'
    /\ map_entries (next (heap st)) st' = table st
    /\ mgr st' = mgr st
    /\ maps (heap st') = <[next (heap st) := table st]> (maps (heap st))
    /\ next (heap st') = S (next (heap st))
    /\ instances (heap st') = instances (heap st)
    /\ arrays (heap st') = arrays (heap st).
Proof.
  intros Hfree Hwf. unfold GetLoadedPlugins, table. unfold_mutex.
  unfold bind, ret, defer, on_mutex, make_map, m_plugins, map_entries.
  destruct st as [r [pl [mw mr]] [n mp ins arr] o lg]. simpl in *. subst mw. simpl.
  erewrite copy_loop_returns by (simpl; apply lookup_insert_eq). simpl.
  eexists. split; [reflexivity |]. simpl.
  rewrite insert_insert_eq.
  assert (n <> pl) as Hne by (unfold loc in *; lia).
  rewrite (lookup_insert_ne mp n pl ∅ Hne). rewrite insert_all_map_to_list.
  rewrite lookup_insert_eq. simpl. repeat split.
Qed.

(** Writes to a map other than the manager's leave the table alone. *)
Lemma write_map_keeps_table (m : loc) (ws : list MapWrite) (st : State) :
  m <> plugins (mgr st) ->
  table (final (for_range ws (write_map m) st)) = table st
  /\ mgr (final (for_range ws (write_map m) st)) = mgr st
  /\ instances (heap (final (for_range ws (write_map m) st))) = instances (heap st)
  /\ arrays (heap (final (for_range ws (write_map m) st))) = arrays (heap st).
Proof.
  revert st. induction ws as [|w ws IH]; intros st Hm; simpl.
  - repeat split.
  - unfold bind.
    assert (forall st1, final (write_map m w st) = st1 ->
              table st1 = table st /\ mgr st1 = mgr st
              /\ instances (heap st1) = instances (heap st)
              /\ arrays (heap st1) = arrays (heap st)) as Hstep.
    { intros st1 <-. unfold write_map, map_store, map_delete, table, map_entries.
      destruct st as [r g [n mp ins arr] o lg]. simpl in *.
      destruct w as [k v|k]; simpl; destruct (mp !! m); simpl;
        rewrite ?lookup_insert_ne by congruence; repeat split. }
    destruct (write_map m w st) as [[] st1|st1|flt st1]; simpl in *.
    + destruct (Hstep st1 eq_refl) as (Ht & Hg & Hi & Ha).
      destruct (IH st1) as (Ht' & Hg' & Hi' & Ha'); [congruence |].
      rewrite Ht', Hg', Hi', Ha'. repeat split; assumption.
    + apply Hstep. reflexivity.
    + apply Hstep. reflexivity.
Qed.

(** The map [GetLoadedPlugins] returns is the caller's own: whatever the
    caller assigns to it or deletes from it, the manager's table, the
    instances and their driver lists stay as they were. *)
Lemma GetLoadedPlugins_copy (st : State) (ws : list MapWrite) :
  sync.writer (mu (mgr st)) = false ->
  plugins (mgr st) < next (heap st) ->
  exists result st',
    GetLoadedPlugins st = Returns result st'
    /\ map_entries result st' = table st
    /\ table (final (for_range ws (write_map result) st')) = table st
    /\ mgr (final (for_range ws (write_map result) st')) = mgr st
    /\ instances (heap (final (for_range ws (write_map result) st')))
       = instances (heap st)
    /\ arrays (heap (final (for_range ws (write_map result) st')))
       = arrays (heap st).
Proof.
  intros Hfree Hwf.
  destruct (GetLoadedPlugins_returns st Hfree Hwf)
    as (st' & Hret & Hcopy & Hmgr & Hmaps & _ & Hinst & Harr).
  exists (next (heap st)), st'. split; [exact Hret | split; [exact Hcopy |]].
  destruct (write_map_keeps_table (next (heap st)) ws st') as (Ht & Hg & Hi & Ha).
  { rewrite Hmgr. unfold loc in *. lia. }
  rewrite Ht, Hg, Hi, Ha, Hmgr, Hinst, Harr. repeat split.
  unfold table, map_entries. rewrite Hmgr, Hmaps.
  rewrite lookup_insert_ne by (unfold loc in *; lia). reflexivity.
Qed.

(** C6 fails on the code for [GetPluginDrivers]: it returns the slice stored
    in the instance, not a copy.  In [demo_loaded] the call returns the slice
    at address 1, which holds ["Local"]; after the caller stores ["DemoFS"]
    at index 0 of it, the manager's recorded driver list of [demo] reads
    ["DemoFS"], and [UnloadPlugin "demo"] leaves ["Local"] registered
    instead of unregistering it. *)
Theorem GetPluginDrivers_returns_internal_slice :
  GetPluginDrivers "demo" demo_loaded = Returns (Ok 1) demo_loaded
  /\ slice_elems 1 demo_loaded = ["Local"]
  /\ slice_store 1 0 "DemoFS" demo_loaded = Returns tt caller_overwrites
  /\ GetPluginDrivers "demo" caller_overwrites = Returns (Ok 1) caller_overwrites
  /\ slice_elems 1 caller_overwrites = ["DemoFS"]
  /\ (exists l inst,
        table caller_overwrites !! "demo" = Some l
        /\ instances (heap caller_overwrites) !! l = Some inst
        /\ slice_elems (PluginInstance.Drivers inst) caller_overwrites = ["DemoFS"])
  /\ (exists st',
        UnloadPlugin "demo" demo_loaded = Returns None st'
        /\ driverMap (reg st') !! "Local" = None)
  /\ (exists st',
        UnloadPlugin "demo" caller_overwrites = Returns None st'
        /\ driverMap (reg st') !! "Local" = Some local).
Proof.
  split; [vm_compute; reflexivity |].
  split; [vm_compute; reflexivity |].
  split; [vm_compute; reflexivity |].
  split; [vm_compute; reflexivity |].
  split; [vm_compute; reflexivity |].
  split; [exists 2; eexists; repeat split; vm_compute; reflexivity |].
  split; eexists; (split; [vm_compute; reflexivity |]); vm_compute; reflexivity.
Qed.

(** ** One entry for an identity name *)

(** Under the invariant two entries with the same identity name are one. *)
Lemma keyed_by_identity_unique (st : State) (k1 k2 : string) (l1 l2 : loc)
    (i1 i2 : PluginInstance.t) :
  keyed_by_identity st ->
  table st !! k1 = Some l1 -> instances (heap st) !! l1 = Some i1 ->
  table st !! k2 = Some l2 -> instances (heap st) !! l2 = Some i2 ->
  PluginInstance.Name i1 = PluginInstance.Name i2 ->
  k1 = k2 /\ l1 = l2.
Proof.
  intros Hinv Hk1 Hi1 Hk2 Hi2 Hname.
  destruct (Hinv k1 l1 Hk1) as (_ & j1 & Hj1 & Hn1).
  destruct (Hinv k2 l2 Hk2) as (_ & j2 & Hj2 & Hn2).
  rewrite Hi1 in Hj1. injection Hj1 as <-.
  rewrite Hi2 in Hj2. injection Hj2 as <-.
  assert (k1 = k2) as Hk by congruence.
  split; [exact Hk |]. congruence.
Qed.

Lemma initial_keyed_by_identity : keyed_by_identity initial.
Proof. intros k l Hk. vm_compute in Hk. discriminate. Qed.

Lemma LoadPlugin_keeps_keyed_by_identity (deps : Deps) (world : World)
    (pluginPath : string) (st st' : State) (r : option error) :
  keyed_by_identity st ->
  LoadPlugin deps world pluginPath st = Returns r st' ->
  keyed_by_identity st'.
Proof.
  intros Hinv Hload.
  destruct (LoadPlugin_returns deps world pluginPath st st' r Hload)
    as (_ & Hmgr & _ & Hcases).
  assert (heap st' = heap st -> keyed_by_identity st') as Hsame.
  { intros Hheap k l. unfold keyed_by_identity, table, map_entries in *.
    rewrite Hmgr, Hheap. apply Hinv. }
  destruct Hcases as [(e & _ & Hheap) | [(_ & Hheap & _) | (_ & Hstored)]];
    [apply Hsame, Hheap | apply Hsame, Hheap |].
  destruct Hstored as (i & names & entries & _ & _ & Hmap & Hnew & _ & Hheap).
  intros k l. unfold keyed_by_identity, table, map_entries in *.
  rewrite Hmgr, Hheap. simpl. rewrite lookup_insert_eq. simpl.
  rewrite Hmap in Hinv. simpl in Hinv.
  destruct (decide (k = PluginInfo.Name i)) as [->|Hne].
  - rewrite lookup_insert_eq. intros [= <-]. split; [lia |].
    rewrite lookup_insert_eq. eauto.
  - rewrite lookup_insert_ne by congruence. intros Hk.
    destruct (Hinv k l Hk) as (Hlt & inst & Hinst & Hname).
    split; [lia |]. exists inst. split; [| exact Hname].
    rewrite lookup_insert_ne by (unfold loc in *; lia). exact Hinst.
Qed.

Lemma UnloadPlugin_keeps_keyed_by_identity (p : string) (st st' : State)
    (r : option error) :
  keyed_by_identity st ->
  UnloadPlugin p st = Returns r st' ->
  keyed_by_identity st'.
Proof.
  intros Hinv Hun.
  destruct (table st !! p) as [l|] eqn:Htable.
  - destruct (Hinv p l Htable) as (_ & inst & Hinst & _).
    pose proof (UnloadPlugin_table p st st' r l inst Htable Hinst Hun) as Htab.
    destruct (UnloadPlugin_returns p st st' r l inst Htable Hinst Hun)
      as (_ & _ & _ & _ & _ & Hheap & _).
    intros k l'. rewrite Htab, Hheap. simpl.
    destruct (decide (k = p)) as [->|Hne].
    + rewrite lookup_delete_eq. discriminate.
    + rewrite lookup_delete_ne by congruence. apply Hinv.
  - assert (st' = st) as ->; [| exact Hinv].
    revert Hun. unfold UnloadPlugin. unfold table in *. unfold_mutex. unfold_go.
    destruct_state st.
    destruct mw; simpl; [discriminate |]. destruct mr; simpl; [| discriminate].
    rewrite Htable. simpl. intros [= _ <-]. reflexivity.
Qed.

(** C4: entries of the table are keyed by the identity name of the instance
    they point to, and every returning [LoadPlugin] keeps it so: no two
    entries ever carry one identity name.  When the executable starts,
    connects and reports an identity name that is in the table already,
    [LoadPlugin] returns nil having ended the process it started: the
    registry (no driver is registered), the manager and the heap (the table,
    the original entry) are as before and no process but the new one is
    touched.  A scan that meets such a candidate file goes over it the same
    way. *)
Theorem LoadPlugin_first_loaded_wins (deps : Deps) (world : World)
    (pluginPath : string) (st : State) :
  (forall r st',
     keyed_by_identity st ->
     LoadPlugin deps world pluginPath st = Returns r st' ->
     keyed_by_identity st'
     /\ forall k1 k2 l1 l2 i1 i2,
          table st' !! k1 = Some l1 -> instances (heap st') !! l1 = Some i1 ->
          table st' !! k2 = Some l2 -> instances (heap st') !! l2 = Some i2 ->
          PluginInstance.Name i1 = PluginInstance.Name i2 ->
          k1 = k2 /\ l1 = l2)
  /\ (forall i p,
        mu (mgr st) = sync.unlocked ->
        os_Stat world pluginPath = StatOk ->
        connect (exec world pluginPath (started (os st))) = None ->
        dispense (exec world pluginPath (started (os st))) = None ->
        info (exec world pluginPath (started (os st))) = Ok i ->
        table st !! PluginInfo.Name i = Some p ->
        exists st',
          LoadPlugin deps world pluginPath st = Returns None st'
          /\ reg st' = reg st
          /\ mgr st' = mgr st
          /\ heap st' = heap st
          /\ table st' = table st
          /\ procs (os st') !! started (os st) = Some Exited
          /\ (forall q, q <> started (os st) ->
                procs (os st') !! q = procs (os st) !! q))
  /\ (forall dir entry i p,
        pluginPath = filepath_Join deps dir (DirEntry.Name entry) ->
        DirEntry.IsDir entry = false ->
        filepath_Ext deps (DirEntry.Name entry) = ".exe"
          \/ filepath_Ext deps (DirEntry.Name entry) = "" ->
        mu (mgr st) = sync.unlocked ->
        os_Stat world pluginPath = StatOk ->
        connect (exec world pluginPath (started (os st))) = None ->
        dispense (exec world pluginPath (started (os st))) = None ->
        info (exec world pluginPath (started (os st))) = Ok i ->
        table st !! PluginInfo.Name i = Some p ->
        exists st',
          scan_entry deps world dir entry st = Returns tt st'
          /\ reg st' = reg st /\ mgr st' = mgr st /\ heap st' = heap st).
Proof.
  split; [| split].
  - intros r st' Hinv Hload.
    pose proof (LoadPlugin_keeps_keyed_by_identity deps world pluginPath st st' r
                  Hinv Hload) as Hinv'.
    split; [exact Hinv' |]. intros k1 k2 l1 l2 i1 i2.
    apply keyed_by_identity_unique. exact Hinv'.
  - intros i p. apply LoadPlugin_second_load.
  - intros dir entry i p -> Hfile Hext Hmu Hstat Hconnect Hdispense Hinfo Hloaded.
    destruct (LoadPlugin_second_load deps world _ st i p
                Hmu Hstat Hconnect Hdispense Hinfo Hloaded)
      as (st' & Hload & Hreg & Hmgr & Hheap & _).
    exists st'. split; [| auto].
    unfold scan_entry. rewrite Hfile.
    destruct (decide _) as [_|Hno]; [| contradiction].
    unfold bind. rewrite Hload. reflexivity.
Qed.

Lemma demo_loaded_keyed_by_identity : keyed_by_identity demo_loaded.
Proof.
  assert (keyed_by_identity (with_local initial)) as Hinit.
  { intros k l Hk. vm_compute in Hk. discriminate. }
  assert (LoadPlugin demo_deps demo_world "plugins/demo" (with_local initial)
          = Returns None demo_loaded) as Hload by (vm_compute; reflexivity).
  exact (LoadPlugin_keeps_keyed_by_identity _ _ _ _ _ _ Hinit Hload).
Qed.

Lemma LoadPlugin_first_loaded_wins_witness :
  keyed_by_identity demo_loaded_again
  /\ LoadPlugin demo_deps demo_world "plugins/demo" demo_loaded
     = Returns None demo_loaded_again
  /\ reg demo_loaded_again = reg demo_loaded
  /\ mgr demo_loaded_again = mgr demo_loaded
  /\ heap demo_loaded_again = heap demo_loaded
  /\ procs (os demo_loaded_again) !! started (os demo_loaded) = Some Exited
  /\ procs (os demo_loaded_again) !! 0 = procs (os demo_loaded) !! 0.
Proof.
  destruct (LoadPlugin_first_loaded_wins demo_deps demo_world "plugins/demo"
              demo_loaded) as (Hinv & Hsecond & _).
  assert (LoadPlugin demo_deps demo_world "plugins/demo" demo_loaded
          = Returns None demo_loaded_again) as Hload by (vm_compute; reflexivity).
  destruct (Hinv None demo_loaded_again demo_loaded_keyed_by_identity Hload)
    as (Hkeyed & _).
  destruct (Hsecond (PluginInfo.mk "demo" "1.0" "" "") 2) as (st' & Hload' & Hrest);
    [reflexivity | vm_compute; reflexivity | reflexivity | reflexivity
    | reflexivity | vm_compute; reflexivity |].
  rewrite Hload in Hload'. injection Hload' as <-.
  destruct Hrest as (Hreg & Hmgr & Hheap & _ & Hexited & Hothers).
  split; [exact Hkeyed |]. split; [exact Hload |]. split; [exact Hreg |].
  split; [exact Hmgr |]. split; [exact Hheap |]. split; [exact Hexited |].
  apply Hothers. vm_compute. lia.
Defined.

(** * Further properties *)

(** ** The registry: lookups and removal *)

Lemma GetDriverNames_returns (st : State) :
  sync.writer (driverMutex (reg st)) = false ->
  GetDriverNames st = Returns (map_to_list (driverInfoMap (reg st))).*1 st.
Proof.
  unfold GetDriverNames. unfold_mutex. unfold_go.
  destruct_state st. intros ->. reflexivity.
Qed.

Lemma GetDriverInfoMap_returns (st : State) :
  sync.writer (driverMutex (reg st)) = false ->
  GetDriverInfoMap st = Returns (driverInfoMap (reg st)) st.
Proof.
  unfold GetDriverInfoMap. unfold_mutex. unfold_go.
  destruct_state st. intros ->. reflexivity.
Qed.

Lemma elem_of_map_keys {V} (m : gmap string V) (n : string) :
  n ∈ (map_to_list m).*1 <-> is_Some (m !! n).
Proof.
  rewrite list_elem_of_fmap. split.
  - intros [[k v] [-> Hin]]. apply elem_of_map_to_list in Hin. eauto.
  - intros [v Hv]. exists (n, v). split; [reflexivity |].
    by apply elem_of_map_to_list.
Qed.

(** X1: with the registry mutex free, UnregisterDriver returns and the name
    is gone for every reader: IsDriverRegistered answers false, GetDriver
    answers "no driver named", GetDriverNames does not list it.  Every other
    name keeps its constructor and its info, nothing outside the registry
    changes, and removing the name a second time changes nothing. *)
Theorem UnregisterDriver_forgets (name : string) (st : State) :
  driverMutex (reg st) = sync.unlocked ->
  exists st',
    UnregisterDriver name st = Returns tt st'
    /\ IsDriverRegistered name st' = Returns false st'
    /\ GetDriver name st' = Returns (Err (ErrNoDriver name)) st'
    /\ (exists names, GetDriverNames st' = Returns names st' /\ name ∉ names)
    /\ (forall n, n <> name ->
          driverMap (reg st') !! n = driverMap (reg st) !! n
          /\ driverInfoMap (reg st') !! n = driverInfoMap (reg st) !! n)
    /\ driverMutex (reg st') = sync.unlocked
    /\ mgr st' = mgr st /\ heap st' = heap st /\ os st' = os st
    /\ logs st' = logs st
    /\ UnregisterDriver name st' = Returns tt st'.
Proof.
  intros Hfree. eexists. split; [apply (UnregisterDriver_returns name st Hfree) |].
  assert (Hw : sync.writer (driverMutex (reg
            (set_driverInfoMap (delete name) (set_driverMap (delete name) st)))) = false).
  { destruct_state st. inversion Hfree. reflexivity. }
  split.
  { rewrite IsDriverRegistered_returns by exact Hw. simpl.
    rewrite lookup_delete_eq. rewrite bool_decide_eq_false_2; [reflexivity |].
    intros [? ?]; discriminate. }
  split.
  { rewrite GetDriver_returns by exact Hw. simpl.
    rewrite lookup_delete_eq. reflexivity. }
  split.
  { eexists. split; [apply GetDriverNames_returns; exact Hw |].
    rewrite elem_of_map_keys. simpl. rewrite lookup_delete_eq.
    intros [? ?]; discriminate. }
  split.
  { intros n Hn. simpl. rewrite !lookup_delete_ne by congruence. auto. }
  split; [destruct_state st; exact Hfree |].
  repeat (split; [reflexivity |]).
  rewrite UnregisterDriver_returns by (destruct_state st; exact Hfree).
  f_equal. destruct_state st. unfold set_driverInfoMap, set_driverMap, with_reg. simpl.
  rewrite !delete_delete_eq. reflexivity.
Qed.

Lemma UnregisterDriver_forgets_witness :
  exists st',
    UnregisterDriver "Local" (with_local initial) = Returns tt st'
    /\ IsDriverRegistered "Local" st' = Returns false st'
    /\ GetDriver "Local" st' = Returns (Err (ErrNoDriver "Local")) st'
    /\ (exists names, GetDriverNames st' = Returns names st' /\ "Local" ∉ names)
    /\ (forall n, n <> "Local" ->
          driverMap (reg st') !! n = driverMap (reg (with_local initial)) !! n
          /\ driverInfoMap (reg st') !! n = driverInfoMap (reg (with_local initial)) !! n)
    /\ driverMutex (reg st') = sync.unlocked
    /\ mgr st' = mgr (with_local initial) /\ heap st' = heap (with_local initial)
    /\ os st' = os (with_local initial)
    /\ logs st' = logs (with_local initial)
    /\ UnregisterDriver "Local" st' = Returns tt st'.
Proof.
  apply (UnregisterDriver_forgets "Local" (with_local initial)). reflexivity.
Defined.

(** X2: while no writer holds the registry mutex or waits for it (other
    readers may be inside), the four readers return and leave the state
    exactly as it was.  IsDriverRegistered and GetDriver agree: one answers
    true exactly when the other returns a constructor, which is the one
    stored under the name.  GetDriverNames lists each name of driverInfoMap
    once and no other name.  Readers do not pass a waiting writer: when
    UnregisterDriver calls Lock while readers are inside, it parks having
    announced itself, and from then on each of the four readers parks. *)
Theorem registry_readers_agree (name : string) (st : State) :
  sync.writer (driverMutex (reg st)) = false ->
  (exists b, IsDriverRegistered name st = Returns b st
     /\ (b = true <-> exists c, driverMap (reg st) !! name = Some c
                               /\ GetDriver name st = Returns (Ok c) st)
     /\ (b = false <-> GetDriver name st = Returns (Err (ErrNoDriver name)) st))
  /\ GetDriverInfoMap st = Returns (driverInfoMap (reg st)) st
  /\ (exists names, GetDriverNames st = Returns names st
        /\ NoDup names
        /\ forall n, n ∈ names <-> is_Some (driverInfoMap (reg st) !! n))
  /\ (forall k n,
        sync.readers (driverMutex (reg st)) = S k ->
        exists st',
          UnregisterDriver n st = Blocks st'
          /\ st' = set_driverMutex {| sync.writer := true; sync.readers := S k |} st
          /\ IsDriverRegistered name st' = Blocks st'
          /\ GetDriver name st' = Blocks st'
          /\ GetDriverNames st' = Blocks st'
          /\ GetDriverInfoMap st' = Blocks st').
Proof.
  intros Hw. split.
  { eexists. split; [apply IsDriverRegistered_returns; exact Hw |].
    rewrite GetDriver_returns by exact Hw.
    destruct (driverMap (reg st) !! name) as [c|] eqn:Hc.
    - rewrite bool_decide_eq_true_2 by eauto. split.
      + split; [intros _; eauto | reflexivity].
      + split; [discriminate | intros H; inversion H].
    - rewrite bool_decide_eq_false_2 by (intros [? ?]; discriminate). split.
      + split; [discriminate | intros [c [H _]]; discriminate].
      + split; reflexivity. }
  split; [apply GetDriverInfoMap_returns; exact Hw |].
  split.
  { eexists. split; [apply GetDriverNames_returns; exact Hw |].
    split; [apply NoDup_fst_map_to_list |].
    intros n. apply elem_of_map_keys. }
  intros k n Hr. eexists.
  split; [apply UnregisterDriver_queues; [exact Hw | exact Hr] |].
  split; [reflexivity |].
  assert (Hwaits : sync.writer (driverMutex (reg
            (set_driverMutex {| sync.writer := true; sync.readers := S k |} st))) = true)
    by reflexivity.
  destruct (registry_readers_park _ Hwaits) as (Hisreg & Hget & Hnames & Hinfo).
  split; [apply Hisreg |]. split; [apply Hget |].
  split; [exact Hnames | exact Hinfo].
Qed.

Lemma registry_readers_agree_witness :
  (exists b, IsDriverRegistered "Local" local_being_read = Returns b local_being_read
     /\ (b = true <-> exists c, driverMap (reg local_being_read) !! "Local" = Some c
                               /\ GetDriver "Local" local_being_read
                                  = Returns (Ok c) local_being_read)
     /\ (b = false <-> GetDriver "Local" local_being_read
                       = Returns (Err (ErrNoDriver "Local")) local_being_read))
  /\ GetDriverInfoMap local_being_read
     = Returns (driverInfoMap (reg local_being_read)) local_being_read
  /\ (exists names, GetDriverNames local_being_read = Returns names local_being_read
        /\ NoDup names
        /\ forall n, n ∈ names <-> is_Some (driverInfoMap (reg local_being_read) !! n))
  /\ (exists st',
        UnregisterDriver "Local" local_being_read = Blocks st'
        /\ st' = set_driverMutex {| sync.writer := true; sync.readers := 1 |}
                   local_being_read
        /\ IsDriverRegistered "Local" st' = Blocks st'
        /\ GetDriver "Local" st' = Blocks st'
        /\ GetDriverNames st' = Blocks st'
        /\ GetDriverInfoMap st' = Blocks st').
Proof.
  destruct (registry_readers_agree "Local" local_being_read)
    as (Hlookup & Hinfo & Hnames & Hwaits); [reflexivity |].
  split; [exact Hlookup |]. split; [exact Hinfo |]. split; [exact Hnames |].
  apply (Hwaits 0 "Local"). reflexivity.
Defined.

(** ** The items of a driver *)

(** The items of a struct, field by field. *)
Lemma getAdditionalItems_cons (deps : Deps) (name fname : string)
    (ftype : reflect.Type_) (tag : reflect.StructTag)
    (rest : list (string * reflect.Type_ * reflect.StructTag)) (defaultRoot : string) :
  getAdditionalItems deps (reflect.StructOf name ((fname, ftype, tag) :: rest)) defaultRoot
  = if decide (reflect.Kind_of ftype = reflect.Struct)
    then match getAdditionalItems deps ftype defaultRoot with
         | Some nested =>
             (nested ++.) <$> getAdditionalItems deps (reflect.StructOf name rest) defaultRoot
         | None => None
         end
    else match reflect.Lookup tag "ignore", reflect.Lookup tag "json" with
         | Some ignore, Some n =>
             if decide (ignore = "true")
             then getAdditionalItems deps (reflect.StructOf name rest) defaultRoot
             else (fieldItem deps n ftype tag defaultRoot ::.)
                    <$> getAdditionalItems deps (reflect.StructOf name rest) defaultRoot
         | None, Some n =>
             (fieldItem deps n ftype tag defaultRoot ::.)
               <$> getAdditionalItems deps (reflect.StructOf name rest) defaultRoot
         | _, None => getAdditionalItems deps (reflect.StructOf name rest) defaultRoot
         end.
Proof. reflexivity. Qed.

Lemma getAdditionalItems_nil (deps : Deps) (name defaultRoot : string) :
  getAdditionalItems deps (reflect.StructOf name []) defaultRoot = Some [].
Proof. reflexivity. Qed.

Lemma getAdditionalItems_app (deps : Deps) (name : string)
    (fs1 fs2 : list (string * reflect.Type_ * reflect.StructTag)) (defaultRoot : string) :
  getAdditionalItems deps (reflect.StructOf name (fs1 ++ fs2)) defaultRoot
  = match getAdditionalItems deps (reflect.StructOf name fs1) defaultRoot,
          getAdditionalItems deps (reflect.StructOf name fs2) defaultRoot with
    | Some items1, Some items2 => Some (items1 ++ items2)
    | _, _ => None
    end.
Proof.
  induction fs1 as [|[[fname ftype] tag] rest IH].
  - rewrite app_nil_l, getAdditionalItems_nil.
    destruct (getAdditionalItems deps (reflect.StructOf name fs2) defaultRoot); reflexivity.
  - rewrite <- app_comm_cons, !getAdditionalItems_cons, IH.
    destruct (getAdditionalItems deps (reflect.StructOf name rest) defaultRoot) as [r1|];
      destruct (getAdditionalItems deps (reflect.StructOf name fs2) defaultRoot) as [r2|];
      simpl; repeat case_match; simpl; rewrite <- ?app_assoc; reflexivity.
Qed.

Lemma getAdditionalItems_struct_name (deps : Deps) (name1 name2 : string)
    (fs : list (string * reflect.Type_ * reflect.StructTag)) (defaultRoot : string) :
  getAdditionalItems deps (reflect.StructOf name1 fs) defaultRoot
  = getAdditionalItems deps (reflect.StructOf name2 fs) defaultRoot.
Proof. reflexivity. Qed.

(** X3: a field whose type is a struct stands for the fields of that struct:
    the items of a struct with such a field are the items of the struct with
    the inner fields written in its place.  The tag of the field itself plays
    no part, also when it says ignore:"true". *)
Theorem getAdditionalItems_flattens (deps : Deps) (name fname inner_name : string)
    (pre inner post : list (string * reflect.Type_ * reflect.StructTag))
    (tag : reflect.StructTag) (defaultRoot : string) :
  getAdditionalItems deps
    (reflect.StructOf name (pre ++ (fname, reflect.StructOf inner_name inner, tag) :: post))
    defaultRoot
  = getAdditionalItems deps (reflect.StructOf name (pre ++ inner ++ post)) defaultRoot.
Proof.
  rewrite !getAdditionalItems_app, getAdditionalItems_cons.
  rewrite (getAdditionalItems_struct_name deps name inner_name inner).
  destruct (decide (reflect.Kind_of (reflect.StructOf inner_name inner) = reflect.Struct))
    as [_|Hk]; [| exfalso; apply Hk; reflexivity].
  destruct (getAdditionalItems deps (reflect.StructOf name pre) defaultRoot);
    destruct (getAdditionalItems deps (reflect.StructOf inner_name inner) defaultRoot);
    destruct (getAdditionalItems deps (reflect.StructOf name post) defaultRoot);
    reflexivity.
Qed.

(** X4: a field that is no struct contributes nothing when it has no json
    tag, or when its ignore tag is "true": the items are those of the struct
    without the field. *)
Theorem getAdditionalItems_skips (deps : Deps) (name fname : string)
    (pre post : list (string * reflect.Type_ * reflect.StructTag))
    (ftype : reflect.Type_) (tag : reflect.StructTag) (defaultRoot : string) :
  reflect.Kind_of ftype <> reflect.Struct ->
  reflect.Lookup tag "json" = None \/ reflect.Lookup tag "ignore" = Some "true" ->
  getAdditionalItems deps (reflect.StructOf name (pre ++ (fname, ftype, tag) :: post))
    defaultRoot
  = getAdditionalItems deps (reflect.StructOf name (pre ++ post)) defaultRoot.
Proof.
  intros Hkind Htag.
  rewrite !getAdditionalItems_app, getAdditionalItems_cons.
  destruct (decide (reflect.Kind_of ftype = reflect.Struct)) as [|_]; [contradiction |].
  destruct Htag as [-> | ->].
  - destruct (reflect.Lookup tag "ignore"); reflexivity.
  - destruct (reflect.Lookup tag "json"); [| reflexivity].
    destruct (decide ("true" = "true")); [reflexivity | contradiction].
Qed.

Lemma getAdditionalItems_skips_witness :
  getAdditionalItems demo_deps
    (reflect.StructOf "Addition"
       ([ ("Thumbnail", reflect.Plain reflect.Bool "bool", [ ("json", "thumbnail") ]) ]
        ++ ("hidden", reflect.Plain reflect.String "string",
            [ ("json", "hidden"); ("ignore", "true") ]) :: []))
    "/"
  = getAdditionalItems demo_deps
      (reflect.StructOf "Addition"
         ([ ("Thumbnail", reflect.Plain reflect.Bool "bool", [ ("json", "thumbnail") ]) ]
          ++ []))
      "/".
Proof.
  apply (getAdditionalItems_skips demo_deps "Addition" "hidden"
           [ ("Thumbnail", reflect.Plain reflect.Bool "bool", [ ("json", "thumbnail") ]) ]
           [] (reflect.Plain reflect.String "string")
           [ ("json", "hidden"); ("ignore", "true") ] "/").
  - simpl. discriminate.
  - right. reflexivity.
Defined.

Lemma fieldItem_ok (deps : Deps) (name : string) (ftype : reflect.Type_)
    (tag : reflect.StructTag) (defaultRoot : string) :
  item_ok defaultRoot (fieldItem deps name ftype tag defaultRoot).
Proof.
  unfold item_ok, fieldItem, root_folder.
  destruct (decide (name = "root_folder_id" \/ name = "root_folder_path")) as [Hroot|Hroot];
    simpl.
  - split; [case_decide; [discriminate | assumption] |].
    intros _. split.
    + rewrite negb_true_iff, bool_decide_eq_false. reflexivity.
    + intros Hd. case_decide; [exact Hd | assumption].
  - split; [case_decide; [discriminate | assumption] |].
    intros H. contradiction.
Qed.

Lemma well_formed_indirect (t : reflect.Type_) :
  well_formed t = true -> well_formed (indirect t) = true.
Proof. induction t; simpl; auto. Qed.

Lemma indirect_not_pointer (t elem : reflect.Type_) :
  indirect t <> reflect.PointerTo elem.
Proof. induction t; simpl; auto; discriminate. Qed.

Lemma getAdditionalItems_well_formed (deps : Deps) (defaultRoot : string)
    (t : reflect.Type_) :
  well_formed t = true ->
  reflect.Kind_of t = reflect.Struct ->
  exists items,
    getAdditionalItems deps t defaultRoot = Some items
    /\ Forall (item_ok defaultRoot) items.
Proof.
  induction t as [name fields IH | elem _ | k name] using Type_nested_ind.
  - intros Hwf _. simpl in Hwf.
    induction fields as [|[[fname ftype] tag] rest IHrest].
    + exists []. split; [reflexivity | constructor].
    + simpl in Hwf. apply andb_true_iff in Hwf as [Hf Hrest].
      inversion IH as [|? ? IHf IHfs]; subst.
      destruct (IHrest IHfs Hrest) as [items [Hitems Hok]].
      rewrite getAdditionalItems_cons, Hitems. simpl in IHf.
      destruct (decide (reflect.Kind_of ftype = reflect.Struct)) as [Hk|Hk].
      * destruct (IHf Hf Hk) as [nested [-> Hnested]].
        eexists. split; [reflexivity |]. apply Forall_app. split; assumption.
      * pose proof (fieldItem_ok deps) as Hitem.
        repeat case_match; simpl; eexists; (split; [reflexivity |]);
          try assumption; constructor; auto.
  - discriminate.
  - intros Hwf Hk. simpl in *. subst k. discriminate.
Qed.

(** X5: on a struct type, getAdditionalItems does not panic, and every item
    it builds has a type, "string" if nothing else: the type is never
    empty.  An item named root_folder_id or root_folder_path is required
    exactly when its default is not empty, and its default is not empty
    when the driver's default root is not. *)
Theorem getAdditionalItems_items_ok (deps : Deps) (t : reflect.Type_)
    (defaultRoot : string) :
  well_formed t = true ->
  reflect.Kind_of t = reflect.Struct ->
  exists items,
    getAdditionalItems deps t defaultRoot = Some items
    /\ forall it, it ∈ items ->
         Item.Type_ it <> ""
         /\ (Item.Name it = "root_folder_id" \/ Item.Name it = "root_folder_path" ->
             (Item.Required it = true <-> Item.Default it <> "")
             /\ (defaultRoot <> "" -> Item.Default it <> "")).
Proof.
  intros Hwf Hk.
  destruct (getAdditionalItems_well_formed deps defaultRoot t Hwf Hk) as [items [H Hok]].
  exists items. split; [exact H |].
  intros it Hin. rewrite Forall_forall in Hok. exact (Hok it Hin).
Qed.

Lemma getAdditionalItems_items_ok_witness :
  exists items,
    getAdditionalItems demo_deps local_addition "/" = Some items
    /\ forall it, it ∈ items ->
         Item.Type_ it <> ""
         /\ (Item.Name it = "root_folder_id" \/ Item.Name it = "root_folder_path" ->
             (Item.Required it = true <-> Item.Default it <> "")
             /\ ("/" <> "" -> Item.Default it <> "")).
Proof.
  apply (getAdditionalItems_items_ok demo_deps local_addition "/"); reflexivity.
Defined.

(** Membership in a list of literal names, settled by evaluation. *)
Ltac ground_elem :=
  match goal with
  | |- ?x ∈ ?l => apply (bool_decide_unpack (x ∈ l)); vm_compute; exact I
  | |- ?x ∉ ?l => apply (bool_decide_eq_false_1 (x ∈ l)); vm_compute; reflexivity
  | |- NoDup ?l => apply (bool_decide_unpack (NoDup l)); vm_compute; exact I
  end.

(** An equivalence between such a membership and equations on flags. *)
Ltac ground_iff :=
  match goal with
  | |- ?x ∈ ?l <-> ?Q =>
      let b := eval vm_compute in (bool_decide (x ∈ l)) in
      match b with
      | true =>
          let Hin := fresh "Hin" in
          assert (Hin : x ∈ l) by ground_elem;
          split; [intros _; auto | intros _; exact Hin]
      | false =>
          let Hnin := fresh "Hnin" in
          assert (Hnin : x ∉ l) by ground_elem;
          split; [intros ?; contradiction | intros ?; exfalso; intuition congruence]
      end
  end.

Lemma getMainItems_depends (deps : Deps) (c1 c2 : Config.t) :
  Config.NoCache c1 = Config.NoCache c2 ->
  MustProxy deps c1 = MustProxy deps c2 ->
  Config.ProxyRangeOption c1 = Config.ProxyRangeOption c2 ->
  Config.LocalSort c1 = Config.LocalSort c2 ->
  (Config.Name c1 = "139Yun" <-> Config.Name c2 = "139Yun") ->
  getMainItems deps c1 = getMainItems deps c2.
Proof.
  intros Hcache Hproxy Hrange Hsort Hname. unfold getMainItems.
  rewrite Hcache, Hproxy, Hrange, Hsort.
  destruct (decide (Config.Name c1 = "139Yun")) as [H1|H1];
    destruct (decide (Config.Name c2 = "139Yun")) as [H2|H2];
    try reflexivity; exfalso; tauto.
Qed.

(** X6: the common items of a driver, whatever its configuration.  Their
    names are pairwise distinct; mount_path comes first and enable_sign last;
    webdav_policy is always there, and its default is native_proxy for a
    driver that must proxy and 302_redirect otherwise.  cache_expiration is
    there unless the driver has NoCache, web_proxy unless it must proxy,
    proxy_range when it need not proxy and has ProxyRangeOption, order_by and
    order_direction when it has LocalSort.  Two configurations that agree on
    these four answers, and on whether the name is 139Yun, get the same
    items. *)
Theorem getMainItems_names (deps : Deps) (config : Config.t) :
  NoDup (item_names (getMainItems deps config))
  /\ head (item_names (getMainItems deps config)) = Some "mount_path"
  /\ last (item_names (getMainItems deps config)) = Some "enable_sign"
  /\ (exists it, it ∈ getMainItems deps config
        /\ Item.Name it = "webdav_policy"
        /\ Item.Required it = true
        /\ Item.Default it
           = if MustProxy deps config then "native_proxy" else "302_redirect")
  /\ ("cache_expiration" ∈ item_names (getMainItems deps config)
      <-> Config.NoCache config = false)
  /\ ("web_proxy" ∈ item_names (getMainItems deps config)
      <-> MustProxy deps config = false)
  /\ ("proxy_range" ∈ item_names (getMainItems deps config)
      <-> MustProxy deps config = false /\ Config.ProxyRangeOption config = true)
  /\ ("order_by" ∈ item_names (getMainItems deps config)
      <-> Config.LocalSort config = true)
  /\ ("order_direction" ∈ item_names (getMainItems deps config)
      <-> Config.LocalSort config = true)
  /\ (forall other,
        Config.NoCache config = Config.NoCache other ->
        MustProxy deps config = MustProxy deps other ->
        Config.ProxyRangeOption config = Config.ProxyRangeOption other ->
        Config.LocalSort config = Config.LocalSort other ->
        (Config.Name config = "139Yun" <-> Config.Name other = "139Yun") ->
        getMainItems deps config = getMainItems deps other).
Proof.
  assert (Hdep := getMainItems_depends deps config).
  split; [| split; [| split; [| split; [| split; [| split; [| split; [| split;
    [| split; [| exact Hdep]]]]]]]]]; clear Hdep;
    unfold getMainItems, item_names;
    destruct (MustProxy deps config);
    destruct (Config.NoCache config), (Config.ProxyRangeOption config),
      (Config.LocalSort config);
    destruct (decide (Config.Name config = "139Yun"));
    simpl;
    first
      [ reflexivity
      | ground_elem
      | ground_iff
      | exists (Item.mk "webdav_policy" (conf_TypeSelect deps) "native_proxy"
                  "use_proxy_url,native_proxy" true "");
        solve [split; [repeat first [apply list_elem_of_here | apply list_elem_of_further]
                      | repeat split]]
      | exists (Item.mk "webdav_policy" (conf_TypeSelect deps) "302_redirect"
                  "302_redirect,use_proxy_url,native_proxy" true "");
        solve [split; [repeat first [apply list_elem_of_here | apply list_elem_of_further]
                      | repeat split]] ].
Qed.

(** ** What registerDriverItems records *)

(** X7: for a built-in driver, whose addition is a struct or a pointer (to a
    pointer ...) to a struct, registerDriverItems called with the registry
    mutex free returns, and what it leaves under the driver's name is the
    common items of the configuration, the items of the struct and the
    configuration itself, replacing what was recorded under the name.  The
    other names, driverMap and the mutex are as before. *)
Theorem registerDriverItems_struct_addition (deps : Deps) (config : Config.t)
    (t : reflect.Type_) (st : State) :
  driverMutex (reg st) = sync.unlocked ->
  well_formed t = true ->
  reflect.Kind_of (indirect t) = reflect.Struct ->
  exists items st',
    getAdditionalItems deps (indirect t) (Config.DefaultRoot config) = Some items
    /\ registerDriverItems deps config (ValueOf t) st = Returns tt st'
    /\ driverInfoMap (reg st') !! Config.Name config
       = Some (Info.mk (getMainItems deps config) items config)
    /\ (forall n, n <> Config.Name config ->
          driverInfoMap (reg st') !! n = driverInfoMap (reg st) !! n)
    /\ driverMap (reg st') = driverMap (reg st)
    /\ driverMutex (reg st') = sync.unlocked
    /\ mgr st' = mgr st /\ heap st' = heap st /\ os st' = os st /\ logs st' = logs st.
Proof.
  intros Hfree Hwf Hk.
  destruct (getAdditionalItems_well_formed deps (Config.DefaultRoot config) (indirect t)
              (well_formed_indirect t Hwf) Hk) as [items [Hitems _]].
  exists items. eexists. split; [exact Hitems |].
  split.
  { apply (registerDriverItems_struct deps config (ValueOf t) items st Hfree).
    - simpl. rewrite Hk. discriminate.
    - exact Hitems. }
  simpl. split; [apply lookup_insert_eq |].
  split; [intros n Hn; apply lookup_insert_ne; congruence |].
  destruct_state st. repeat split; assumption.
Qed.

Lemma registerDriverItems_struct_addition_witness :
  exists items st',
    getAdditionalItems demo_deps (indirect (reflect.PointerTo local_addition))
      (Config.DefaultRoot local_config) = Some items
    /\ registerDriverItems demo_deps local_config
         (ValueOf (reflect.PointerTo local_addition)) initial = Returns tt st'
    /\ driverInfoMap (reg st') !! Config.Name local_config
       = Some (Info.mk (getMainItems demo_deps local_config) items local_config)
    /\ (forall n, n <> Config.Name local_config ->
          driverInfoMap (reg st') !! n = driverInfoMap (reg initial) !! n)
    /\ driverMap (reg st') = driverMap (reg initial)
    /\ driverMutex (reg st') = sync.unlocked
    /\ mgr st' = mgr initial /\ heap st' = heap initial /\ os st' = os initial
    /\ logs st' = logs initial.
Proof.
  apply (registerDriverItems_struct_addition demo_deps local_config
           (reflect.PointerTo local_addition) initial); reflexivity.
Defined.

(** X8: an addition that, pointers followed, is neither a struct nor a map
    (a string, a slice, a number) makes registerDriverItems panic in
    getAdditionalItems: reflect's NumField is defined on structs only.  The
    deferred Unlock runs while the panic unwinds, so the mutex is free again,
    and nothing was recorded: the state is the one the call started in. *)
Theorem registerDriverItems_not_a_struct (deps : Deps) (config : Config.t)
    (addition : Additional) (st : State) :
  driverMutex (reg st) = sync.unlocked ->
  reflect.Kind_of (indirect (TypeOf addition)) <> reflect.Struct ->
  reflect.Kind_of (indirect (TypeOf addition)) <> reflect.Map ->
  registerDriverItems deps config addition st = Panics NotAStruct st.
Proof.
  intros Hfree Hstruct Hmap.
  unfold registerDriverItems. unfold_mutex. unfold_go.
  destruct_state st. inversion Hfree; subst. simpl.
  destruct (decide (reflect.Kind_of (indirect (TypeOf addition)) = reflect.Map))
    as [|_]; [contradiction |].
  destruct (indirect (TypeOf addition)) as [name fields | elem | k name] eqn:Ht.
  - exfalso. apply Hstruct. reflexivity.
  - exfalso. exact (indirect_not_pointer _ _ Ht).
  - reflexivity.
Qed.

Lemma registerDriverItems_not_a_struct_witness :
  registerDriverItems demo_deps local_config
    (ValueOf (reflect.PointerTo (reflect.Plain reflect.String "string"))) initial
  = Panics NotAStruct initial.
Proof.
  apply (registerDriverItems_not_a_struct demo_deps local_config
           (ValueOf (reflect.PointerTo (reflect.Plain reflect.String "string"))) initial).
  - reflexivity.
  - simpl. discriminate.
  - simpl. discriminate.
Defined.

(** ** Invariants: what a call preserves, whatever its outcome *)

Lemma preserves_ret {A} (P : State -> Prop) (a : A) : preserves P (ret a).
Proof. intros st H. exact H. Qed.

Lemma preserves_bind {A B} (P : State -> Prop) (m : go A) (k : A -> go B) :
  preserves P m -> (forall a, preserves P (k a)) -> preserves P (bind m k).
Proof.
  intros Hm Hk st H. unfold bind. specialize (Hm st H).
  destruct (m st) as [a st1|st1|flt st1]; simpl in *; [| exact Hm | exact Hm].
  apply Hk. exact Hm.
Qed.

Lemma preserves_defer {A} (P : State -> Prop) (d : go unit) (body : go A) :
  preserves P d -> preserves P body -> preserves P (defer d body).
Proof.
  intros Hd Hb st H. unfold defer. specialize (Hb st H).
  destruct (body st) as [a st1|st1|flt st1]; simpl in *.
  - specialize (Hd st1 Hb). destruct (d st1); simpl in *; assumption.
  - exact Hb.
  - destruct (fatal flt); [exact Hb |].
    specialize (Hd st1 Hb). destruct (d st1); simpl in *; assumption.
Qed.

Lemma preserves_for_range {A} (P : State -> Prop) (xs : list A) (body : A -> go unit) :
  (forall x, preserves P (body x)) -> preserves P (for_range xs body).
Proof.
  intros Hbody. induction xs as [|x xs IH]; simpl.
  - apply preserves_ret.
  - apply preserves_bind; [apply Hbody | intros _; exact IH].
Qed.

Lemma preserves_keeps {A X} (P : State -> Prop) (f : State -> X) (m : go A) :
  (forall s1 s2, f s1 = f s2 -> P s2 -> P s1) ->
  keeps f m -> preserves P m.
Proof. intros Hf Hm st H. apply (Hf _ st); [apply Hm | exact H]. Qed.

(** The part of the state [same_names] speaks of. *)
Lemma same_names_maps (s1 s2 : State) :
  (driverMap (reg s1), driverInfoMap (reg s1)) = (driverMap (reg s2), driverInfoMap (reg s2)) ->
  same_names s2 -> same_names s1.
Proof. intros Heq H n. inversion Heq as [[H1 H2]]. rewrite H1, H2. apply H. Qed.

Lemma keeps_pair {A X Y} (f : State -> X) (g : State -> Y) (m : go A) :
  keeps f m -> keeps g m -> keeps (fun st => (f st, g st)) m.
Proof. intros Hf Hg st. rewrite Hf, Hg. reflexivity. Qed.

Lemma UnregisterDriver_same_names (name : string) :
  preserves same_names (UnregisterDriver name).
Proof.
  intros st H. unfold UnregisterDriver. unfold_mutex. unfold_go.
  destruct_state st. destruct dw; [exact H |]. destruct dr; [| exact H].
  simpl. intros n. simpl.
  destruct (decide (n = name)) as [->|Hn].
  - rewrite !lookup_delete_eq. split; intros [? ?]; discriminate.
  - rewrite !lookup_delete_ne by congruence. apply H.
Qed.

Lemma RegisterDriver_same_names (deps : Deps) (d : DriverConstructor) :
  preserves same_names (RegisterDriver deps d).
Proof.
  apply (preserves_keeps _ (fun st => (driverMap (reg st), driverInfoMap (reg st))));
    [apply same_names_maps |].
  apply keeps_RegisterDriver. intros; reflexivity.
Qed.

Lemma LoadPlugin_same_names (deps : Deps) (world : World) (path : string) :
  preserves same_names (LoadPlugin deps world path).
Proof.
  apply (preserves_keeps _ (fun st => (driverMap (reg st), driverInfoMap (reg st))));
    [apply same_names_maps |].
  apply keeps_pair; [apply LoadPlugin_keeps_driverMap | apply LoadPlugin_keeps_driverInfoMap].
Qed.

(** A step that does not write the registry's maps. *)
Ltac same_names_prim :=
  let st := fresh "st" in let H := fresh "H" in
  intros st H; unfold_mutex; unfold_go; simpl;
  repeat case_match; simpl; exact H.

Ltac same_names_step :=
  first
    [ apply RegisterDriver_same_names
    | apply UnregisterDriver_same_names
    | apply LoadPlugin_same_names
    | apply preserves_ret
    | apply preserves_bind; [| intros ?]
    | apply preserves_defer
    | apply preserves_for_range; intros ?
    | progress case_match ].

Ltac same_names_tac := repeat same_names_step; try (same_names_prim; fail).

Lemma UnloadPlugin_same_names (name : string) :
  preserves same_names (UnloadPlugin name).
Proof. unfold UnloadPlugin. same_names_tac. Qed.

Lemma LoadPluginsFromDir_same_names (deps : Deps) (world : World) (dir : string) :
  preserves same_names (LoadPluginsFromDir deps world dir).
Proof. unfold LoadPluginsFromDir, scan_entry. same_names_tac. Qed.

(** X9: driverMap and driverInfoMap hold the same names in the starting
    state, and every exported operation of the registry and of the manager
    leaves them so, whether it returns, parks or panics half way.  While that
    is the case GetDriverNames, which reads driverInfoMap, lists exactly the
    names for which IsDriverRegistered, which reads driverMap, answers
    true. *)
Theorem registry_maps_same_names (deps : Deps) (world : World) :
  same_names initial
  /\ (forall d, preserves same_names (RegisterDriver deps d))
  /\ (forall n, preserves same_names (UnregisterDriver n))
  /\ (forall n, preserves same_names (IsDriverRegistered n))
  /\ (forall n, preserves same_names (GetDriver n))
  /\ preserves same_names GetDriverNames
  /\ preserves same_names GetDriverInfoMap
  /\ (forall path, preserves same_names (LoadPlugin deps world path))
  /\ (forall dir, preserves same_names (LoadPluginsFromDir deps world dir))
  /\ (forall p, preserves same_names (UnloadPlugin p))
  /\ (forall p, preserves same_names (ReloadPlugin deps world p))
  /\ preserves same_names (RescanPlugins deps world)
  /\ preserves same_names (loadPlugins deps world)
  /\ preserves same_names GetLoadedPlugins
  /\ (forall p, preserves same_names (GetPluginDrivers p))
  /\ preserves same_names Shutdown
  /\ (forall st names n,
        same_names st ->
        GetDriverNames st = Returns names st ->
        (n ∈ names <-> IsDriverRegistered n st = Returns true st)).
Proof.
  split.
  { intros n. simpl. rewrite !lookup_empty. split; intros [? ?]; discriminate. }
  split; [intros d; apply RegisterDriver_same_names |].
  split; [intros n; apply UnregisterDriver_same_names |].
  split; [intros n; unfold IsDriverRegistered; same_names_tac |].
  split; [intros n; unfold GetDriver; same_names_tac |].
  split; [unfold GetDriverNames; same_names_tac |].
  split; [unfold GetDriverInfoMap; same_names_tac |].
  split; [intros path; apply LoadPlugin_same_names |].
  split; [intros dir; apply LoadPluginsFromDir_same_names |].
  split; [intros p; apply UnloadPlugin_same_names |].
  split.
  { intros p. unfold ReloadPlugin.
    repeat first [ apply UnloadPlugin_same_names | same_names_step ];
      try (same_names_prim; fail). }
  split.
  { unfold RescanPlugins.
    repeat first [ apply LoadPluginsFromDir_same_names | same_names_step ];
      try (same_names_prim; fail). }
  split.
  { unfold loadPlugins.
    repeat first [ apply LoadPluginsFromDir_same_names | same_names_step ];
      try (same_names_prim; fail). }
  split; [unfold GetLoadedPlugins; same_names_tac |].
  split; [intros p; unfold GetPluginDrivers; same_names_tac |].
  split; [unfold Shutdown; same_names_tac |].
  intros st names n Hsame Hnames.
  assert (Hw : sync.writer (driverMutex (reg st)) = false).
  { revert Hnames. unfold GetDriverNames. unfold_mutex. unfold_go.
    destruct_state st. destruct dw; [discriminate | reflexivity]. }
  rewrite GetDriverNames_returns in Hnames by exact Hw.
  inversion Hnames as [Heq]. rewrite elem_of_map_keys, <- (Hsame n).
  rewrite IsDriverRegistered_returns by exact Hw.
  split.
  - intros Hn. rewrite bool_decide_eq_true_2 by exact Hn. reflexivity.
  - intros Hr. inversion Hr as [Hb]. apply bool_decide_eq_true in Hb. exact Hb.
Qed.

(** ** Lock discipline *)

Lemma balanced_ret {A} (a : A) : balanced (ret a).
Proof. intros st. reflexivity. Qed.

Lemma balanced_bind {A B} (m : go A) (k : A -> go B) :
  balanced m -> (forall a, balanced (k a)) -> balanced (bind m k).
Proof.
  intros Hm Hk st. unfold bind. specialize (Hm st).
  destruct (m st) as [a st1|st1|flt st1]; [| exact I | exact Hm].
  specialize (Hk a st1). destruct (k a st1) as [b st2|st2|flt st2]; [| exact I |].
  - congruence.
  - destruct Hk as [Hf Hl]. split; congruence.
Qed.

Lemma balanced_for_range {A} (xs : list A) (body : A -> go unit) :
  (forall x, balanced (body x)) -> balanced (for_range xs body).
Proof.
  intros Hbody. induction xs as [|x xs IH]; simpl.
  - apply balanced_ret.
  - apply balanced_bind; [apply Hbody | intros _; exact IH].
Qed.

(** [m.mu.Lock(); defer m.mu.Unlock(); body] *)
Lemma balanced_mu_Lock {A} (body : go A) :
  balanced body -> balanced (mu_Lock ;; defer mu_Unlock body).
Proof.
  intros Hb st. unfold bind, defer. unfold_mutex. unfold on_mutex.
  destruct_state st. destruct mw; [exact I |]. destruct mr; [| exact I].
  match goal with |- context [body ?s] => specialize (Hb s); destruct (body s) as [a s1|s1|flt s1] end;
    [| exact I |].
  - destruct s1 as [[dm1 dim1 dmx1] [pl1 [mw1 mr1]] h1 o1 lg1].
    unfold locks in *. simpl in *. inversion Hb; subst. reflexivity.
  - destruct Hb as [Hf Hl]. rewrite Hf.
    destruct s1 as [[dm1 dim1 dmx1] [pl1 [mw1 mr1]] h1 o1 lg1].
    unfold locks in *. simpl in *. inversion Hl; subst. simpl.
    split; [assumption | reflexivity].
Qed.

(** [m.mu.RLock(); defer m.mu.RUnlock(); body] *)
Lemma balanced_mu_RLock {A} (body : go A) :
  balanced body -> balanced (mu_RLock ;; defer mu_RUnlock body).
Proof.
  intros Hb st. unfold bind, defer. unfold_mutex. unfold on_mutex.
  destruct_state st. destruct mw; [exact I |].
  match goal with |- context [body ?s] => specialize (Hb s); destruct (body s) as [a s1|s1|flt s1] end;
    [| exact I |].
  - destruct s1 as [[dm1 dim1 dmx1] [pl1 [mw1 mr1]] h1 o1 lg1].
    unfold locks in *. simpl in *. inversion Hb; subst. reflexivity.
  - destruct Hb as [Hf Hl]. rewrite Hf.
    destruct s1 as [[dm1 dim1 dmx1] [pl1 [mw1 mr1]] h1 o1 lg1].
    unfold locks in *. simpl in *. inversion Hl; subst. simpl.
    split; [assumption | reflexivity].
Qed.

Lemma RegisterDriver_blocks (deps : Deps) (d : DriverConstructor) (st : State) :
  exists st', RegisterDriver deps d st = Blocks st'.
Proof.
  unfold RegisterDriver, registerDriverItems. unfold_mutex. unfold_go.
  destruct_state st. destruct dw; [eexists; reflexivity |].
  destruct dr; eexists; reflexivity.
Qed.

Lemma RegisterDriver_balanced (deps : Deps) (d : DriverConstructor) :
  balanced (RegisterDriver deps d).
Proof. intros st. destruct (RegisterDriver_blocks deps d st) as [st' ->]. exact I. Qed.

Lemma registerDriverItems_balanced (deps : Deps) (c : Config.t) (a : Additional) :
  balanced (registerDriverItems deps c a).
Proof.
  intros st. unfold registerDriverItems. unfold_mutex. unfold_go.
  destruct_state st. destruct dw; [exact I |]. destruct dr; [| exact I].
  simpl. generalize (getMainItems deps c). intros mainItems.
  destruct (decide (reflect.Kind_of (indirect (TypeOf a)) = reflect.Map));
    [reflexivity |].
  destruct (getAdditionalItems deps (indirect (TypeOf a)) (Config.DefaultRoot c));
    simpl; [reflexivity | split; reflexivity].
Qed.

Lemma UnregisterDriver_balanced (name : string) : balanced (UnregisterDriver name).
Proof.
  intros st. unfold UnregisterDriver. unfold_mutex. unfold_go.
  destruct_state st. destruct dw; [exact I |]. destruct dr; [| exact I].
  reflexivity.
Qed.

(** Case analysis on an innermost [match] of the goal. *)
Ltac inner_case :=
  match goal with
  | |- context [match ?x with _ => _ end] =>
      lazymatch x with
      | context [match _ with _ => _ end] => fail
      | _ => destruct x eqn:?
      end
  end.

(** A step that touches no mutex, or a reader of the registry. *)
Ltac balanced_prim :=
  let st := fresh "st" in
  intros st; unfold_mutex; unfold_go; destruct_state st;
  simpl; repeat (inner_case; simpl); auto.

Ltac balanced_step :=
  first
    [ apply RegisterDriver_balanced
    | apply UnregisterDriver_balanced
    | apply balanced_mu_Lock
    | apply balanced_mu_RLock
    | apply balanced_ret
    | apply balanced_bind; [| intros ?]
    | apply balanced_for_range; intros ?
    | progress case_match ].

Ltac balanced_tac := repeat balanced_step; try (balanced_prim; fail).

Lemma IsDriverRegistered_balanced (name : string) : balanced (IsDriverRegistered name).
Proof. unfold IsDriverRegistered. balanced_prim. Qed.

Lemma LoadPlugin_balanced (deps : Deps) (world : World) (path : string) :
  balanced (LoadPlugin deps world path).
Proof.
  unfold LoadPlugin, registerPluginDriver.
  repeat first [ apply IsDriverRegistered_balanced | balanced_step ];
    try (balanced_prim; fail).
Qed.

Lemma UnloadPlugin_balanced (name : string) : balanced (UnloadPlugin name).
Proof. unfold UnloadPlugin. balanced_tac. Qed.

Lemma LoadPluginsFromDir_balanced (deps : Deps) (world : World) (dir : string) :
  balanced (LoadPluginsFromDir deps world dir).
Proof.
  unfold LoadPluginsFromDir, scan_entry.
  repeat first [ apply LoadPlugin_balanced | balanced_step ];
    try (balanced_prim; fail).
Qed.

(** X10: lock discipline.  No operation of the registry or of the manager
    ever unlocks a mutex that is not locked, and an operation that returns,
    or that panics, leaves the manager's mutex and the registry's mutex
    exactly as it found them: the deferred unlocks run on every way out.
    Only a call that is parked keeps what it holds. *)
Theorem operations_balanced (deps : Deps) (world : World) :
  (forall d, balanced (RegisterDriver deps d))
  /\ (forall c a, balanced (registerDriverItems deps c a))
  /\ (forall n, balanced (UnregisterDriver n))
  /\ (forall n, balanced (IsDriverRegistered n))
  /\ (forall n, balanced (GetDriver n))
  /\ balanced GetDriverNames
  /\ balanced GetDriverInfoMap
  /\ (forall path, balanced (LoadPlugin deps world path))
  /\ (forall dir, balanced (LoadPluginsFromDir deps world dir))
  /\ (forall p, balanced (UnloadPlugin p))
  /\ (forall p, balanced (ReloadPlugin deps world p))
  /\ balanced (RescanPlugins deps world)
  /\ balanced (loadPlugins deps world)
  /\ balanced GetLoadedPlugins
  /\ (forall p, balanced (GetPluginDrivers p))
  /\ balanced Shutdown.
Proof.
  split; [intros d; apply RegisterDriver_balanced |].
  split; [intros c a; apply registerDriverItems_balanced |].
  split; [intros n; apply UnregisterDriver_balanced |].
  split; [intros n; apply IsDriverRegistered_balanced |].
  split; [intros n; unfold GetDriver; balanced_prim |].
  split; [unfold GetDriverNames; balanced_prim |].
  split; [unfold GetDriverInfoMap; balanced_prim |].
  split; [intros path; apply LoadPlugin_balanced |].
  split; [intros dir; apply LoadPluginsFromDir_balanced |].
  split; [intros p; apply UnloadPlugin_balanced |].
  split.
  { intros p. unfold ReloadPlugin.
    repeat first [ apply UnloadPlugin_balanced | apply LoadPlugin_balanced | balanced_step ];
      try (balanced_prim; fail). }
  split.
  { unfold RescanPlugins.
    repeat first [ apply LoadPluginsFromDir_balanced | balanced_step ];
      try (balanced_prim; fail). }
  split.
  { unfold loadPlugins.
    repeat first [ apply LoadPluginsFromDir_balanced | balanced_step ];
      try (balanced_prim; fail). }
  split; [unfold GetLoadedPlugins; balanced_tac |].
  split; [intros p; unfold GetPluginDrivers; balanced_tac |].
  unfold Shutdown. balanced_tac.
Qed.

(** ** The manager: operations by name *)

Lemma GetPluginDrivers_returns (p : string) (st : State) :
  sync.writer (mu (mgr st)) = false ->
  GetPluginDrivers p st
  = match table st !! p with
    | None => Returns (Err (ErrNotFound p)) st
    | Some l =>
        match instances (heap st) !! l with
        | Some inst => Returns (Ok (PluginInstance.Drivers inst)) st
        | None => Panics NilDereference st
        end
    end.
Proof.
  intros Hw. unfold GetPluginDrivers, table. unfold_mutex. unfold_go.
  destruct_state st. subst mw. simpl.
  destruct (default ∅ (maps h !! pl) !! p) as [l|]; simpl; [| reflexivity].
  destruct (instances h !! l); reflexivity.
Qed.

(** X11: a name that is not in the plugin table.  With the manager's lock
    free, UnloadPlugin and GetPluginDrivers return the error "plugin ... not
    found", and so does ReloadPlugin; none of them changes the state: no
    driver is unregistered, no process is touched, nothing is logged. *)
Theorem unknown_plugin_not_found (deps : Deps) (world : World) (p : string)
    (st : State) :
  mu (mgr st) = sync.unlocked ->
  table st !! p = None ->
  UnloadPlugin p st = Returns (Some (ErrNotFound p)) st
  /\ GetPluginDrivers p st = Returns (Err (ErrNotFound p)) st
  /\ ReloadPlugin deps world p st = Returns (Some (ErrNotFound p)) st.
Proof.
  intros Hmu Htable.
  split; [apply UnloadPlugin_unknown; assumption |].
  split; [| apply ReloadPlugin_unknown; assumption].
  rewrite GetPluginDrivers_returns by (rewrite Hmu; reflexivity).
  rewrite Htable. reflexivity.
Qed.

Lemma unknown_plugin_not_found_witness :
  UnloadPlugin "ghost" demo_loaded = Returns (Some (ErrNotFound "ghost")) demo_loaded
  /\ GetPluginDrivers "ghost" demo_loaded = Returns (Err (ErrNotFound "ghost")) demo_loaded
  /\ ReloadPlugin demo_deps demo_world "ghost" demo_loaded
     = Returns (Some (ErrNotFound "ghost")) demo_loaded.
Proof.
  apply (unknown_plugin_not_found demo_deps demo_world "ghost" demo_loaded).
  - vm_compute. reflexivity.
  - vm_compute. reflexivity.
Defined.

(** X12: unloading a loaded plugin with both mutexes free.  UnloadPlugin
    returns nil; the plugin's process is killed and no other process is
    touched; the entry is deleted from the table and no other entry changes;
    the names of the plugin's recorded driver list are gone from driverMap
    and driverInfoMap and every other name is as before; both mutexes are
    free again.  The instance and its driver list stay on the heap for
    whoever holds a pointer to them.  From then on the name is unknown:
    GetPluginDrivers and a second UnloadPlugin answer not found. *)
Theorem UnloadPlugin_effect (p : string) (st : State) (l : loc)
    (inst : PluginInstance.t) :
  mu (mgr st) = sync.unlocked ->
  driverMutex (reg st) = sync.unlocked ->
  table st !! p = Some l ->
  instances (heap st) !! l = Some inst ->
  exists st',
    UnloadPlugin p st = Returns None st'
    /\ table st' = delete p (table st)
    /\ procs (os st') = alter (fun _ => Exited) (PluginInstance.Client inst) (procs (os st))
    /\ started (os st') = started (os st)
    /\ instances (heap st') = instances (heap st)
    /\ arrays (heap st') = arrays (heap st)
    /\ (forall n, driverMap (reg st') !! n
                  = if decide (n ∈ slice_elems (PluginInstance.Drivers inst) st)
                    then None else driverMap (reg st) !! n)
    /\ (forall n, driverInfoMap (reg st') !! n
                  = if decide (n ∈ slice_elems (PluginInstance.Drivers inst) st)
                    then None else driverInfoMap (reg st) !! n)
    /\ mu (mgr st') = sync.unlocked
    /\ driverMutex (reg st') = sync.unlocked
    /\ GetPluginDrivers p st' = Returns (Err (ErrNotFound p)) st'
    /\ UnloadPlugin p st' = Returns (Some (ErrNotFound p)) st'.
Proof.
  intros Hmu Hdmu Htable Hinst.
  destruct (UnloadPlugin_known p st l inst Hmu Hdmu Htable Hinst) as [st' Hun].
  pose proof (UnloadPlugin_table p st st' None l inst Htable Hinst Hun) as Htab.
  destruct (UnloadPlugin_returns p st st' None l inst Htable Hinst Hun)
    as (_ & _ & Hmgr & Hprocs & Hstarted & Hheap & Hdm & Hdim & Hdmu').
  assert (Hmu' : mu (mgr st') = sync.unlocked) by (rewrite Hmgr; exact Hmu).
  assert (Hgone : table st' !! p = None) by (rewrite Htab; apply lookup_delete_eq).
  exists st'. split; [exact Hun |]. split; [exact Htab |].
  split; [exact Hprocs |]. split; [exact Hstarted |].
  split; [rewrite Hheap; reflexivity |]. split; [rewrite Hheap; reflexivity |].
  split; [exact Hdm |]. split; [exact Hdim |].
  split; [exact Hmu' |]. split; [congruence |].
  split.
  - rewrite GetPluginDrivers_returns by (rewrite Hmu'; reflexivity).
    rewrite Hgone. reflexivity.
  - apply UnloadPlugin_unknown; assumption.
Qed.

Lemma UnloadPlugin_effect_witness :
  exists st',
    UnloadPlugin "demo" demo_loaded = Returns None st'
    /\ table st' = delete "demo" (table demo_loaded)
    /\ procs (os st')
       = alter (fun _ => Exited)
           (PluginInstance.Client (PluginInstance.mk "demo" "plugins/demo" 0 1 ∅))
           (procs (os demo_loaded))
    /\ started (os st') = started (os demo_loaded)
    /\ instances (heap st') = instances (heap demo_loaded)
    /\ arrays (heap st') = arrays (heap demo_loaded)
    /\ (forall n, driverMap (reg st') !! n
                  = if decide (n ∈ slice_elems
                                     (PluginInstance.Drivers
                                        (PluginInstance.mk "demo" "plugins/demo" 0 1 ∅))
                                     demo_loaded)
                    then None else driverMap (reg demo_loaded) !! n)
    /\ (forall n, driverInfoMap (reg st') !! n
                  = if decide (n ∈ slice_elems
                                     (PluginInstance.Drivers
                                        (PluginInstance.mk "demo" "plugins/demo" 0 1 ∅))
                                     demo_loaded)
                    then None else driverInfoMap (reg demo_loaded) !! n)
    /\ mu (mgr st') = sync.unlocked
    /\ driverMutex (reg st') = sync.unlocked
    /\ GetPluginDrivers "demo" st' = Returns (Err (ErrNotFound "demo")) st'
    /\ UnloadPlugin "demo" st' = Returns (Some (ErrNotFound "demo")) st'.
Proof.
  apply (UnloadPlugin_effect "demo" demo_loaded 2
           (PluginInstance.mk "demo" "plugins/demo" 0 1 ∅)).
  - vm_compute. reflexivity.
  - vm_compute. reflexivity.
  - vm_compute. reflexivity.
  - vm_compute. reflexivity.
Defined.

(** For a name of the table, the driver slice recorded in its instance;
    the state is as before. *)
Lemma GetPluginDrivers_known (p : string) (st : State) (l : loc)
    (inst : PluginInstance.t) :
  sync.writer (mu (mgr st)) = false ->
  table st !! p = Some l ->
  instances (heap st) !! l = Some inst ->
  GetPluginDrivers p st = Returns (Ok (PluginInstance.Drivers inst)) st.
Proof.
  intros Hw Htable Hinst. rewrite GetPluginDrivers_returns by exact Hw.
  rewrite Htable, Hinst. reflexivity.
Qed.

(** ** Loading: what is recorded, and what becomes of the process *)

Section LoadRecords.
Context (deps : Deps) (world : World).

(** X13: a load that returns nil for a plugin whose identity name was not
    in the table has recorded the plugin under that name: the new entry
    points to an instance with the identity name, the path the plugin was
    loaded from, the process the load started (which is running) and a
    slice holding the driver names the plugin reported, in the order it
    reported them; GetPluginDrivers returns that slice.  The other entries
    of the table are as before. *)
Theorem LoadPlugin_records_plugin (pluginPath : string) (st st' : State)
    (i : PluginInfo.t) :
  LoadPlugin deps world pluginPath st = Returns None st' ->
  info (exec world pluginPath (started (os st))) = Ok i ->
  table st !! PluginInfo.Name i = None ->
  exists names l s,
    drivers (exec world pluginPath (started (os st))) = Ok names
    /\ table st' = <[PluginInfo.Name i := l]> (table st)
    /\ instances (heap st') !! l
       = Some (PluginInstance.mk (PluginInfo.Name i) pluginPath (started (os st)) s ∅)
    /\ slice_elems s st' = names
    /\ GetPluginDrivers (PluginInfo.Name i) st' = Returns (Ok s) st'
    /\ procs (os st') !! started (os st) = Some Running
    /\ next (heap st) <= s /\ next (heap st) <= l.
Proof.
  intros Hload Hinfo Hnew.
  destruct (LoadPlugin_returns deps world pluginPath st st' None Hload)
    as (Hmu & Hmgr & _ & Hcases).
  destruct Hcases as [(e & [=] & _) | [(_ & _ & i' & Hi' & Hsome) | (_ & Hstored)]].
  { rewrite Hinfo in Hi'. injection Hi' as <-. rewrite Hnew in Hsome.
    destruct Hsome as [? [=]]. }
  destruct Hstored as (i' & names & entries & Hi' & Hdrivers & Hmap & _ & Hos & Hheap).
  rewrite Hinfo in Hi'. injection Hi' as <-.
  assert (Htab : table st' = <[PluginInfo.Name i := S (next (heap st))]> (table st)).
  { unfold table, map_entries. rewrite Hmgr, Hheap. simpl.
    rewrite lookup_insert_eq, Hmap. reflexivity. }
  assert (Hinst : instances (heap st') !! S (next (heap st))
                  = Some (PluginInstance.mk (PluginInfo.Name i) pluginPath
                            (started (os st)) (next (heap st)) ∅)).
  { rewrite Hheap. simpl. apply lookup_insert_eq. }
  exists names, (S (next (heap st))), (next (heap st)).
  split; [exact Hdrivers |]. split; [exact Htab |]. split; [exact Hinst |].
  split; [unfold slice_elems; rewrite Hheap; simpl; rewrite lookup_insert_eq; reflexivity |].
  split.
  { apply (GetPluginDrivers_known _ _ (S (next (heap st)))
             (PluginInstance.mk (PluginInfo.Name i) pluginPath
                (started (os st)) (next (heap st)) ∅)).
    - rewrite Hmgr, Hmu. reflexivity.
    - rewrite Htab. apply lookup_insert_eq.
    - exact Hinst. }
  split; [rewrite Hos; simpl; apply lookup_insert_eq |].
  unfold loc in *. lia.
Qed.

(** X14: no process is left behind by a load that returns.  If the plugin
    file does not exist, no process is started.  Otherwise exactly one
    process is started, and when LoadPlugin returns either that process has
    been killed and the table is as before, or it is running and it is the
    Client of an entry of the table, and then LoadPlugin returned nil.  The
    processes of all other handles are as they were. *)
Theorem LoadPlugin_no_orphan (pluginPath : string) (st st' : State)
    (r : option error) :
  LoadPlugin deps world pluginPath st = Returns r st' ->
  (os st' = os st
   /\ exists notExist msg, os_Stat world pluginPath = StatErr notExist msg
                           /\ r = Some (ErrPluginFile msg))
  \/ (os_Stat world pluginPath = StatOk
      /\ started (os st') = S (started (os st))
      /\ (forall q, q <> started (os st) -> procs (os st') !! q = procs (os st) !! q)
      /\ ((procs (os st') !! started (os st) = Some Exited /\ table st' = table st)
          \/ (procs (os st') !! started (os st) = Some Running
              /\ r = None
              /\ exists name l inst,
                   table st' !! name = Some l
                   /\ instances (heap st') !! l = Some inst
                   /\ PluginInstance.Client inst = started (os st)))).
Proof.
  assert (forall (ps : gmap pid ProcState) h0 q,
            q <> h0 -> alter (fun _ => Exited) h0 (<[h0 := Running]> ps) !! q = ps !! q)
    as Hother.
  { intros ps h0 q Hq. rewrite lookup_alter_ne, lookup_insert_ne by congruence.
    reflexivity. }
  assert (forall (ps : gmap pid ProcState) h0,
            alter (fun _ => Exited) h0 (<[h0 := Running]> ps) !! h0 = Some Exited)
    as Hkilled.
  { intros ps h0. rewrite lookup_alter_eq, lookup_insert_eq. reflexivity. }
  unfold LoadPlugin, table. unfold_mutex. unfold_go.
  destruct_state st.
  destruct mw; simpl; [discriminate |]. destruct mr; simpl; [| discriminate].
  destruct (os_Stat world pluginPath) as [|ne msg]; simpl.
  2:{ intros [= <- <-]. simpl. left. eauto. }
  destruct (exec world pluginPath (started o)) as [cn dp inf drv]; simpl.
  destruct cn as [msg|]; simpl.
  { intros [= <- <-]. simpl. right. repeat split; [apply Hother |]. left. auto. }
  destruct dp as [msg|]; simpl.
  { intros [= <- <-]. simpl. right. repeat split; [apply Hother |]. left. auto. }
  destruct inf as [i|msg]; simpl.
  2:{ intros [= <- <-]. simpl. right. repeat split; [apply Hother |]. left. auto. }
  destruct (default ∅ (maps h !! pl) !! PluginInfo.Name i) as [old|] eqn:Hold; simpl.
  { intros [= <- <-]. simpl. right. repeat split; [apply Hother |]. left. auto. }
  destruct drv as [names|msg]; simpl.
  2:{ intros [= <- <-]. simpl. right. repeat split; [apply Hother |]. left. auto. }
  match goal with
  | |- context [for_range ?xs ?body ?s] =>
      pose proof (register_all_keeps_heap deps (PluginInfo.Name i) (started o) xs s) as Hheap;
      pose proof (register_all_keeps_mgr deps (PluginInfo.Name i) (started o) xs s) as Hmgr;
      pose proof (register_all_keeps_os deps (PluginInfo.Name i) (started o) xs s) as Hos;
      change (register_all deps (PluginInfo.Name i) (started o) xs s)
        with (for_range xs body s) in Hheap, Hmgr, Hos;
      destruct (for_range xs body s) as [[] st1|st1|flt st1]
  end; simpl in *; [| discriminate |].
  2:{ destruct (fatal flt); [discriminate |]. rewrite Hmgr. simpl. discriminate. }
  destruct st1 as [r1 m1 h1 o1 lg1]; simpl in *. subst m1 h1 o1. simpl.
  destruct (maps h !! pl) as [entries|] eqn:Hmap; simpl.
  - intros [= <- <-]. simpl. right.
    split; [reflexivity |]. split; [reflexivity |].
    split; [intros q Hq; apply lookup_insert_ne; congruence |].
    right. split; [apply lookup_insert_eq |]. split; [reflexivity |].
    exists (PluginInfo.Name i), (S (next h)),
      (PluginInstance.mk (PluginInfo.Name i) pluginPath (started o) (next h) ∅).
    rewrite !lookup_insert_eq. simpl. rewrite lookup_insert_eq. repeat split.
  - intros [= <- <-].
Qed.

End LoadRecords.

Lemma LoadPlugin_records_plugin_witness :
  exists names l s,
    drivers (exec demo_world "plugins/demo" (started (os (with_local initial)))) = Ok names
    /\ table demo_loaded = <[PluginInfo.Name (PluginInfo.mk "demo" "1.0" "" "") := l]>
                             (table (with_local initial))
    /\ instances (heap demo_loaded) !! l
       = Some (PluginInstance.mk (PluginInfo.Name (PluginInfo.mk "demo" "1.0" "" ""))
                 "plugins/demo" (started (os (with_local initial))) s ∅)
    /\ slice_elems s demo_loaded = names
    /\ GetPluginDrivers (PluginInfo.Name (PluginInfo.mk "demo" "1.0" "" "")) demo_loaded
       = Returns (Ok s) demo_loaded
    /\ procs (os demo_loaded) !! started (os (with_local initial)) = Some Running
    /\ next (heap (with_local initial)) <= s /\ next (heap (with_local initial)) <= l.
Proof.
  apply (LoadPlugin_records_plugin demo_deps demo_world "plugins/demo"
           (with_local initial) demo_loaded (PluginInfo.mk "demo" "1.0" "" "")).
  - vm_compute. reflexivity.
  - reflexivity.
  - vm_compute. reflexivity.
Defined.

Lemma LoadPlugin_no_orphan_witness :
  (os demo_loaded = os (with_local initial)
   /\ exists notExist msg, os_Stat demo_world "plugins/demo" = StatErr notExist msg
                           /\ None = Some (ErrPluginFile msg))
  \/ (os_Stat demo_world "plugins/demo" = StatOk
      /\ started (os demo_loaded) = S (started (os (with_local initial)))
      /\ (forall q, q <> started (os (with_local initial)) ->
            procs (os demo_loaded) !! q = procs (os (with_local initial)) !! q)
      /\ ((procs (os demo_loaded) !! started (os (with_local initial)) = Some Exited
           /\ table demo_loaded = table (with_local initial))
          \/ (procs (os demo_loaded) !! started (os (with_local initial)) = Some Running
              /\ (None : option error) = None
              /\ exists name l inst,
                   table demo_loaded !! name = Some l
                   /\ instances (heap demo_loaded) !! l = Some inst
                   /\ PluginInstance.Client inst = started (os (with_local initial))))).
Proof.
  apply (LoadPlugin_no_orphan demo_deps demo_world "plugins/demo"
           (with_local initial) demo_loaded None).
  vm_compute. reflexivity.
Defined.

(** ** Loading a plugin that brings a new driver *)

(** While a writer holds the manager's lock, the operations that take the
    lock park where they stand. *)
Lemma manager_stays_locked (deps : Deps) (world : World) (st : State) :
  sync.writer (mu (mgr st)) = true ->
  (forall path, LoadPlugin deps world path st = Blocks st)
  /\ (forall p, UnloadPlugin p st = Blocks st)
  /\ GetLoadedPlugins st = Blocks st
  /\ (forall p, GetPluginDrivers p st = Blocks st)
  /\ Shutdown st = Blocks st.
Proof.
  intros Hw.
  unfold LoadPlugin, UnloadPlugin, GetLoadedPlugins, GetPluginDrivers, Shutdown.
  unfold_mutex. unfold bind, on_mutex.
  destruct_state st. subst mw. repeat split.
Qed.

(** The loop of [LoadPlugin] over names of which one is not registered:
    the names before it are skipped with a warning, and at the first one
    that is not registered the loop parks in [RegisterDriver]. *)
Lemma register_all_blocks (deps : Deps) (pluginName : string) (c : pid)
    (names : list string) (st : State) :
  driverMutex (reg st) = sync.unlocked ->
  (exists n, n ∈ names /\ driverMap (reg st) !! n = None) ->
  exists st',
    register_all deps pluginName c names st = Blocks st'
    /\ sync.writer (driverMutex (reg st')) = true.
Proof.
  revert st. induction names as [|x names IH]; intros st Hfree [n [Hin Hn]].
  - inversion Hin.
  - unfold register_all in *. simpl. unfold bind at 1 2. unfold logf at 1, modify at 1.
    unfold registerPluginDriver. unfold bind at 1.
    rewrite IsDriverRegistered_returns by (destruct_state st; inversion Hfree; reflexivity).
    simpl.
    destruct (driverMap (reg st) !! x) as [d|] eqn:Hx.
    + rewrite bool_decide_eq_true_2 by eauto. unfold logf at 1, modify at 1.
      apply IH.
      * destruct_state st. exact Hfree.
      * exists n. split; [| destruct_state st; exact Hn].
        apply elem_of_cons in Hin as [->|Hin]; [congruence | exact Hin].
    + rewrite bool_decide_eq_false_2 by (intros [? ?]; discriminate).
      unfold bind at 1. rewrite RegisterDriver_holds_mutex
        by (destruct_state st; exact Hfree).
      eexists. split; [reflexivity |]. destruct_state st. reflexivity.
Qed.

(** The load of a plugin that reports a name which is not registered, up
    to the point where it parks. *)
Lemma LoadPlugin_blocks_registering (deps : Deps) (world : World)
    (pluginPath : string) (st : State) (i : PluginInfo.t) (names : list string)
    (n : string) :
  mu (mgr st) = sync.unlocked ->
  driverMutex (reg st) = sync.unlocked ->
  os_Stat world pluginPath = StatOk ->
  connect (exec world pluginPath (started (os st))) = None ->
  dispense (exec world pluginPath (started (os st))) = None ->
  info (exec world pluginPath (started (os st))) = Ok i ->
  table st !! PluginInfo.Name i = None ->
  drivers (exec world pluginPath (started (os st))) = Ok names ->
  n ∈ names ->
  driverMap (reg st) !! n = None ->
  exists st',
    LoadPlugin deps world pluginPath st = Blocks st'
    /\ sync.writer (mu (mgr st')) = true
    /\ sync.writer (driverMutex (reg st')) = true
    /\ procs (os st') = <[started (os st) := Running]> (procs (os st))
    /\ table st' = table st.
Proof.
  intros Hmu Hdmu Hstat Hconnect Hdispense Hinfo Hnew Hdrivers Hin Hn.
  unfold LoadPlugin, table in *. unfold_mutex. unfold_go.
  destruct_state st. injection Hmu as -> ->. simpl.
  rewrite Hstat. simpl. rewrite Hconnect. simpl. rewrite Hdispense. simpl.
  rewrite Hinfo. simpl. rewrite Hnew. simpl. rewrite Hdrivers. simpl.
  match goal with
  | |- context [for_range ?xs ?body ?s] =>
      pose proof (register_all_keeps_heap deps (PluginInfo.Name i) (started o) xs s)
        as Hheap;
      pose proof (register_all_keeps_mgr deps (PluginInfo.Name i) (started o) xs s)
        as Hmgr;
      pose proof (register_all_keeps_os deps (PluginInfo.Name i) (started o) xs s)
        as Hos;
      destruct (register_all_blocks deps (PluginInfo.Name i) (started o) xs s)
        as (s' & Hblocks & Hheld);
      [ exact Hdmu | exists n; split; [exact Hin | exact Hn] |];
      rewrite Hblocks in Hheap, Hmgr, Hos;
      change (register_all deps (PluginInfo.Name i) (started o) xs s)
        with (for_range xs body s) in Hblocks;
      rewrite Hblocks
  end.
  simpl in *. exists s'. split; [reflexivity |].
  destruct s' as [r1 m1 h1 o1 lg1]; simpl in *. subst m1 h1 o1. simpl.
  split; [reflexivity |]. split; [exact Hheld |]. split; reflexivity.
Qed.

Section LoadParks.
Context (deps : Deps) (world : World).

(** X15: loading a plugin that reports a driver name which is not yet
    registered never completes.  With both mutexes free, a plugin file that
    exists, a process that connects and answers, an identity name that is
    not loaded and a reported list with at least one unregistered name,
    LoadPlugin parks inside RegisterDriver.  It parks holding the manager's
    lock and the registry's mutex, with the plugin's process running and the
    plugin not in the table, and with no driver registered: driverMap and
    driverInfoMap are as before.  From then on LoadPlugin, UnloadPlugin,
    GetLoadedPlugins, GetPluginDrivers and Shutdown park as well. *)
Theorem LoadPlugin_parks_on_new_driver (pluginPath : string) (st : State)
    (i : PluginInfo.t) (names : list string) (n : string) :
  mu (mgr st) = sync.unlocked ->
  driverMutex (reg st) = sync.unlocked ->
  os_Stat world pluginPath = StatOk ->
  connect (exec world pluginPath (started (os st))) = None ->
  dispense (exec world pluginPath (started (os st))) = None ->
  info (exec world pluginPath (started (os st))) = Ok i ->
  table st !! PluginInfo.Name i = None ->
  drivers (exec world pluginPath (started (os st))) = Ok names ->
  n ∈ names ->
  driverMap (reg st) !! n = None ->
  exists st',
    LoadPlugin deps world pluginPath st = Blocks st'
    /\ sync.writer (mu (mgr st')) = true
    /\ sync.writer (driverMutex (reg st')) = true
    /\ procs (os st') !! started (os st) = Some Running
    /\ table st' = table st
    /\ driverMap (reg st') = driverMap (reg st)
    /\ driverInfoMap (reg st') = driverInfoMap (reg st)
    /\ (forall path, LoadPlugin deps world path st' = Blocks st')
    /\ (forall p, UnloadPlugin p st' = Blocks st')
    /\ GetLoadedPlugins st' = Blocks st'
    /\ (forall p, GetPluginDrivers p st' = Blocks st')
    /\ Shutdown st' = Blocks st'.
Proof.
  intros Hmu Hdmu Hstat Hconnect Hdispense Hinfo Hnew Hdrivers Hin Hn.
  pose proof (LoadPlugin_keeps_driverMap deps world pluginPath st) as Hdm.
  pose proof (LoadPlugin_keeps_driverInfoMap deps world pluginPath st) as Hdim.
  assert (exists st', LoadPlugin deps world pluginPath st = Blocks st'
            /\ sync.writer (mu (mgr st')) = true
            /\ sync.writer (driverMutex (reg st')) = true
            /\ procs (os st') !! started (os st) = Some Running
            /\ table st' = table st) as (st' & Hload & Hw & Hdw & Hrun & Htab).
  { destruct (LoadPlugin_blocks_registering deps world pluginPath st i names n
                Hmu Hdmu Hstat Hconnect Hdispense Hinfo Hnew Hdrivers Hin Hn)
      as (st' & Hload & Hw & Hdw & Hos & Htab).
    exists st'. split; [exact Hload |]. split; [exact Hw |]. split; [exact Hdw |].
    split; [rewrite Hos; apply lookup_insert_eq | exact Htab]. }
  rewrite Hload in Hdm, Hdim. simpl in Hdm, Hdim.
  exists st'. split; [exact Hload |].
  split; [exact Hw |]. split; [exact Hdw |]. split; [exact Hrun |].
  split; [exact Htab |]. split; [exact Hdm |]. split; [exact Hdim |].
  apply manager_stays_locked. exact Hw.
Qed.

End LoadParks.

Lemma LoadPlugin_parks_on_new_driver_witness :
  exists st',
    LoadPlugin demo_deps demo_world "plugins/fs" initial = Blocks st'
    /\ sync.writer (mu (mgr st')) = true
    /\ sync.writer (driverMutex (reg st')) = true
    /\ procs (os st') !! started (os initial) = Some Running
    /\ table st' = table initial
    /\ driverMap (reg st') = driverMap (reg initial)
    /\ driverInfoMap (reg st') = driverInfoMap (reg initial)
    /\ (forall path, LoadPlugin demo_deps demo_world path st' = Blocks st')
    /\ (forall p, UnloadPlugin p st' = Blocks st')
    /\ GetLoadedPlugins st' = Blocks st'
    /\ (forall p, GetPluginDrivers p st' = Blocks st')
    /\ Shutdown st' = Blocks st'.
Proof.
  apply (LoadPlugin_parks_on_new_driver demo_deps demo_world "plugins/fs" initial
           (PluginInfo.mk "fs" "1.0" "" "") ["DemoFS"] "DemoFS").
  - reflexivity.
  - reflexivity.
  - reflexivity.
  - reflexivity.
  - reflexivity.
  - reflexivity.
  - vm_compute. reflexivity.
  - reflexivity.
  - apply list_elem_of_here.
  - reflexivity.
Defined.

(** ** Shutdown *)

(** Killing the processes of a list of handles, one after the other. *)
Lemma kill_all_lookup (cs : list pid) (ps : gmap pid ProcState) (q : pid) :
  foldl (fun acc c => alter (fun _ => Exited) c acc) ps cs !! q
  = if decide (q ∈ cs) then (fun _ => Exited) <$> ps !! q else ps !! q.
Proof.
  revert ps. induction cs as [|c cs IH]; intros ps; simpl.
  - destruct (decide (q ∈ [])) as [Hin|_]; [inversion Hin | reflexivity].
  - rewrite IH.
    destruct (decide (q = c)) as [->|Hne].
    + rewrite lookup_alter_eq.
      destruct (decide (c ∈ cs)), (decide (c ∈ c :: cs)) as [|Hnin];
        try reflexivity.
      * destruct (ps !! c); reflexivity.
      * exfalso. apply Hnin. left.
      * exfalso. apply Hnin. left.
    + rewrite lookup_alter_ne by congruence.
      destruct (decide (q ∈ cs)) as [Hin|Hnin], (decide (q ∈ c :: cs)) as [Hin'|Hnin'];
        try reflexivity.
      * exfalso. apply Hnin'. right. exact Hin.
      * exfalso. apply elem_of_cons in Hin' as [?|?]; contradiction.
Qed.

(** The loop of [Shutdown] over entries that all point to instances. *)
Lemma shutdown_loop_returns (entries : list (string * loc)) (st : State) :
  (forall kv, kv ∈ entries -> is_Some (instances (heap st) !! kv.2)) ->
  exists st',
    shutdown_all entries st = Returns tt st'
    /\ reg st' = reg st /\ mgr st' = mgr st /\ heap st' = heap st
    /\ started (os st') = started (os st)
    /\ procs (os st')
       = foldl (fun acc c => alter (fun _ => Exited) c acc) (procs (os st))
           (omap (fun kv => PluginInstance.Client <$> instances (heap st) !! kv.2) entries).
Proof.
  unfold shutdown_all.
  set (body := fun kv : string * loc =>
    logf InfoLevel "Shutting down plugin: %s" [Str kv.1] ;;
    let* instance := deref kv.2 in
    Kill (PluginInstance.Client instance)).
  revert st. induction entries as [|[k l] entries IH]; intros st Hall.
  - exists st. repeat split.
  - destruct (Hall (k, l)) as [inst Hinst]; [left |]. simpl in Hinst.
    assert (Hstep : body (k, l) st
                    = Returns tt
                        (set_procs (alter (fun _ => Exited) (PluginInstance.Client inst))
                           (with_logs
                              (cons {| level := InfoLevel;
                                       format := "Shutting down plugin: %s";
                                       args := [Str k] |}) st))).
    { unfold body, bind, logf, modify, deref, Kill. simpl. rewrite Hinst. reflexivity. }
    cbn [for_range]. unfold bind at 1. rewrite Hstep.
    match goal with
    | |- context [for_range entries body ?s] =>
        destruct (IH s) as (st' & Hloop & Hreg & Hmgr & Hheap & Hstarted & Hprocs)
    end.
    { intros kv Hkv. simpl. apply Hall. right. exact Hkv. }
    exists st'. split; [exact Hloop |].
    rewrite Hreg, Hmgr, Hheap, Hstarted, Hprocs. simpl. rewrite Hinst. repeat split.
Qed.

(** What [Shutdown] does when the lock is free and every entry points to
    an instance. *)
Lemma Shutdown_returns (st : State) :
  mu (mgr st) = sync.unlocked ->
  (forall k l, table st !! k = Some l -> is_Some (instances (heap st) !! l)) ->
  exists st',
    Shutdown st = Returns tt st'
    /\ mgr st' = {| plugins := next (heap st); mu := sync.unlocked |}
    /\ heap st'
       = {| next := S (next (heap st));
            maps := <[next (heap st) := ∅]> (maps (heap st));
            instances := instances (heap st);
            arrays := arrays (heap st) |}
    /\ reg st' = reg st
    /\ started (os st') = started (os st)
    /\ procs (os st')
       = foldl (fun acc c => alter (fun _ => Exited) c acc) (procs (os st))
           (omap (fun kv => PluginInstance.Client <$> instances (heap st) !! kv.2)
              (map_to_list (table st))).
Proof.
  intros Hmu Hall.
  unfold Shutdown, table in *. unfold_mutex. unfold_go.
  destruct_state st. injection Hmu as -> ->. simpl.
  match goal with
  | |- context [for_range ?xs ?body ?s] =>
      destruct (shutdown_loop_returns xs s)
        as (st1 & Hloop & Hreg & Hmgr & Hheap & Hstarted & Hprocs);
      [ intros [k l] Hkv; apply elem_of_map_to_list in Hkv; exact (Hall k l Hkv) |];
      change (shutdown_all xs s) with (for_range xs body s) in Hloop;
      rewrite Hloop
  end.
  destruct st1 as [r1 m1 h1 o1 lg1]. simpl in *. subst r1 m1 h1. simpl.
  eexists. split; [reflexivity |]. simpl. repeat split; assumption.
Qed.

(** X16: Shutdown with the manager's lock free and every entry of the
    table pointing to an instance.  It returns; the table is empty
    afterwards and the lock is free again; the process of every plugin that
    was loaded is no longer running, and the processes that belong to no
    loaded plugin are as they were.  The registry is not touched: the
    drivers of the plugins stay registered, bound to processes that were
    killed. *)
Theorem Shutdown_kills_every_plugin (st : State) :
  mu (mgr st) = sync.unlocked ->
  (forall k l, table st !! k = Some l -> is_Some (instances (heap st) !! l)) ->
  exists st',
    Shutdown st = Returns tt st'
    /\ table st' = ∅
    /\ mu (mgr st') = sync.unlocked
    /\ (forall k l inst,
          table st !! k = Some l -> instances (heap st) !! l = Some inst ->
          procs (os st') !! PluginInstance.Client inst
          = (fun _ => Exited) <$> procs (os st) !! PluginInstance.Client inst)
    /\ (forall q,
          (forall k l inst,
             table st !! k = Some l -> instances (heap st) !! l = Some inst ->
             PluginInstance.Client inst <> q) ->
          procs (os st') !! q = procs (os st) !! q)
    /\ started (os st') = started (os st)
    /\ reg st' = reg st
    /\ instances (heap st') = instances (heap st)
    /\ arrays (heap st') = arrays (heap st).
Proof.
  intros Hmu Hall.
  assert (Hclients : forall q,
            q ∈ omap (fun kv => PluginInstance.Client <$> instances (heap st) !! kv.2)
                  (map_to_list (table st))
            <-> exists k l inst, table st !! k = Some l
                                 /\ instances (heap st) !! l = Some inst
                                 /\ PluginInstance.Client inst = q).
  { intros q. rewrite list_elem_of_omap. split.
    - intros [[k l] [Hkv Hq]]. apply elem_of_map_to_list in Hkv. simpl in Hq.
      destruct (instances (heap st) !! l) as [inst|] eqn:Hinst; [| discriminate].
      injection Hq as <-. eauto 6.
    - intros (k & l & inst & Hk & Hinst & <-). exists (k, l). split.
      + apply elem_of_map_to_list. exact Hk.
      + simpl. rewrite Hinst. reflexivity. }
  destruct (Shutdown_returns st Hmu Hall)
    as (st' & Hret & Hmgr & Hheap & Hreg & Hstarted & Hprocs).
  exists st'. split; [exact Hret |].
  split.
  { unfold table, map_entries. rewrite Hmgr, Hheap. simpl.
    rewrite lookup_insert_eq. reflexivity. }
  split; [rewrite Hmgr; reflexivity |].
  split.
  { intros k l inst Hk Hinst. rewrite Hprocs, kill_all_lookup.
    destruct (decide _) as [_|Hnin]; [reflexivity |].
    exfalso. apply Hnin. apply Hclients. eauto 6. }
  split.
  { intros q Hq. rewrite Hprocs, kill_all_lookup.
    destruct (decide _) as [Hin|_]; [| reflexivity].
    exfalso. apply Hclients in Hin as (k & l & inst & Hk & Hinst & Hc).
    exact (Hq k l inst Hk Hinst Hc). }
  split; [exact Hstarted |]. split; [exact Hreg |].
  rewrite Hheap. split; reflexivity.
Qed.

Lemma Shutdown_kills_every_plugin_witness :
  exists st',
    Shutdown demo_loaded = Returns tt st'
    /\ table st' = ∅
    /\ mu (mgr st') = sync.unlocked
    /\ (forall k l inst,
          table demo_loaded !! k = Some l -> instances (heap demo_loaded) !! l = Some inst ->
          procs (os st') !! PluginInstance.Client inst
          = (fun _ => Exited) <$> procs (os demo_loaded) !! PluginInstance.Client inst)
    /\ (forall q,
          (forall k l inst,
             table demo_loaded !! k = Some l ->
             instances (heap demo_loaded) !! l = Some inst ->
             PluginInstance.Client inst <> q) ->
          procs (os st') !! q = procs (os demo_loaded) !! q)
    /\ started (os st') = started (os demo_loaded)
    /\ reg st' = reg demo_loaded
    /\ instances (heap st') = instances (heap demo_loaded)
    /\ arrays (heap st') = arrays (heap demo_loaded).
Proof.
  apply (Shutdown_kills_every_plugin demo_loaded).
  - vm_compute. reflexivity.
  - intros k l Hk. destruct (demo_loaded_keyed_by_identity k l Hk) as [_ [inst [Hinst _]]].
    exists inst. exact Hinst.
Defined.

(** ** The manager stays in working order *)

Lemma never_panics_bind {A B} (m : go A) (k : A -> go B) :
  never_panics m -> (forall a, never_panics (k a)) -> never_panics (bind m k).
Proof.
  intros Hm Hk st f st'. unfold bind.
  destruct (m st) as [a st1|st1|flt st1] eqn:Hmst; [apply Hk | discriminate |].
  exfalso. exact (Hm _ _ _ Hmst).
Qed.

Lemma never_panics_for_range {A} (xs : list A) (body : A -> go unit) :
  (forall x, never_panics (body x)) -> never_panics (for_range xs body).
Proof.
  intros Hbody. induction xs as [|x xs IH]; simpl.
  - intros st f st'. discriminate.
  - apply never_panics_bind; [apply Hbody | intros _; exact IH].
Qed.

Lemma logf_never_panics lvl fmt a : never_panics (logf lvl fmt a).
Proof. intros st f st'. discriminate. Qed.

Lemma IsDriverRegistered_never_panics n : never_panics (IsDriverRegistered n).
Proof.
  intros st f st'. unfold IsDriverRegistered. unfold_mutex. unfold_go.
  destruct_state st. destruct dw; discriminate.
Qed.

Lemma RegisterDriver_never_panics deps d : never_panics (RegisterDriver deps d).
Proof.
  intros st f st'. destruct (RegisterDriver_blocks deps d st) as [s ->]. discriminate.
Qed.

Lemma UnregisterDriver_never_panics n : never_panics (UnregisterDriver n).
Proof.
  intros st f st'. unfold UnregisterDriver. unfold_mutex. unfold_go.
  destruct_state st. destruct dw; [discriminate |]. destruct dr; discriminate.
Qed.

Lemma register_all_never_panics deps p c names :
  never_panics (register_all deps p c names).
Proof.
  unfold register_all, registerPluginDriver.
  apply never_panics_for_range. intros x.
  apply never_panics_bind; [apply logf_never_panics | intros _].
  apply never_panics_bind; [apply IsDriverRegistered_never_panics | intros b].
  destruct b; [apply logf_never_panics |].
  apply never_panics_bind; [apply RegisterDriver_never_panics | intros _].
  apply logf_never_panics.
Qed.

Lemma unregister_all_never_panics p names : never_panics (unregister_all p names).
Proof.
  unfold unregister_all. apply never_panics_for_range. intros x.
  apply never_panics_bind; [apply UnregisterDriver_never_panics | intros _].
  apply logf_never_panics.
Qed.

Lemma sound_ret {A} (a : A) : sound (ret a).
Proof. intros st H. exact H. Qed.

Lemma sound_bind {A B} (m : go A) (k : A -> go B) :
  sound m -> (forall a, sound (k a)) -> sound (bind m k).
Proof.
  intros Hm Hk st H. unfold bind. specialize (Hm st H).
  destruct (m st) as [a st1|st1|flt st1]; [| exact I | exact Hm].
  apply Hk. exact Hm.
Qed.

Lemma sound_for_range {A} (xs : list A) (body : A -> go unit) :
  (forall x, sound (body x)) -> sound (for_range xs body).
Proof.
  intros Hbody. induction xs as [|x xs IH]; simpl.
  - apply sound_ret.
  - apply sound_bind; [apply Hbody | intros _; exact IH].
Qed.

Lemma logf_sound lvl fmt a : sound (logf lvl fmt a).
Proof. intros st H. destruct_state st. exact H. Qed.

Lemma LoadPlugin_sound (deps : Deps) (world : World) (pluginPath : string) :
  sound (LoadPlugin deps world pluginPath).
Proof.
  intros st (Hmap & Hlt & Hkey).
  destruct (LoadPlugin deps world pluginPath st) as [r st'|st'|f st'] eqn:Hload;
    [| exact I |].
  - pose proof (LoadPlugin_keeps_keyed_by_identity deps world pluginPath st st' r Hkey Hload)
      as Hkey'.
    destruct (LoadPlugin_returns deps world pluginPath st st' r Hload)
      as (_ & Hmgr & _ & Hcases).
    destruct Hcases as [(e & _ & Hheap) | [(_ & Hheap & _) | (_ & Hstored)]].
    + split; [rewrite Hmgr, Hheap; exact Hmap |].
      split; [rewrite Hmgr, Hheap; exact Hlt | exact Hkey'].
    + split; [rewrite Hmgr, Hheap; exact Hmap |].
      split; [rewrite Hmgr, Hheap; exact Hlt | exact Hkey'].
    + destruct Hstored as (i & names & entries & _ & _ & _ & _ & _ & Hheap).
      split; [rewrite Hmgr, Hheap; simpl; rewrite lookup_insert_eq; eauto |].
      split; [rewrite Hmgr, Hheap; simpl; unfold loc in *; lia | exact Hkey'].
  - revert Hload. unfold LoadPlugin. unfold_mutex. unfold_go.
    destruct_state st.
    destruct mw; simpl; [discriminate |]. destruct mr; simpl; [| discriminate].
    destruct (os_Stat world pluginPath) as [|ne msg]; simpl; [| discriminate].
    destruct (exec world pluginPath (started o)) as [cn dp inf drv]; simpl.
    destruct cn as [msg|]; simpl; [discriminate |].
    destruct dp as [msg|]; simpl; [discriminate |].
    destruct inf as [i|msg]; simpl; [| discriminate].
    destruct (default ∅ (maps h !! pl) !! PluginInfo.Name i) as [old|]; simpl;
      [discriminate |].
    destruct drv as [names|msg]; simpl; [| discriminate].
    match goal with
    | |- context [for_range ?xs ?body ?s] =>
        pose proof (register_all_keeps_heap deps (PluginInfo.Name i) (started o) xs s)
          as Hheap;
        pose proof (register_all_keeps_mgr deps (PluginInfo.Name i) (started o) xs s)
          as Hmgr;
        pose proof (register_all_never_panics deps (PluginInfo.Name i) (started o) xs s)
          as Hnp;
        change (register_all deps (PluginInfo.Name i) (started o) xs s)
          with (for_range xs body s) in Hheap, Hmgr, Hnp;
        destruct (for_range xs body s) as [[] st1|st1|flt st1]
    end; simpl in *; [| discriminate | exfalso; exact (Hnp _ _ eq_refl)].
    destruct st1 as [r1 m1 h1 o1 lg1]; simpl in *. subst m1 h1. simpl.
    destruct Hmap as [entries Hmap]. rewrite Hmap. simpl. discriminate.
Qed.

Lemma UnloadPlugin_sound (p : string) : sound (UnloadPlugin p).
Proof.
  intros st (Hmap & Hlt & Hkey).
  destruct (UnloadPlugin p st) as [r st'|st'|f st'] eqn:Hun; [| exact I |].
  - pose proof (UnloadPlugin_keeps_keyed_by_identity p st st' r Hkey Hun) as Hkey'.
    split; [| split; [| exact Hkey']].
    + destruct (table st !! p) as [l|] eqn:Htable.
      * destruct (Hkey p l Htable) as (_ & inst & Hinst & _).
        destruct (UnloadPlugin_returns p st st' r l inst Htable Hinst Hun)
          as (_ & _ & Hmgr & _ & _ & Hheap & _).
        rewrite Hmgr, Hheap. simpl. rewrite lookup_insert_eq. eauto.
      * rewrite UnloadPlugin_unknown in Hun; [injection Hun as _ <-; exact Hmap | | exact Htable].
        revert Hun. unfold UnloadPlugin. unfold_mutex. unfold bind, on_mutex.
        destruct_state st. destruct mw; [discriminate |]. destruct mr; [reflexivity | discriminate].
    + destruct (table st !! p) as [l|] eqn:Htable.
      * destruct (Hkey p l Htable) as (_ & inst & Hinst & _).
        destruct (UnloadPlugin_returns p st st' r l inst Htable Hinst Hun)
          as (_ & _ & Hmgr & _ & _ & Hheap & _).
        rewrite Hmgr, Hheap. simpl. exact Hlt.
      * rewrite UnloadPlugin_unknown in Hun; [injection Hun as _ <-; exact Hlt | | exact Htable].
        revert Hun. unfold UnloadPlugin. unfold_mutex. unfold bind, on_mutex.
        destruct_state st. destruct mw; [discriminate |]. destruct mr; [reflexivity | discriminate].
  - revert Hun. unfold UnloadPlugin. unfold_mutex. unfold_go.
    unfold keyed_by_identity, table, map_entries in Hkey.
    destruct_state st.
    destruct mw; simpl; [discriminate |]. destruct mr; simpl; [| discriminate].
    destruct (default ∅ (maps h !! pl) !! p) as [l|] eqn:Htable; simpl; [| discriminate].
    destruct (Hkey p l Htable) as (_ & inst & Hinst & _). rewrite Hinst. simpl.
    match goal with
    | |- context [for_range ?xs ?body ?s] =>
        pose proof (unregister_all_never_panics p xs s) as Hnp;
        pose proof (unregister_all_keeps_mgr p xs s) as Hmgr;
        change (unregister_all p xs s) with (for_range xs body s) in Hnp, Hmgr;
        destruct (for_range xs body s) as [[] st1|st1|flt st1]
    end; simpl in *; [| discriminate | exfalso; exact (Hnp _ _ eq_refl)].
    destruct st1 as [r1 m1 h1 o1 lg1]; simpl in *. subst m1. simpl.
    destruct (maps h1 !! pl); simpl; discriminate.
Qed.

Lemma GetPluginDrivers_sound (p : string) : sound (GetPluginDrivers p).
Proof.
  intros st (Hmap & Hlt & Hkey).
  destruct (sync.writer (mu (mgr st))) eqn:Hw.
  - unfold GetPluginDrivers. unfold_mutex. unfold bind, on_mutex.
    destruct_state st. subst mw. exact I.
  - rewrite GetPluginDrivers_returns by exact Hw.
    destruct (table st !! p) as [l|] eqn:Htable;
      [| exact (conj Hmap (conj Hlt Hkey))].
    destruct (Hkey p l Htable) as (_ & inst & -> & _).
    exact (conj Hmap (conj Hlt Hkey)).
Qed.

Lemma GetLoadedPlugins_sound : sound GetLoadedPlugins.
Proof.
  intros st (Hmap & Hlt & Hkey).
  destruct (sync.writer (mu (mgr st))) eqn:Hw.
  - unfold GetLoadedPlugins. unfold_mutex. unfold bind, on_mutex.
    destruct_state st. subst mw. exact I.
  - destruct (GetLoadedPlugins_returns st Hw Hlt)
      as (st' & -> & _ & Hmgr & Hmaps & Hnext & Hinst & _).
    assert (Hne : next (heap st) <> plugins (mgr st)) by (unfold loc in *; lia).
    split; [rewrite Hmgr, Hmaps, lookup_insert_ne by exact Hne; exact Hmap |].
    split; [rewrite Hmgr, Hnext; unfold loc in *; lia |].
    intros k l. unfold table, map_entries.
    rewrite Hmgr, Hmaps, lookup_insert_ne by exact Hne.
    intros Hk. destruct (Hkey k l Hk) as (Hl & inst & Hi & Hname).
    split; [rewrite Hnext; unfold loc in *; lia |].
    exists inst. rewrite Hinst. split; assumption.
Qed.

Lemma Shutdown_sound : sound Shutdown.
Proof.
  intros st (Hmap & Hlt & Hkey).
  assert (Hparks : forall w r, mu (mgr st) = {| sync.writer := w; sync.readers := r |} ->
                     w = true \/ r <> 0 ->
                     match Shutdown st with
                     | Returns _ st' => manager_ok st'
                     | Blocks _ => True
                     | Panics _ _ => False
                     end).
  { intros w r Hmu Hheld. unfold Shutdown. unfold_mutex. unfold bind, on_mutex.
    destruct_state st. injection Hmu as -> ->.
    destruct w; [exact I |]. destruct r; [| exact I].
    destruct Hheld as [?|?]; [discriminate | contradiction]. }
  destruct (mu (mgr st)) as [w r] eqn:Hmu.
  destruct w; [apply (Hparks true r eq_refl); left; reflexivity |].
  destruct r as [|r]; [| apply (Hparks false (S r) eq_refl); right; discriminate].
  clear Hparks.
  destruct (Shutdown_returns st Hmu) as (st' & -> & Hmgr & Hheap & _).
  { intros k l Hk. destruct (Hkey k l Hk) as (_ & inst & Hinst & _). eauto. }
  split; [rewrite Hmgr, Hheap; simpl; rewrite lookup_insert_eq; eauto |].
  split; [rewrite Hmgr, Hheap; simpl; lia |].
  intros k l. unfold table, map_entries. rewrite Hmgr, Hheap. simpl.
  rewrite lookup_insert_eq. simpl. rewrite lookup_empty. discriminate.
Qed.

Lemma ReloadPlugin_sound (deps : Deps) (world : World) (p : string) :
  sound (ReloadPlugin deps world p).
Proof.
  intros st Hok. pose proof Hok as (Hmap & Hlt & Hkey).
  destruct (table st !! p) as [l|] eqn:Htable.
  - destruct (Hkey p l Htable) as (_ & inst & Hinst & _).
    rewrite (ReloadPlugin_known deps world p st l inst Htable Hinst).
    pose proof (UnloadPlugin_sound p st Hok) as Hun.
    destruct (UnloadPlugin p st) as [[e|] st1|st1|f st1]; try exact Hun.
    pose proof (LoadPlugin_sound deps world (PluginInstance.Path inst) st1 Hun) as Hload.
    destruct (LoadPlugin deps world (PluginInstance.Path inst) st1)
      as [[e|] st2|st2|f st2]; exact Hload.
  - rewrite ReloadPlugin_unknown by exact Htable. exact Hok.
Qed.

Lemma LoadPluginsFromDir_sound (deps : Deps) (world : World) (dir : string) :
  sound (LoadPluginsFromDir deps world dir).
Proof.
  assert (Hscan : sound (bind (for_range (match os_ReadDir world dir with
                                          | Ok entries => entries
                                          | Err _ => []
                                          end) (scan_entry deps world dir))
                           (fun _ => ret (None : option error)))).
  { apply sound_bind; [| intros _; apply sound_ret].
    apply sound_for_range. intros entry. unfold scan_entry.
    destruct (DirEntry.IsDir entry); [apply sound_ret |].
    case_decide; [| apply sound_ret].
    apply sound_bind; [apply LoadPlugin_sound | intros [e|]].
    - apply logf_sound.
    - apply sound_ret. }
  unfold LoadPluginsFromDir.
  destruct (os_Stat world dir) as [|[|] msg];
    destruct (os_ReadDir world dir) as [entries|msg'];
    first [ exact Hscan | apply sound_ret
          | apply sound_bind; [apply logf_sound | intros _; apply sound_ret] ].
Qed.

(** X17: the manager stays in working order.  In the starting state the
    table is an allocated map whose entries are keyed by identity: each
    points to an allocated instance that carries the key as its name.
    Started in such a state, no operation of the manager panics: no nil
    pointer is dereferenced, no nil map is assigned to, no mutex is unlocked
    that is not locked.  And every operation that returns leaves the manager
    in such a state again. *)
Theorem manager_operations_sound (deps : Deps) (world : World) :
  manager_ok initial
  /\ (forall path, sound (LoadPlugin deps world path))
  /\ (forall dir, sound (LoadPluginsFromDir deps world dir))
  /\ (forall p, sound (UnloadPlugin p))
  /\ (forall p, sound (ReloadPlugin deps world p))
  /\ sound (RescanPlugins deps world)
  /\ sound (loadPlugins deps world)
  /\ sound GetLoadedPlugins
  /\ (forall p, sound (GetPluginDrivers p))
  /\ sound Shutdown.
Proof.
  split.
  { split; [vm_compute; eauto |]. split; [vm_compute; lia |].
    apply initial_keyed_by_identity. }
  split; [intros path; apply LoadPlugin_sound |].
  split; [intros dir; apply LoadPluginsFromDir_sound |].
  split; [intros p; apply UnloadPlugin_sound |].
  split; [intros p; apply ReloadPlugin_sound |].
  split.
  { unfold RescanPlugins.
    apply sound_bind; [| intros _; apply sound_ret].
    apply sound_for_range. intros dir.
    apply sound_bind; [apply LoadPluginsFromDir_sound | intros [e|]].
    - apply logf_sound.
    - apply sound_ret. }
  split.
  { unfold loadPlugins.
    apply sound_for_range. intros dir.
    apply sound_bind; [apply LoadPluginsFromDir_sound | intros [e|]].
    - apply logf_sound.
    - apply sound_ret. }
  split; [apply GetLoadedPlugins_sound |].
  split; [intros p; apply GetPluginDrivers_sound |].
  apply Shutdown_sound.
Qed.

(** ** Scanning a directory *)

Section ScanCandidates.
Context (deps : Deps) (world : World).

Lemma scan_entry_not_candidate (dir : string) (entry : DirEntry.t) (st : State) :
  ~ candidate deps entry -> scan_entry deps world dir entry st = Returns tt st.
Proof.
  intros Hnc. unfold scan_entry, candidate in *.
  destruct (DirEntry.IsDir entry); [reflexivity |].
  case_decide; [| reflexivity]. exfalso. apply Hnc. split; [reflexivity | assumption].
Qed.

Lemma scan_candidates (dir : string) (entries : list DirEntry.t) (st : State) :
  for_range entries (scan_entry deps world dir) st
  = for_range (filter (candidate deps) entries) (scan_entry deps world dir) st.
Proof.
  revert st. induction entries as [|e entries IH]; intros st; [reflexivity |].
  destruct (decide (candidate deps e)) as [Hc|Hnc].
  - rewrite filter_cons_True by exact Hc. simpl. unfold bind.
    destruct (scan_entry deps world dir e st); [apply IH | reflexivity | reflexivity].
  - rewrite filter_cons_False by exact Hnc. simpl. unfold bind.
    rewrite scan_entry_not_candidate by exact Hnc. apply IH.
Qed.

(** X18: what LoadPluginsFromDir does with a listing is what it does with
    the candidate files of the listing, in their order: the subdirectories
    and the files whose extension is neither ".exe" nor empty play no part.
    A listing without candidate files makes it return nil with the state as
    it was: no lock is taken, no process is started, nothing is logged. *)
Theorem LoadPluginsFromDir_candidates_only (dir : string)
    (entries : list DirEntry.t) (st : State) :
  (forall msg, os_Stat world dir <> StatErr true msg) ->
  os_ReadDir world dir = Ok entries ->
  LoadPluginsFromDir deps world dir st
  = bind (for_range (filter (candidate deps) entries) (scan_entry deps world dir))
      (fun _ => ret None) st
  /\ (filter (candidate deps) entries = [] ->
      LoadPluginsFromDir deps world dir st = Returns None st).
Proof.
  intros Hstat Hread.
  assert (Heq : LoadPluginsFromDir deps world dir st
                = bind (for_range (filter (candidate deps) entries)
                          (scan_entry deps world dir))
                    (fun _ => ret None) st).
  { unfold LoadPluginsFromDir. rewrite Hread.
    destruct (os_Stat world dir) as [|[|] msg] eqn:Hs;
      [| exfalso; exact (Hstat msg eq_refl) |];
      unfold bind; rewrite scan_candidates; reflexivity. }
  split; [exact Heq |].
  intros Hnone. rewrite Heq, Hnone. reflexivity.
Qed.

End ScanCandidates.

Lemma LoadPluginsFromDir_candidates_only_witness :
  LoadPluginsFromDir demo_deps demo_world "plugins" initial
  = bind (for_range
            (filter (candidate demo_deps)
               [ DirEntry.mk "broken.exe" false; DirEntry.mk "cache" true;
                 DirEntry.mk "notes.txt" false; DirEntry.mk "empty" false ])
            (scan_entry demo_deps demo_world "plugins"))
      (fun _ => ret None) initial
  /\ (filter (candidate demo_deps)
        [ DirEntry.mk "broken.exe" false; DirEntry.mk "cache" true;
          DirEntry.mk "notes.txt" false; DirEntry.mk "empty" false ] = [] ->
      LoadPluginsFromDir demo_deps demo_world "plugins" initial = Returns None initial).
Proof.
  apply (LoadPluginsFromDir_candidates_only demo_deps demo_world "plugins"
           [ DirEntry.mk "broken.exe" false; DirEntry.mk "cache" true;
             DirEntry.mk "notes.txt" false; DirEntry.mk "empty" false ] initial).
  - intros msg. vm_compute. discriminate.
  - reflexivity.
Defined.

(** ** The two scans of the plugin directories *)

Lemma log_equivalent_ret {A} (a : A) : log_equivalent (ret a) (ret a).
Proof. intros s1 s2 H. split; [reflexivity | exact H]. Qed.

Lemma log_equivalent_bind {A B} (m1 m2 : go A) (k1 k2 : A -> go B) :
  log_equivalent m1 m2 -> (forall a, log_equivalent (k1 a) (k2 a)) ->
  log_equivalent (bind m1 k1) (bind m2 k2).
Proof.
  intros Hm Hk s1 s2 H. unfold bind. specialize (Hm s1 s2 H).
  destruct (m1 s1) as [a1 t1|t1|f1 t1], (m2 s2) as [a2 t2|t2|f2 t2];
    simpl in Hm; try contradiction; try exact Hm.
  destruct Hm as [<- Ht]. apply Hk. exact Ht.
Qed.

Lemma log_equivalent_defer {A} (d1 d2 : go unit) (b1 b2 : go A) :
  log_equivalent d1 d2 -> log_equivalent b1 b2 ->
  log_equivalent (defer d1 b1) (defer d2 b2).
Proof.
  intros Hd Hb s1 s2 H. unfold defer. specialize (Hb s1 s2 H).
  destruct (b1 s1) as [a1 t1|t1|f1 t1], (b2 s2) as [a2 t2|t2|f2 t2];
    simpl in Hb; try contradiction; try exact Hb.
  - destruct Hb as [<- Ht]. specialize (Hd t1 t2 Ht).
    destruct (d1 t1) as [[] u1|u1|g1 u1], (d2 t2) as [[] u2|u2|g2 u2];
      simpl in Hd; try contradiction; try exact Hd.
    split; [reflexivity | apply Hd].
  - destruct Hb as [<- Ht]. destruct (fatal f1); [split; [reflexivity | exact Ht] |].
    specialize (Hd t1 t2 Ht).
    destruct (d1 t1) as [[] u1|u1|g1 u1], (d2 t2) as [[] u2|u2|g2 u2];
      simpl in Hd; try contradiction; try exact Hd.
    split; [reflexivity | apply Hd].
Qed.

Lemma log_equivalent_for_range {A} (xs : list A) (b1 b2 : A -> go unit) :
  (forall x, log_equivalent (b1 x) (b2 x)) ->
  log_equivalent (for_range xs b1) (for_range xs b2).
Proof.
  intros Hb. induction xs as [|x xs IH]; simpl.
  - apply log_equivalent_ret.
  - apply log_equivalent_bind; [apply Hb | intros _; exact IH].
Qed.

(** Two log records, whatever they say. *)
Lemma log_equivalent_logf lvl1 fmt1 a1 lvl2 fmt2 a2 :
  log_equivalent (logf lvl1 fmt1 a1) (logf lvl2 fmt2 a2).
Proof.
  intros s1 s2 H. split; [reflexivity |]. destruct s1, s2. exact H.
Qed.

(** A step that does not look at the log. *)
Ltac log_prim :=
  let s1 := fresh "s1" in let s2 := fresh "s2" in
  let Hr := fresh "Hr" in let Hm := fresh "Hm" in
  let Hh := fresh "Hh" in let Ho := fresh "Ho" in
  intros s1 s2 (Hr & Hm & Hh & Ho);
  destruct s1 as [? ? ? ? ?], s2 as [? ? ? ? ?]; simpl in *; subst;
  unfold_mutex; unfold_go; simpl;
  repeat (inner_case; simpl); unfold same_but_logs; simpl; repeat split; reflexivity.

Ltac log_step :=
  first
    [ apply log_equivalent_ret
    | apply log_equivalent_logf
    | apply log_equivalent_bind; [| intros ?]
    | apply log_equivalent_defer
    | apply log_equivalent_for_range; intros ?
    | progress case_match ].

Ltac log_tac := repeat log_step; try (log_prim; fail).

Lemma LoadPlugin_log_blind (deps : Deps) (world : World) (path : string) :
  log_equivalent (LoadPlugin deps world path) (LoadPlugin deps world path).
Proof. unfold LoadPlugin, registerPluginDriver. log_tac. Qed.

Lemma LoadPluginsFromDir_log_blind (deps : Deps) (world : World) (dir : string) :
  log_equivalent (LoadPluginsFromDir deps world dir) (LoadPluginsFromDir deps world dir).
Proof.
  unfold LoadPluginsFromDir, scan_entry.
  repeat first [ apply LoadPlugin_log_blind | log_step ]; try (log_prim; fail).
Qed.

(** X19: RescanPlugins does what the start-up scan loadPlugins does.  From
    states that differ at most in their logs the two calls have the same
    kind of outcome and end in states that differ at most in their logs: the
    same plugins are loaded, the same processes are started and killed, the
    same locks are held.  Only the text of the debug record for a directory
    that could not be read differs.  And RescanPlugins never reports an
    error: when it returns, it returns nil. *)
Theorem RescanPlugins_is_loadPlugins (deps : Deps) (world : World) :
  log_equivalent (RescanPlugins deps world)
    (bind (loadPlugins deps world) (fun _ => ret None))
  /\ (forall st r st', RescanPlugins deps world st = Returns r st' -> r = None).
Proof.
  split.
  - unfold RescanPlugins, loadPlugins.
    apply log_equivalent_bind; [| intros _; apply log_equivalent_ret].
    apply log_equivalent_for_range. intros dir.
    apply log_equivalent_bind; [apply LoadPluginsFromDir_log_blind | intros [e|]].
    + apply log_equivalent_logf.
    + apply log_equivalent_ret.
  - intros st r st'. unfold RescanPlugins. unfold bind at 1.
    destruct (for_range _ _ st); [| discriminate | discriminate].
    intros [= <- _]. reflexivity.
Qed.

(** ** The adapter and its plugin *)

Section AdapterCalls.
Context `{R : Connection}.

Lemma client_Call_wire (c : pid) (method : string) (a : Arg Envelope) (h : Host) :
  wire (client_Call c method a h).2
  = {| callee := c; serviceMethod := method; arg := a |} :: wire h
  /\ storages (client_Call c method a h).2 = storages h
  /\ next_storage (client_Call c method a h).2 = next_storage h.
Proof. repeat split. Qed.

(** X20: an adapter talks to its own plugin about its own driver, and to
    nobody else.  Init, Drop, List and Link each make at most one remote
    call (Drop exactly one); the call goes to the process the adapter was
    built for, to the service method that belongs to it (Plugin.InitDriver,
    Plugin.DropDriver, Plugin.List, Plugin.Link), and carries the adapter's
    driver name; the calls made before stay on record, and the storages are
    not touched.  An Init that panics has sent nothing. *)
Theorem adapter_calls_own_driver (a : PluginDriverAdapter.t) (x y : Value) (h : Host) :
  (forall r h', Init a h = Done r h' ->
     storages h' = storages h
     /\ (wire h' = wire h
         \/ exists c, wire h' = c :: wire h /\ own_call a "Plugin.InitDriver" c))
  /\ (forall f h', Init a h = Crashed f h' -> h' = h)
  /\ (storages (Drop a h).2 = storages h
      /\ exists c, wire (Drop a h).2 = c :: wire h /\ own_call a "Plugin.DropDriver" c)
  /\ (storages (List a x y h).2 = storages h
      /\ (wire (List a x y h).2 = wire h
          \/ exists c, wire (List a x y h).2 = c :: wire h /\ own_call a "Plugin.List" c))
  /\ (storages (Link a x y h).2 = storages h
      /\ (wire (Link a x y h).2 = wire h
          \/ exists c, wire (Link a x y h).2 = c :: wire h /\ own_call a "Plugin.Link" c)).
Proof.
  split.
  { intros r h'. unfold Init.
    destruct (PluginDriverAdapter.storage a) as [p|]; [| discriminate].
    destruct (storages h !! p) as [v|]; [| discriminate].
    destruct (structToMap json_Marshal json_Unmarshal nil_map v) as [env [e|]].
    - intros [= _ <-]. split; [reflexivity | left; reflexivity].
    - unfold DriverPluginRPC_InitDriver, client_Call. simpl.
      intros [= _ <-]. simpl. split; [reflexivity |]. right.
      eexists. split; [reflexivity |]. repeat split. right.
      eexists. split; [reflexivity |]. apply lookup_insert_eq. }
  split.
  { intros f h'. unfold Init.
    destruct (PluginDriverAdapter.storage a) as [p|]; [| intros [= _ <-]; reflexivity].
    destruct (storages h !! p) as [v|]; [| intros [= _ <-]; reflexivity].
    destruct (structToMap json_Marshal json_Unmarshal nil_map v) as [env [e|]];
      [discriminate |].
    unfold DriverPluginRPC_InitDriver, client_Call. simpl. discriminate. }
  split.
  { unfold Drop, DriverPluginRPC_DropDriver, client_Call. simpl.
    split; [reflexivity |]. eexists. split; [reflexivity |].
    repeat split. left. reflexivity. }
  split.
  { unfold List.
    destruct (structToMap json_Marshal json_Unmarshal nil_map x) as [dirData [e|]];
      [split; [reflexivity | left; reflexivity] |].
    destruct (structToMap json_Marshal json_Unmarshal nil_map y) as [argsData [e|]];
      [split; [reflexivity | left; reflexivity] |].
    unfold DriverPluginRPC_List, client_Call.
    destruct (reply (wire h) _) as [respData [e|]]; simpl.
    - split; [reflexivity |]. right. eexists. split; [reflexivity |].
      repeat split. right. eexists. split; [reflexivity |]. apply lookup_insert_eq.
    - destruct (json_Unmarshal_objs respData) as [result err]. simpl.
      split; [reflexivity |]. right. eexists. split; [reflexivity |].
      repeat split. right. eexists. split; [reflexivity |]. apply lookup_insert_eq. }
  unfold Link.
  destruct (structToMap json_Marshal json_Unmarshal nil_map x) as [fileData [e|]];
    [split; [reflexivity | left; reflexivity] |].
  destruct (structToMap json_Marshal json_Unmarshal nil_map y) as [argsData [e|]];
    [split; [reflexivity | left; reflexivity] |].
  unfold DriverPluginRPC_Link, client_Call.
  destruct (reply (wire h) _) as [respData [e|]]; simpl.
  - split; [reflexivity |]. right. eexists. split; [reflexivity |].
    repeat split. right. eexists. split; [reflexivity |]. apply lookup_insert_eq.
  - destruct (json_Unmarshal_link respData) as [result err]. simpl.
    split; [reflexivity |]. right. eexists. split; [reflexivity |].
    repeat split. right. eexists. split; [reflexivity |]. apply lookup_insert_eq.
Qed.

(** X21: the storage of an adapter.  A new adapter has no storage, and
    Init on it panics on the nil pointer before anything is sent.
    SetStorage gives the adapter a copy of its own: GetStorage returns a
    pointer to the value that was set, and a later SetStorage, on this or
    on any other adapter, gets another pointer and leaves that value as it
    is.
    After SetStorage, Init does not panic: if the storage cannot be turned
    into an envelope it returns "failed to convert storage to map" and sends
    nothing; otherwise it sends one InitDriver call with the driver's name
    and that envelope and returns the error of the call, nil if there is
    none. *)
Theorem SetStorage_then_Init (a b : PluginDriverAdapter.t) (storage other : Value)
    (h : Host) :
  Init (NewPluginDriverAdapter (PluginDriverAdapter.pluginClient a)
          (PluginDriverAdapter.driverName a)) h
  = Crashed NilDereference h
  /\ GetStorage (SetStorage a storage h).1 = Some (next_storage h)
  /\ storages (SetStorage a storage h).2 !! next_storage h = Some storage
  /\ (forall q, q <> next_storage h ->
        storages (SetStorage a storage h).2 !! q = storages h !! q)
  /\ wire (SetStorage a storage h).2 = wire h
  /\ PluginDriverAdapter.pluginClient (SetStorage a storage h).1
     = PluginDriverAdapter.pluginClient a
  /\ PluginDriverAdapter.driverName (SetStorage a storage h).1
     = PluginDriverAdapter.driverName a
  /\ GetStorage (SetStorage b other (SetStorage a storage h).2).1
     <> GetStorage (SetStorage a storage h).1
  /\ storages (SetStorage b other (SetStorage a storage h).2).2 !! next_storage h
     = Some storage
  /\ match structToMap json_Marshal json_Unmarshal nil_map storage with
     | (_, Some err) =>
         Init (SetStorage a storage h).1 (SetStorage a storage h).2
         = Done (Some (ErrConvert "storage" err)) (SetStorage a storage h).2
     | (storageData, None) =>
         exists c h',
           Init (SetStorage a storage h).1 (SetStorage a storage h).2
           = Done (ErrUnwrapped <$> (reply (wire h) c).2) h'
           /\ wire h' = c :: wire h
           /\ callee c = PluginDriverAdapter.pluginClient a
           /\ serviceMethod c = "Plugin.InitDriver"
           /\ exists m, arg c = ArgMap m
                /\ m !! "driver_name" = Some (FString (PluginDriverAdapter.driverName a))
                /\ m !! "storage_data" = Some (FMap storageData)
     end.
Proof.
  split; [reflexivity |].
  split; [reflexivity |].
  split; [simpl; apply lookup_insert_eq |].
  split; [intros q Hq; simpl; apply lookup_insert_ne; congruence |].
  split; [reflexivity |]. split; [reflexivity |]. split; [reflexivity |].
  split; [simpl; unfold GetStorage; simpl; intros [= Heq]; lia |].
  split.
  { simpl. rewrite lookup_insert_ne by lia. apply lookup_insert_eq. }
  unfold Init. simpl. rewrite lookup_insert_eq.
  destruct (structToMap json_Marshal json_Unmarshal nil_map storage) as [env [e|]];
    [reflexivity |].
  unfold DriverPluginRPC_InitDriver, client_Call. simpl.
  eexists. eexists. split; [reflexivity |]. simpl.
  split; [reflexivity |]. split; [reflexivity |]. split; [reflexivity |].
  eexists. split; [reflexivity |].
  split; [apply lookup_insert_eq |].
  rewrite lookup_insert_ne by discriminate. apply lookup_insert_eq.
Qed.

(** X22: how List and Link fail.  If the directory (the file) or the
    arguments cannot be turned into an envelope, the method returns the nil
    result with "failed to convert dir (file, args) to map" and no call is
    made.  If the call fails, its error is returned as it is, with the nil
    result.  If the call succeeds, the reply is decoded and the decoder's
    result and error are returned; Link then returns a pointer that is not
    nil, also when the decoder reports an error. *)
Theorem List_Link_failures (a : PluginDriverAdapter.t) (x y : Value) (h : Host) :
  (forall err, (structToMap json_Marshal json_Unmarshal nil_map x).2 = Some err ->
     List a x y h = ((nil_objs, Some (ErrConvert "dir" err)), h)
     /\ Link a x y h = ((None, Some (ErrConvert "file" err)), h))
  /\ (forall err,
        (structToMap json_Marshal json_Unmarshal nil_map x).2 = None ->
        (structToMap json_Marshal json_Unmarshal nil_map y).2 = Some err ->
        List a x y h = ((nil_objs, Some (ErrConvert "args" err)), h)
        /\ Link a x y h = ((None, Some (ErrConvert "args" err)), h))
  /\ ((structToMap json_Marshal json_Unmarshal nil_map x).2 = None ->
      (structToMap json_Marshal json_Unmarshal nil_map y).2 = None ->
      (exists c, wire (List a x y h).2 = c :: wire h
         /\ (List a x y h).1
            = match reply (wire h) c with
              | (_, Some e) => (nil_objs, Some (ErrUnwrapped e))
              | (respData, None) =>
                  ((json_Unmarshal_objs respData).1,
                   ErrUnwrapped <$> (json_Unmarshal_objs respData).2)
              end)
      /\ (exists c, wire (Link a x y h).2 = c :: wire h
            /\ (Link a x y h).1
               = match reply (wire h) c with
                 | (_, Some e) => (None, Some (ErrUnwrapped e))
                 | (respData, None) =>
                     (Some (json_Unmarshal_link respData).1,
                      ErrUnwrapped <$> (json_Unmarshal_link respData).2)
                 end)).
Proof.
  unfold List, Link.
  destruct (structToMap json_Marshal json_Unmarshal nil_map x) as [xData [ex|]];
    destruct (structToMap json_Marshal json_Unmarshal nil_map y) as [yData [ey|]];
    simpl.
  - split; [intros err [= <-]; split; reflexivity |].
    split; [intros err [=] | intros [=]].
  - split; [intros err [= <-]; split; reflexivity |].
    split; [intros err [=] | intros [=]].
  - split; [intros err [=] |].
    split; [intros err _ [= <-]; split; reflexivity | intros _ [=]].
  - split; [intros err [=] |].
    split; [intros err _ [=] |]. intros _ _.
    unfold DriverPluginRPC_List, DriverPluginRPC_Link, client_Call.
    split.
    + eexists. split.
      * destruct (reply (wire h) _) as [respData [e|]]; simpl; [reflexivity |].
        destruct (json_Unmarshal_objs respData); reflexivity.
      * destruct (reply (wire h) _) as [respData [e|]]; simpl; [reflexivity |].
        destruct (json_Unmarshal_objs respData); reflexivity.
    + eexists. split.
      * destruct (reply (wire h) _) as [respData [e|]]; simpl; [reflexivity |].
        destruct (json_Unmarshal_link respData); reflexivity.
      * destruct (reply (wire h) _) as [respData [e|]]; simpl; [reflexivity |].
        destruct (json_Unmarshal_link respData); reflexivity.
Qed.

End AdapterCalls.

(** ** The map GetLoadedPlugins hands out *)

(** A writer that calls [Lock] on the manager's mutex while readers are
    inside announces itself and parks; from then on no new reader gets in. *)
Lemma UnloadPlugin_queues (p : string) (st : State) (k : nat) :
  sync.writer (mu (mgr st)) = false ->
  sync.readers (mu (mgr st)) = S k ->
  UnloadPlugin p st = Blocks (set_mu {| sync.writer := true; sync.readers := S k |} st).
Proof.
  intros Hw Hr. unfold UnloadPlugin. unfold_mutex. unfold bind, on_mutex.
  destruct_state st. subst mw mr. reflexivity.
Qed.

Lemma GetLoadedPlugins_parks (st : State) :
  sync.writer (mu (mgr st)) = true -> GetLoadedPlugins st = Blocks st.
Proof.
  intros Hw. unfold GetLoadedPlugins. unfold_mutex. unfold bind, on_mutex.
  destruct_state st. subst mw. reflexivity.
Qed.

(** X23: GetLoadedPlugins returns a snapshot that is the caller's own.
    While no writer holds the manager's lock or waits for it (other readers
    may be inside) it returns a map that is not the manager's table and
    holds the same entries: the same names with the same instance pointers.
    The manager is as before.  Whatever the caller then assigns to the map
    or deletes from it, the table, the instances and their driver lists stay
    as they were.  A second call returns another map again.  The call does
    not pass a waiting writer: when UnloadPlugin calls Lock while readers
    are inside, it parks having announced itself, the table is untouched,
    and from then on GetLoadedPlugins parks. *)
Theorem GetLoadedPlugins_snapshot (st : State) (ws : list MapWrite) :
  sync.writer (mu (mgr st)) = false ->
  plugins (mgr st) < next (heap st) ->
  (exists result st',
     GetLoadedPlugins st = Returns result st'
     /\ result <> plugins (mgr st)
     /\ map_entries result st' = table st
     /\ table st' = table st
     /\ mgr st' = mgr st
     /\ table (final (for_range ws (write_map result) st')) = table st
     /\ mgr (final (for_range ws (write_map result) st')) = mgr st
     /\ instances (heap (final (for_range ws (write_map result) st')))
        = instances (heap st)
     /\ arrays (heap (final (for_range ws (write_map result) st')))
        = arrays (heap st)
     /\ exists result2 st'',
          GetLoadedPlugins st' = Returns result2 st''
          /\ result2 <> result
          /\ result2 <> plugins (mgr st)
          /\ map_entries result2 st'' = table st)
  /\ (forall k p,
        sync.readers (mu (mgr st)) = S k ->
        exists st1,
          UnloadPlugin p st = Blocks st1
          /\ st1 = set_mu {| sync.writer := true; sync.readers := S k |} st
          /\ table st1 = table st
          /\ GetLoadedPlugins st1 = Blocks st1).
Proof.
  intros Hfree Hwf. split; cycle 1.
  { intros k p Hr. eexists.
    split; [apply UnloadPlugin_queues; [exact Hfree | exact Hr] |].
    split; [reflexivity |]. split; [destruct_state st; reflexivity |].
    apply GetLoadedPlugins_parks. reflexivity. }
  destruct (GetLoadedPlugins_returns st Hfree Hwf)
    as (st' & Hret & Hcopy & Hmgr & Hmaps & Hnext & Hinst & Harr).
  assert (Hne : next (heap st) <> plugins (mgr st)) by (unfold loc in *; lia).
  assert (Htab : table st' = table st).
  { unfold table, map_entries. rewrite Hmgr, Hmaps.
    rewrite lookup_insert_ne by exact Hne. reflexivity. }
  exists (next (heap st)), st'.
  split; [exact Hret |]. split; [exact Hne |]. split; [exact Hcopy |].
  split; [exact Htab |]. split; [exact Hmgr |].
  destruct (write_map_keeps_table (next (heap st)) ws st') as (Ht & Hg & Hi & Ha).
  { rewrite Hmgr. exact Hne. }
  rewrite Ht, Hg, Hi, Ha, Hmgr, Hinst, Harr, Htab.
  repeat (split; [reflexivity |]).
  destruct (GetLoadedPlugins_returns st') as (st'' & Hret2 & Hcopy2 & _).
  { rewrite Hmgr. exact Hfree. }
  { rewrite Hmgr, Hnext. unfold loc in *. lia. }
  exists (next (heap st')), st''.
  split; [exact Hret2 |]. rewrite Hnext.
  split; [unfold loc in *; lia |]. split; [unfold loc in *; lia |].
  rewrite <- Hnext, Hcopy2. exact Htab.
Qed.

Lemma GetLoadedPlugins_snapshot_witness :
  (exists result st',
     GetLoadedPlugins demo_being_listed = Returns result st'
     /\ result <> plugins (mgr demo_being_listed)
     /\ map_entries result st' = table demo_being_listed
     /\ table st' = table demo_being_listed
     /\ mgr st' = mgr demo_being_listed
     /\ table (final (for_range [Remove "demo"; Assign "ghost" 7] (write_map result) st'))
        = table demo_being_listed
     /\ mgr (final (for_range [Remove "demo"; Assign "ghost" 7] (write_map result) st'))
        = mgr demo_being_listed
     /\ instances (heap (final (for_range [Remove "demo"; Assign "ghost" 7]
                                  (write_map result) st')))
        = instances (heap demo_being_listed)
     /\ arrays (heap (final (for_range [Remove "demo"; Assign "ghost" 7]
                               (write_map result) st')))
        = arrays (heap demo_being_listed)
     /\ exists result2 st'',
          GetLoadedPlugins st' = Returns result2 st''
          /\ result2 <> result
          /\ result2 <> plugins (mgr demo_being_listed)
          /\ map_entries result2 st'' = table demo_being_listed)
  /\ (exists st1,
        UnloadPlugin "demo" demo_being_listed = Blocks st1
        /\ st1 = set_mu {| sync.writer := true; sync.readers := 1 |} demo_being_listed
        /\ table st1 = table demo_being_listed
        /\ GetLoadedPlugins st1 = Blocks st1).
Proof.
  destruct (GetLoadedPlugins_snapshot demo_being_listed
              [Remove "demo"; Assign "ghost" 7]) as (Hsnapshot & Hwaits).
  - vm_compute. reflexivity.
  - vm_compute. lia.
  - split; [exact Hsnapshot |]. apply (Hwaits 0 "demo"). vm_compute. reflexivity.
Defined.

(** ** What the manager never takes back *)

Lemma extends_refl (st : State) : extends st st.
Proof. unfold extends. repeat split; auto. Qed.

Lemma extends_trans (s1 s2 s3 : State) : extends s1 s2 -> extends s2 s3 -> extends s1 s3.
Proof.
  intros (Hn & Hs & Hi & Ha & Hp & He) (Hn' & Hs' & Hi' & Ha' & Hp' & He').
  unfold extends. repeat split; auto; lia.
Qed.

Lemma append_only_ret {A} (a : A) : append_only (ret a).
Proof.
  intros st a' st' Hok Halloc [= _ <-].
  split; [exact Hok |]. split; [exact Halloc | apply extends_refl].
Qed.

Lemma append_only_bind {A B} (m : go A) (k : A -> go B) :
  append_only m -> (forall a, append_only (k a)) -> append_only (bind m k).
Proof.
  intros Hm Hk st b st' Hok Halloc. unfold bind.
  destruct (m st) as [a st1|st1|f st1] eqn:Hmst; [| discriminate | discriminate].
  intros Hkst.
  destruct (Hm st a st1 Hok Halloc Hmst) as (Hok1 & Halloc1 & Hext1).
  destruct (Hk a st1 b st' Hok1 Halloc1 Hkst) as (Hok' & Halloc' & Hext').
  split; [exact Hok' |]. split; [exact Halloc' |].
  exact (extends_trans _ _ _ Hext1 Hext').
Qed.

Lemma append_only_for_range {A} (xs : list A) (body : A -> go unit) :
  (forall x, append_only (body x)) -> append_only (for_range xs body).
Proof.
  intros Hbody. induction xs as [|x xs IH]; simpl.
  - apply append_only_ret.
  - apply append_only_bind; [apply Hbody | intros _; exact IH].
Qed.

Lemma logf_append_only lvl fmt a : append_only (logf lvl fmt a).
Proof.
  intros st [] st' Hok Halloc [= <-]. destruct_state st.
  split; [exact Hok |]. split; [exact Halloc |]. unfold extends. simpl.
  repeat split; auto.
Qed.

(** A handle taken at [started], with its process running or killed. *)
Lemma new_process_extends (ps : gmap pid ProcState) (n : nat) (ps' : gmap pid ProcState) :
  (forall q, is_Some (ps !! q) -> q < n) ->
  ps' = <[n := Running]> ps \/ ps' = alter (fun _ => Exited) n (<[n := Running]> ps) ->
  (forall q, is_Some (ps' !! q) -> q < S n)
  /\ (forall q, is_Some (ps !! q) -> is_Some (ps' !! q))
  /\ (forall q, ps !! q = Some Exited -> ps' !! q = Some Exited).
Proof.
  intros Hb Hps'.
  assert (Hold : forall q, is_Some (ps !! q) -> ps' !! q = ps !! q).
  { intros q Hq. specialize (Hb q Hq).
    destruct Hps' as [-> | ->].
    - apply lookup_insert_ne. lia.
    - rewrite lookup_alter_ne, lookup_insert_ne by lia. reflexivity. }
  split; [| split].
  - intros q Hq. destruct (decide (q = n)) as [->|Hne]; [lia |].
    assert (is_Some (ps !! q)) as Hq'.
    { destruct Hps' as [-> | ->].
      - rewrite lookup_insert_ne in Hq by congruence. exact Hq.
      - rewrite lookup_alter_ne, lookup_insert_ne in Hq by congruence. exact Hq. }
    specialize (Hb q Hq'). lia.
  - intros q Hq. rewrite (Hold q Hq). exact Hq.
  - intros q Hq. rewrite (Hold q) by (rewrite Hq; eauto). exact Hq.
Qed.

(** Killing processes. *)
Lemma kill_all_extends (ps : gmap pid ProcState) (cs : list pid) (n : nat) :
  (forall q, is_Some (ps !! q) -> q < n) ->
  (forall q, is_Some (foldl (fun acc c => alter (fun _ => Exited) c acc) ps cs !! q) -> q < n)
  /\ (forall q, is_Some (ps !! q) ->
        is_Some (foldl (fun acc c => alter (fun _ => Exited) c acc) ps cs !! q))
  /\ (forall q, ps !! q = Some Exited ->
        foldl (fun acc c => alter (fun _ => Exited) c acc) ps cs !! q = Some Exited).
Proof.
  intros Hb. split; [| split]; intros q; rewrite kill_all_lookup; case_decide.
  - rewrite fmap_is_Some. apply Hb.
  - apply Hb.
  - rewrite fmap_is_Some. auto.
  - auto.
  - intros ->. reflexivity.
  - auto.
Qed.

Lemma LoadPlugin_os (deps : Deps) (world : World) (pluginPath : string)
    (st st' : State) (r : option error) :
  LoadPlugin deps world pluginPath st = Returns r st' ->
  os st' = os st
  \/ (started (os st') = S (started (os st))
      /\ (procs (os st') = <[started (os st) := Running]> (procs (os st))
          \/ procs (os st')
             = alter (fun _ => Exited) (started (os st))
                 (<[started (os st) := Running]> (procs (os st))))).
Proof.
  unfold LoadPlugin. unfold_mutex. unfold_go.
  destruct_state st.
  destruct mw; simpl; [discriminate |]. destruct mr; simpl; [| discriminate].
  destruct (os_Stat world pluginPath) as [|ne msg]; simpl.
  2:{ intros [= <- <-]. left. reflexivity. }
  destruct (exec world pluginPath (started o)) as [cn dp inf drv]; simpl.
  destruct cn as [msg|]; simpl.
  { intros [= <- <-]. simpl. right. split; [reflexivity | right; reflexivity]. }
  destruct dp as [msg|]; simpl.
  { intros [= <- <-]. simpl. right. split; [reflexivity | right; reflexivity]. }
  destruct inf as [i|msg]; simpl.
  2:{ intros [= <- <-]. simpl. right. split; [reflexivity | right; reflexivity]. }
  destruct (default ∅ (maps h !! pl) !! PluginInfo.Name i) as [old|] eqn:Hold; simpl.
  { intros [= <- <-]. simpl. right. split; [reflexivity | right; reflexivity]. }
  destruct drv as [names|msg]; simpl.
  2:{ intros [= <- <-]. simpl. right. split; [reflexivity | right; reflexivity]. }
  match goal with
  | |- context [for_range ?xs ?body ?s] =>
      pose proof (register_all_keeps_mgr deps (PluginInfo.Name i) (started o) xs s) as Hmgr;
      pose proof (register_all_keeps_os deps (PluginInfo.Name i) (started o) xs s) as Hos;
      change (register_all deps (PluginInfo.Name i) (started o) xs s)
        with (for_range xs body s) in Hmgr, Hos;
      destruct (for_range xs body s) as [[] st1|st1|flt st1]
  end; simpl in *; [| discriminate |].
  2:{ destruct (fatal flt); [discriminate |]. rewrite Hmgr. simpl. discriminate. }
  destruct st1 as [r1 m1 h1 o1 lg1]; simpl in *. subst m1 o1. simpl.
  destruct (maps h1 !! pl) as [entries|]; simpl; [| discriminate].
  intros [= <- <-]. simpl. right. split; [reflexivity | left; reflexivity].
Qed.

Lemma LoadPlugin_append_only (deps : Deps) (world : World) (pluginPath : string) :
  append_only (LoadPlugin deps world pluginPath).
Proof.
  intros st r st' Hok [Hheap Hprocs] Hload.
  pose proof (LoadPlugin_sound deps world pluginPath st Hok) as Hok'.
  rewrite Hload in Hok'. split; [exact Hok' |].
  destruct Hok as (_ & Hpl & _).
  assert (Hos : (forall q, is_Some (procs (os st') !! q) -> q < started (os st'))
                /\ started (os st) <= started (os st')
                /\ (forall q, is_Some (procs (os st) !! q) -> is_Some (procs (os st') !! q))
                /\ (forall q, procs (os st) !! q = Some Exited ->
                      procs (os st') !! q = Some Exited)).
  { destruct (LoadPlugin_os deps world pluginPath st st' r Hload) as [-> | [Hs Hp]].
    - repeat split; auto.
    - rewrite Hs.
      destruct (new_process_extends (procs (os st)) (started (os st)) (procs (os st'))
                  Hprocs Hp) as (H1 & H2 & H3).
      repeat split; auto. }
  destruct Hos as (Hb' & Hs' & Hp' & He').
  destruct (LoadPlugin_returns deps world pluginPath st st' r Hload)
    as (_ & Hmgr & _ & Hcases).
  assert (heap st' = heap st -> allocation_ok st' /\ extends st st') as Hsame.
  { intros Heq. split.
    - split; [rewrite Heq; exact Hheap | exact Hb'].
    - unfold extends. rewrite Heq. repeat split; auto. }
  destruct Hcases as [(e & _ & Heq) | [(_ & Heq & _) | (_ & Hstored)]];
    [exact (Hsame Heq) | exact (Hsame Heq) |].
  destruct Hstored as (i & names & entries & _ & _ & Hmap & _ & _ & Heq).
  assert (Hfresh : forall l, is_Some (maps (heap st) !! l)
                             \/ is_Some (instances (heap st) !! l)
                             \/ is_Some (arrays (heap st) !! l) ->
                             l <> next (heap st) /\ l <> S (next (heap st))).
  { intros l Hl. specialize (Hheap l Hl). unfold loc in *. lia. }
  split.
  - split; [| exact Hb'].
    intros l. rewrite Heq. simpl.
    destruct (decide (l = next (heap st))) as [->|Hn1]; [unfold loc in *; lia |].
    destruct (decide (l = S (next (heap st)))) as [->|Hn2]; [unfold loc in *; lia |].
    rewrite (lookup_insert_ne (instances (heap st))) by congruence.
    rewrite (lookup_insert_ne (arrays (heap st))) by congruence.
    intros [Hm | Hia].
    + destruct (decide (l = plugins (mgr st))) as [->|Hn3]; [unfold loc in *; lia |].
      rewrite lookup_insert_ne in Hm by congruence.
      specialize (Hheap l (or_introl Hm)). unfold loc in *. lia.
    + specialize (Hheap l (or_intror Hia)). unfold loc in *. lia.
  - unfold extends. rewrite Heq. simpl.
    split; [lia |]. split; [exact Hs' |].
    split.
    { intros l inst Hl. rewrite lookup_insert_ne; [exact Hl |].
      destruct (Hfresh l) as [_ Hne]; [right; left; eauto | congruence]. }
    split.
    { intros l xs Hl. rewrite lookup_insert_ne; [exact Hl |].
      destruct (Hfresh l) as [Hne _]; [right; right; eauto | congruence]. }
    split; assumption.
Qed.

Lemma UnloadPlugin_append_only (p : string) : append_only (UnloadPlugin p).
Proof.
  intros st r st' Hok [Hheap Hprocs] Hun.
  pose proof (UnloadPlugin_sound p st Hok) as Hok'.
  rewrite Hun in Hok'. split; [exact Hok' |].
  destruct Hok as (_ & Hpl & Hkey).
  destruct (table st !! p) as [l|] eqn:Htable.
  - destruct (Hkey p l Htable) as (_ & inst & Hinst & _).
    destruct (UnloadPlugin_returns p st st' r l inst Htable Hinst Hun)
      as (_ & _ & _ & Hp & Hs & Heq & _).
    destruct (kill_all_extends (procs (os st)) [PluginInstance.Client inst]
                (started (os st)) Hprocs) as (H1 & H2 & H3).
    simpl in H1, H2, H3. rewrite <- Hp in H1, H2, H3.
    split.
    + split; [| rewrite Hs; exact H1].
      intros l0. rewrite Heq. simpl. intros [Hm | Hia].
      * destruct (decide (l0 = plugins (mgr st))) as [->|Hne]; [exact Hpl |].
        rewrite lookup_insert_ne in Hm by congruence. apply Hheap. left. exact Hm.
      * apply Hheap. right. exact Hia.
    + unfold extends. rewrite Heq, Hs. simpl. repeat split; auto.
  - assert (st' = st) as ->.
    { revert Hun. unfold UnloadPlugin. unfold table in *. unfold_mutex. unfold_go.
      destruct_state st.
      destruct mw; simpl; [discriminate |]. destruct mr; simpl; [| discriminate].
      rewrite Htable. simpl. intros [= _ <-]. reflexivity. }
    split; [split; assumption | apply extends_refl].
Qed.

Lemma ReloadPlugin_append_only (deps : Deps) (world : World) (p : string) :
  append_only (ReloadPlugin deps world p).
Proof.
  intros st r st' Hok Halloc. pose proof Hok as (_ & _ & Hkey).
  destruct (table st !! p) as [l|] eqn:Htable.
  - destruct (Hkey p l Htable) as (_ & inst & Hinst & _).
    rewrite (ReloadPlugin_known deps world p st l inst Htable Hinst).
    destruct (UnloadPlugin p st) as [[e|] st1|st1|f st1] eqn:Hun; try discriminate.
    + intros [= _ <-]. exact (UnloadPlugin_append_only p st _ _ Hok Halloc Hun).
    + destruct (UnloadPlugin_append_only p st _ _ Hok Halloc Hun)
        as (Hok1 & Halloc1 & Hext1).
      destruct (LoadPlugin deps world (PluginInstance.Path inst) st1)
        as [r2 st2|st2|f st2] eqn:Hload; try discriminate.
      * intros Hres.
        assert (st2 = st') as <- by (destruct r2; injection Hres; auto).
        destruct (LoadPlugin_append_only deps world _ st1 _ _ Hok1 Halloc1 Hload)
          as (Hok2 & Halloc2 & Hext2).
        split; [exact Hok2 |]. split; [exact Halloc2 |].
        exact (extends_trans _ _ _ Hext1 Hext2).
  - rewrite ReloadPlugin_unknown by exact Htable. intros [= _ <-].
    split; [exact Hok |]. split; [exact Halloc | apply extends_refl].
Qed.

Lemma LoadPluginsFromDir_append_only (deps : Deps) (world : World) (dir : string) :
  append_only (LoadPluginsFromDir deps world dir).
Proof.
  assert (Hscan : append_only (bind (for_range (match os_ReadDir world dir with
                                                | Ok entries => entries
                                                | Err _ => []
                                                end) (scan_entry deps world dir))
                                 (fun _ => ret (None : option error)))).
  { apply append_only_bind; [| intros _; apply append_only_ret].
    apply append_only_for_range. intros entry. unfold scan_entry.
    destruct (DirEntry.IsDir entry); [apply append_only_ret |].
    case_decide; [| apply append_only_ret].
    apply append_only_bind; [apply LoadPlugin_append_only | intros [e|]].
    - apply logf_append_only.
    - apply append_only_ret. }
  unfold LoadPluginsFromDir.
  destruct (os_Stat world dir) as [|[|] msg];
    destruct (os_ReadDir world dir) as [entries|msg'];
    first [ exact Hscan | apply append_only_ret
          | apply append_only_bind; [apply logf_append_only | intros _; apply append_only_ret] ].
Qed.

Lemma Shutdown_append_only : append_only Shutdown.
Proof.
  intros st [] st' Hok [Hheap Hprocs] Hsd.
  pose proof (Shutdown_sound st Hok) as Hok'.
  rewrite Hsd in Hok'. split; [exact Hok' |].
  destruct Hok as (_ & Hpl & Hkey).
  assert (Hmu : mu (mgr st) = sync.unlocked).
  { revert Hsd. unfold Shutdown. unfold_mutex. unfold bind, on_mutex.
    destruct_state st. destruct mw; [discriminate |]. destruct mr; [reflexivity | discriminate]. }
  destruct (Shutdown_returns st Hmu) as (st1 & Hret & _ & Heq & _ & Hs & Hp).
  { intros k l Hk. destruct (Hkey k l Hk) as (_ & inst & Hinst & _). eauto. }
  rewrite Hsd in Hret. injection Hret as <-.
  destruct (kill_all_extends (procs (os st))
              (omap (fun kv => PluginInstance.Client <$> instances (heap st) !! kv.2)
                 (map_to_list (table st)))
              (started (os st)) Hprocs) as (H1 & H2 & H3).
  rewrite <- Hp in H1, H2, H3.
  split.
  - split; [| rewrite Hs; exact H1].
    intros l. rewrite Heq. simpl. intros [Hm | Hia].
    + destruct (decide (l = next (heap st))) as [->|Hne]; [lia |].
      rewrite lookup_insert_ne in Hm by congruence.
      specialize (Hheap l (or_introl Hm)). lia.
    + specialize (Hheap l (or_intror Hia)). lia.
  - unfold extends. rewrite Heq, Hs. simpl. repeat split; auto.
Qed.

Lemma GetLoadedPlugins_keeps_os : keeps os GetLoadedPlugins.
Proof. unfold GetLoadedPlugins. keeps_tac. Qed.

Lemma GetLoadedPlugins_append_only : append_only GetLoadedPlugins.
Proof.
  intros st result st' Hok [Hheap Hprocs] Hget.
  pose proof (GetLoadedPlugins_sound st Hok) as Hok'.
  rewrite Hget in Hok'. split; [exact Hok' |].
  pose proof (GetLoadedPlugins_keeps_os st) as Hos. rewrite Hget in Hos. simpl in Hos.
  destruct Hok as (_ & Hpl & _).
  assert (Hw : sync.writer (mu (mgr st)) = false).
  { revert Hget. unfold GetLoadedPlugins. unfold_mutex. unfold bind, on_mutex.
    destruct_state st. destruct mw; [discriminate | reflexivity]. }
  destruct (GetLoadedPlugins_returns st Hw Hpl)
    as (st1 & Hret & _ & _ & Hmaps & Hnext & Hinst & Harr).
  rewrite Hget in Hret. injection Hret as _ <-.
  split.
  - split; [| rewrite Hos; exact Hprocs].
    intros l. rewrite Hmaps, Hnext, Hinst, Harr. intros [Hm | Hia].
    + destruct (decide (l = next (heap st))) as [->|Hne]; [lia |].
      rewrite lookup_insert_ne in Hm by congruence.
      specialize (Hheap l (or_introl Hm)). lia.
    + specialize (Hheap l (or_intror Hia)). lia.
  - unfold extends. rewrite Hnext, Hinst, Harr, Hos. repeat split; auto.
Qed.

(** X24: the manager never takes back what it handed out.  When an operation
    of the manager returns, started with the manager in working order and
    nothing allocated beyond the allocation counters (as in the starting
    state), every instance and every driver list that existed is still
    there, unchanged: the manager writes an instance once, when it creates
    it, so whoever holds a pointer from GetLoadedPlugins keeps seeing what
    it saw.  Every process that was known is still known, and no process
    that had exited runs again.  The state left is again in working order,
    with nothing allocated beyond the counters. *)
Theorem operations_append_only (deps : Deps) (world : World) :
  (manager_ok initial /\ allocation_ok initial)
  /\ (forall path, append_only (LoadPlugin deps world path))
  /\ (forall dir, append_only (LoadPluginsFromDir deps world dir))
  /\ (forall p, append_only (UnloadPlugin p))
  /\ (forall p, append_only (ReloadPlugin deps world p))
  /\ append_only (RescanPlugins deps world)
  /\ append_only (loadPlugins deps world)
  /\ append_only GetLoadedPlugins
  /\ append_only Shutdown.
Proof.
  split.
  { split.
    - split; [vm_compute; eauto |]. split; [vm_compute; lia |].
      apply initial_keyed_by_identity.
    - split.
      + intros l. unfold initial. cbn [heap maps instances arrays next].
        rewrite !lookup_empty.
        intros [Hm | [[? [=]] | [? [=]]]].
        destruct (decide (l = 0)) as [->|Hne]; [lia |].
        rewrite lookup_singleton_ne in Hm by congruence.
        destruct Hm as [? [=]].
      + intros q. unfold initial. cbn [os procs started].
        rewrite lookup_empty. intros [? [=]]. }
  split; [intros path; apply LoadPlugin_append_only |].
  split; [intros dir; apply LoadPluginsFromDir_append_only |].
  split; [intros p; apply UnloadPlugin_append_only |].
  split; [intros p; apply ReloadPlugin_append_only |].
  split.
  { unfold RescanPlugins.
    apply append_only_bind; [| intros _; apply append_only_ret].
    apply append_only_for_range. intros dir.
    apply append_only_bind; [apply LoadPluginsFromDir_append_only | intros [e|]].
    - apply logf_append_only.
    - apply append_only_ret. }
  split.
  { unfold loadPlugins.
    apply append_only_for_range. intros dir.
    apply append_only_bind; [apply LoadPluginsFromDir_append_only | intros [e|]].
    - apply logf_append_only.
    - apply append_only_ret. }
  split; [apply GetLoadedPlugins_append_only | apply Shutdown_append_only].
Qed.

(** * What the double lock costs the plugins *)

(** ** Two sources for one driver name *)



(** ** Registering the driver of an adapter *)

(** C10 fails on the code in its last part.  For every adapter [Config]
    is a function of the adapter alone (it reads neither the program state
    nor the plugin process) and returns the descriptor with the bound driver
    name, default root ["/"] and every boolean option false, and
    [GetAddition] returns an empty generic map, for which
    [registerDriverItems], were it called with the registry mutex free,
    would record an empty list of additional items, deriving nothing from
    fields.  But [registerDriverItems] is only called by [RegisterDriver],
    which holds the mutex: in every state [RegisterDriver] of a constructor
    of the adapter parks with [driverInfoMap] and [driverMap] as they were.
    So does the manager when it registers the adapter's driver under a name
    that is free: nothing is recorded for the driver, and from then on
    [GetDriverInfoMap] parks. *)
Theorem adapter_registration_records_nothing (deps : Deps)
    (a : PluginDriverAdapter.t) (pluginName : string) (st : State) :
  Config a
  = Config.mk (PluginDriverAdapter.driverName a)
      false false false false false false "/" false "" false false false
  /\ GetAddition a = GenericMap ∅
  /\ (driverMutex (reg st) = sync.unlocked ->
      exists st',
        registerDriverItems deps (Config a) (GetAddition a) st = Returns tt st'
        /\ driverInfoMap (reg st') !! PluginDriverAdapter.driverName a
           = Some (Info.mk (getMainItems deps (Config a)) [] (Config a)))
  /\ (exists st',
        RegisterDriver deps (fun _ => Remote a) st = Blocks st'
        /\ driverInfoMap (reg st') = driverInfoMap (reg st)
        /\ driverMap (reg st') = driverMap (reg st))
  /\ (driverMutex (reg st) = sync.unlocked ->
      driverMap (reg st) !! PluginDriverAdapter.driverName a = None ->
      exists st',
        registerPluginDriver deps (PluginDriverAdapter.driverName a) pluginName
          (PluginDriverAdapter.pluginClient a) st = Blocks st'
        /\ driverInfoMap (reg st') = driverInfoMap (reg st)
        /\ driverMap (reg st') = driverMap (reg st)
        /\ sync.writer (driverMutex (reg st')) = true
        /\ GetDriverInfoMap st' = Blocks st').
Proof.
  split; [reflexivity |]. split; [reflexivity |].
  split.
  { intros Hfree. eexists. split.
    - apply registerDriverItems_map; [exact Hfree | reflexivity].
    - simpl. apply lookup_insert_eq. }
  split.
  { destruct (RegisterDriver_blocks deps (fun _ => Remote a) st) as [st' Hblocks].
    exists st'. split; [exact Hblocks |].
    pose proof (keeps_RegisterDriver (fun s => driverInfoMap (reg s)) deps
                  (fun _ => Remote a) (fun _ _ => eq_refl) st) as Hdim.
    pose proof (keeps_RegisterDriver (fun s => driverMap (reg s)) deps
                  (fun _ => Remote a) (fun _ _ => eq_refl) st) as Hdm.
    rewrite Hblocks in Hdim, Hdm. split; [exact Hdim | exact Hdm]. }
  intros Hfree Hnone.
  assert (Hw : sync.writer (driverMutex (reg st)) = false) by (rewrite Hfree; reflexivity).
  unfold registerPluginDriver, bind.
  rewrite IsDriverRegistered_returns by exact Hw.
  rewrite Hnone.
  rewrite bool_decide_eq_false_2 by (intros [? ?]; discriminate).
  rewrite RegisterDriver_holds_mutex by exact Hfree.
  eexists. split; [reflexivity |].
  destruct_state st. repeat split.
Qed.

Lemma adapter_registration_records_nothing_witness :
  (exists st',
     RegisterDriver demo_deps (fun _ => Remote (NewPluginDriverAdapter 0 "DemoFS")) initial
     = Blocks st'
     /\ driverInfoMap (reg st') = driverInfoMap (reg initial)
     /\ driverMap (reg st') = driverMap (reg initial))
  /\ (exists st',
        registerPluginDriver demo_deps "DemoFS" "fs" 0 initial = Blocks st'
        /\ driverInfoMap (reg st') = driverInfoMap (reg initial)
        /\ driverMap (reg st') = driverMap (reg initial)
        /\ sync.writer (driverMutex (reg st')) = true
        /\ GetDriverInfoMap st' = Blocks st').
Proof.
  destruct (adapter_registration_records_nothing demo_deps
              (NewPluginDriverAdapter 0 "DemoFS") "fs" initial)
    as (_ & _ & _ & Hregistry & Hmanager).
  split; [exact Hregistry |].
  apply Hmanager; reflexivity.
Defined.

(** ** Reloading a plugin *)

Section ReloadLoses.
Context (deps : Deps) (world : World).

(** C7 fails on the code in what it says of the drivers.  These parts
    hold: [ReloadPlugin] of a name that is not in the table returns the
    not-found error and leaves the state as it is; for a plugin in the
    table, [ReloadPlugin] and "unload, then load the recorded path" end in
    the same way and in the same state; a reload that returns an error
    returns the error of the load step and leaves no entry for the name; a
    reload that returns nil leaves the original process not running and any
    entry under the name bound to the process this call started.  But no
    driver is ever bound to the new process.  When the new process reports a
    driver name that the unload has just unregistered, or any other name
    that is not registered, [ReloadPlugin] does not return: it parks in
    [RegisterDriver] holding both locks, with the plugin gone from the table,
    its drivers unregistered and the new process running.  And when a reload
    does return nil, every driver name of the old entry is unregistered. *)
Theorem ReloadPlugin_never_rebinds (p : string) (st : State) :
  (table st !! p = None ->
   ReloadPlugin deps world p st = Returns (Some (ErrNotFound p)) st)
  /\ (forall l inst,
        table st !! p = Some l ->
        instances (heap st) !! l = Some inst ->
        same_observation (ReloadPlugin deps world p st)
          (unload_then_load deps world p (PluginInstance.Path inst) st)
        /\ (forall st',
              ReloadPlugin deps world p st = Returns None st' ->
              (forall l' inst',
                 table st' !! p = Some l' ->
                 instances (heap st') !! l' = Some inst' ->
                 PluginInstance.Client inst' = started (os st)
                 /\ (PluginInstance.Client inst < started (os st) ->
                     PluginInstance.Client inst' <> PluginInstance.Client inst))
              /\ (PluginInstance.Client inst < started (os st) ->
                  procs (os st') !! PluginInstance.Client inst <> Some Running)
              /\ (forall n,
                    n ∈ slice_elems (PluginInstance.Drivers inst) st ->
                    driverMap (reg st') !! n = None
                    /\ driverInfoMap (reg st') !! n = None))
        /\ (forall e st',
              ReloadPlugin deps world p st = Returns (Some e) st' ->
              (exists cause, e = ErrReload p cause) /\ table st' !! p = None)
        /\ (forall i names n,
              mu (mgr st) = sync.unlocked ->
              driverMutex (reg st) = sync.unlocked ->
              os_Stat world (PluginInstance.Path inst) = StatOk ->
              connect (exec world (PluginInstance.Path inst) (started (os st))) = None ->
              dispense (exec world (PluginInstance.Path inst) (started (os st))) = None ->
              info (exec world (PluginInstance.Path inst) (started (os st))) = Ok i ->
              PluginInfo.Name i = p \/ table st !! PluginInfo.Name i = None ->
              drivers (exec world (PluginInstance.Path inst) (started (os st))) = Ok names ->
              n ∈ names ->
              n ∈ slice_elems (PluginInstance.Drivers inst) st
                \/ driverMap (reg st) !! n = None ->
              exists st',
                ReloadPlugin deps world p st = Blocks st'
                /\ table st' !! p = None
                /\ (forall m, m ∈ slice_elems (PluginInstance.Drivers inst) st ->
                      driverMap (reg st') !! m = None)
                /\ driverMap (reg st') !! n = None
                /\ sync.writer (mu (mgr st')) = true
                /\ sync.writer (driverMutex (reg st')) = true
                /\ procs (os st') !! started (os st) = Some Running
                /\ (PluginInstance.Client inst < started (os st) ->
                    procs (os st') !! PluginInstance.Client inst <> Some Running))).
Proof.
  split; [apply ReloadPlugin_unknown |].
  intros l inst Htable Hinst.
  rewrite (ReloadPlugin_known deps world p st l inst Htable Hinst).
  split; [| split; [| split]].
  - unfold unload_then_load, bind, ret.
    destruct (UnloadPlugin p st) as [[e|] st1|st1|flt st1]; simpl; try done.
    destruct (LoadPlugin _ _ _ st1) as [[e|] st2|st2|flt st2]; simpl; done.
  - intros st'.
    destruct (UnloadPlugin p st) as [[e|] st1|st1|flt st1] eqn:Hun; try discriminate.
    destruct (LoadPlugin _ _ _ st1) as [[e|] st2|st2|flt st2] eqn:Hload;
      try discriminate.
    intros [= <-].
    pose proof (UnloadPlugin_table p st st1 None l inst Htable Hinst Hun) as Htab1.
    destruct (UnloadPlugin_returns p st st1 None l inst Htable Hinst Hun)
      as (_ & _ & Hmgr1 & Hprocs1 & Hstarted1 & Hheap1 & Hdm1 & Hdim1 & _).
    pose proof (LoadPlugin_keeps_driverMap deps world (PluginInstance.Path inst) st1)
      as Hdm2.
    pose proof (LoadPlugin_keeps_driverInfoMap deps world (PluginInstance.Path inst) st1)
      as Hdim2.
    rewrite Hload in Hdm2, Hdim2. simpl in Hdm2, Hdim2.
    destruct (LoadPlugin_returns deps world (PluginInstance.Path inst) st1 st2 None Hload)
      as (_ & Hmgr2 & Hprocs2 & Hcases).
    split; [| split].
    + intros l' inst' Htable' Hinst'.
      destruct Hcases as [(e & [=] & _) | [(_ & Hheap2 & _) | (_ & Hstored)]].
      * exfalso. unfold table, map_entries in Htable', Htab1.
        rewrite Hmgr2, Hheap2, Htab1, lookup_delete_eq in Htable'. discriminate.
      * destruct Hstored as (i & names & entries & _ & _ & Hmap & _ & _ & Hheap2).
        unfold table, map_entries in Htable', Htab1.
        rewrite Hmgr2, Hheap2 in Htable'. simpl in Htable'.
        rewrite lookup_insert_eq in Htable'. simpl in Htable'.
        rewrite Hmap in Htab1. simpl in Htab1. subst entries.
        destruct (decide (PluginInfo.Name i = p)) as [<-|Hne].
        -- rewrite lookup_insert_eq in Htable'. injection Htable' as <-.
           rewrite Hheap2 in Hinst'. simpl in Hinst'.
           rewrite lookup_insert_eq in Hinst'. injection Hinst' as <-. simpl.
           rewrite Hstarted1. split; [reflexivity | lia].
        -- rewrite lookup_insert_ne, lookup_delete_eq in Htable' by exact Hne.
           discriminate.
    + intros Hold.
      assert (procs (os st1) !! PluginInstance.Client inst <> Some Running) as Hexited.
      { rewrite Hprocs1, lookup_alter_eq.
        destruct (procs (os st) !! PluginInstance.Client inst); simpl; congruence. }
      rewrite Hprocs2 by (rewrite Hstarted1; lia). exact Hexited.
    + intros n Hn. rewrite Hdm2, Hdm1, Hdim2, Hdim1.
      rewrite !decide_True by exact Hn. split; reflexivity.
  - intros e st'.
    destruct (UnloadPlugin p st) as [[e0|] st1|st1|flt st1] eqn:Hun; try discriminate.
    { destruct (UnloadPlugin_returns p st st1 (Some e0) l inst Htable Hinst Hun)
        as ([=] & _). }
    destruct (LoadPlugin _ _ _ st1) as [[e1|] st2|st2|flt st2] eqn:Hload;
      try discriminate.
    intros [= <- <-]. split; [eauto |].
    pose proof (UnloadPlugin_table p st st1 None l inst Htable Hinst Hun) as Htab1.
    destruct (LoadPlugin_error_keeps_heap deps world (PluginInstance.Path inst)
                st1 st2 e1 Hload) as (Hmgr2 & Hheap2).
    unfold table, map_entries in *. rewrite Hmgr2, Hheap2, Htab1.
    apply lookup_delete_eq.
  - intros i names n Hmu Hdmu Hstat Hconnect Hdispense Hinfo Hname Hdrivers Hin Hfree.
    destruct (UnloadPlugin_known p st l inst Hmu Hdmu Htable Hinst) as [st1 Hun].
    rewrite Hun.
    pose proof (UnloadPlugin_table p st st1 None l inst Htable Hinst Hun) as Htab1.
    destruct (UnloadPlugin_returns p st st1 None l inst Htable Hinst Hun)
      as (_ & _ & Hmgr1 & Hprocs1 & Hstarted1 & _ & Hdm1 & _ & Hdmu1).
    assert (Hn1 : driverMap (reg st1) !! n = None).
    { rewrite Hdm1. case_decide; [reflexivity |].
      destruct Hfree as [?|Hnone]; [contradiction | exact Hnone]. }
    assert (Hnew1 : table st1 !! PluginInfo.Name i = None).
    { rewrite Htab1. destruct (decide (PluginInfo.Name i = p)) as [->|Hne].
      - apply lookup_delete_eq.
      - rewrite lookup_delete_ne by congruence.
        destruct Hname as [?|Hnone]; [contradiction | exact Hnone]. }
    rewrite <- Hstarted1 in Hconnect, Hdispense, Hinfo, Hdrivers.
    destruct (LoadPlugin_blocks_registering deps world (PluginInstance.Path inst) st1
                i names n) as (st' & Hload & Hw & Hdw & Hos & Htab');
      try assumption.
    { rewrite Hmgr1. exact Hmu. }
    { rewrite Hdmu1. exact Hdmu. }
    pose proof (LoadPlugin_keeps_driverMap deps world (PluginInstance.Path inst) st1)
      as Hdm2.
    rewrite Hload in Hdm2. simpl in Hdm2.
    exists st'. rewrite Hload. split; [reflexivity |].
    split; [rewrite Htab', Htab1; apply lookup_delete_eq |].
    split.
    { intros m Hm. rewrite Hdm2, Hdm1. rewrite decide_True by exact Hm. reflexivity. }
    split; [rewrite Hdm2; exact Hn1 |].
    split; [exact Hw |]. split; [exact Hdw |].
    split; [rewrite Hos, Hstarted1; apply lookup_insert_eq |].
    intros Hold. rewrite Hos, lookup_insert_ne by (rewrite Hstarted1; lia).
    rewrite Hprocs1, lookup_alter_eq.
    destruct (procs (os st) !! PluginInstance.Client inst); simpl; congruence.
Qed.

End ReloadLoses.

Lemma ReloadPlugin_never_rebinds_witness :
  ReloadPlugin demo_deps demo_world "ghost" empty_loaded
  = Returns (Some (ErrNotFound "ghost")) empty_loaded
  /\ same_observation (ReloadPlugin demo_deps demo_world "empty" empty_loaded)
       (unload_then_load demo_deps demo_world "empty" "plugins/empty" empty_loaded)
  /\ (ReloadPlugin demo_deps demo_world "empty" empty_loaded = Returns None empty_reloaded
      /\ table empty_reloaded !! "empty" = Some 4
      /\ instances (heap empty_reloaded) !! 4
         = Some (PluginInstance.mk "empty" "plugins/empty" 1 3 ∅)
      /\ PluginInstance.Client (PluginInstance.mk "empty" "plugins/empty" 1 3 ∅)
         = started (os empty_loaded)
      /\ procs (os empty_reloaded) !! 0 <> Some Running)
  /\ (ReloadPlugin demo_deps demo_world "flaky" flaky_loaded
      = Returns (Some (ErrReload "flaky" (ErrConnect "handshake failed"))) flaky_reloaded
      /\ (exists cause,
            ErrReload "flaky" (ErrConnect "handshake failed") = ErrReload "flaky" cause)
      /\ table flaky_reloaded !! "flaky" = None)
  /\ (exists st',
        ReloadPlugin demo_deps demo_world "demo" demo_loaded = Blocks st'
        /\ table st' !! "demo" = None
        /\ driverMap (reg st') !! "Local" = None
        /\ sync.writer (mu (mgr st')) = true
        /\ sync.writer (driverMutex (reg st')) = true
        /\ procs (os st') !! started (os demo_loaded) = Some Running
        /\ procs (os st') !! 0 <> Some Running).
Proof.
  destruct (ReloadPlugin_never_rebinds demo_deps demo_world "ghost" empty_loaded)
    as (Hghost & _).
  destruct (ReloadPlugin_never_rebinds demo_deps demo_world "empty" empty_loaded)
    as (_ & Hempty).
  destruct (ReloadPlugin_never_rebinds demo_deps demo_world "flaky" flaky_loaded)
    as (_ & Hflaky).
  destruct (ReloadPlugin_never_rebinds demo_deps demo_world "demo" demo_loaded)
    as (_ & Hdemo).
  specialize (Hempty 2 (PluginInstance.mk "empty" "plugins/empty" 0 1 ∅)).
  destruct Hempty as (Hsame & Hok & _);
    [vm_compute; reflexivity | vm_compute; reflexivity |].
  specialize (Hflaky 2 (PluginInstance.mk "flaky" "plugins/flaky" 0 1 ∅)).
  destruct Hflaky as (_ & _ & Herr & _);
    [vm_compute; reflexivity | vm_compute; reflexivity |].
  specialize (Hdemo 2 (PluginInstance.mk "demo" "plugins/demo" 0 1 ∅)).
  destruct Hdemo as (_ & _ & _ & Hparks);
    [vm_compute; reflexivity | vm_compute; reflexivity |].
  assert (ReloadPlugin demo_deps demo_world "empty" empty_loaded
          = Returns None empty_reloaded) as Hre by (vm_compute; reflexivity).
  assert (ReloadPlugin demo_deps demo_world "flaky" flaky_loaded
          = Returns (Some (ErrReload "flaky" (ErrConnect "handshake failed")))
              flaky_reloaded) as Hre' by (vm_compute; reflexivity).
  assert (table empty_reloaded !! "empty" = Some 4) as Hentry
    by (vm_compute; reflexivity).
  assert (instances (heap empty_reloaded) !! 4
          = Some (PluginInstance.mk "empty" "plugins/empty" 1 3 ∅)) as Hinst
    by (vm_compute; reflexivity).
  destruct (Hok empty_reloaded Hre) as (Hbound & Hexited & _).
  destruct (Hbound 4 _ Hentry Hinst) as (Hclient & _).
  destruct (Herr _ flaky_reloaded Hre') as (Hcause & Hgone).
  destruct (Hparks (PluginInfo.mk "demo" "1.0" "" "") ["Local"] "Local")
    as (st' & Hblocks & Hnotable & _ & Hnodriver & Hmu & Hdmu & Hrun & Hdead).
  { vm_compute. reflexivity. }
  { vm_compute. reflexivity. }
  { reflexivity. }
  { reflexivity. }
  { reflexivity. }
  { reflexivity. }
  { left. reflexivity. }
  { reflexivity. }
  { apply list_elem_of_here. }
  { left. vm_compute. apply list_elem_of_here. }
  split; [apply Hghost; vm_compute; reflexivity | split; [exact Hsame | split]].
  - split; [exact Hre |]. split; [exact Hentry |]. split; [exact Hinst |].
    split; [exact Hclient |]. apply Hexited. vm_compute. lia.
  - split.
    + split; [exact Hre' |]. split; [exact Hcause | exact Hgone].
    + exists st'. split; [exact Hblocks |]. split; [exact Hnotable |].
      split; [exact Hnodriver |]. split; [exact Hmu |]. split; [exact Hdmu |].
      split; [exact Hrun |]. apply Hdead. vm_compute. lia.
Defined.
